(** * Real-time data channel of the home-energy dashboard

    A shallow embedding of the two cooperating pieces of the dashboard's
    real-time channel:

    - the message handler of [Dashboard] ([handleWebSocketMessage]), which
      folds inbound WebSocket messages into the readings, realtime and
      timeseries tables;
    - the [useWebSocket] hook, which owns the socket, the heartbeat and the
      reconnection policy.

    JavaScript objects used as dictionaries ([Record<string, T>]) are finite
    maps with string keys, which hold their own entries; reading an entry
    goes through [Object.prototype] where the object has none of its own.
    Arrays are lists; the refs of the hook are fields of one state record,
    and the WebSocket objects and timers they point to live in explicit
    stores, so that a socket or a timer that is no longer referenced by a
    ref still exists and can still fire. *)

From Stdlib Require Import ZArith Ascii String.
From stdpp Require Import gmap strings list fin_maps.

(** ** Reading an entry of a table

    The tables are created by object literals and spreads, so their
    prototype is [Object.prototype]. [obj[key]] yields the value the object
    itself holds under [key]; without one, it yields the member of
    [Object.prototype] of that name, when there is one, and [undefined]
    otherwise. The members are functions, and the prototype object itself
    under [__proto__]: all of them truthy, none of them iterable. *)
Definition Object_prototype (key : string) : bool :=
  bool_decide
    (key ∈ ["constructor"%string; "__defineGetter__"%string;
            "__defineSetter__"%string; "hasOwnProperty"%string;
            "__lookupGetter__"%string; "__lookupSetter__"%string;
            "isPrototypeOf"%string; "propertyIsEnumerable"%string;
            "toString"%string; "valueOf"%string; "__proto__"%string;
            "toLocaleString"%string]).

Inductive Member (A : Type) : Type :=
| value (v : A)
| prototype_member
| undefined.

Arguments value {A} v.
Arguments prototype_member {A}.
Arguments undefined {A}.

Definition lookup_property {A} (obj : gmap string A) (key : string)
    : Member A :=
  match obj !! key with
  | Some v => value v
  | None => if Object_prototype key then prototype_member else undefined
  end.

(** ** Message and table types (types/meter.ts, types/websocket.ts) *)

Section MessageTypes.

(** JavaScript numbers (IEEE doubles) in readings are only stored and
    handed on, never computed with, so the readings are parametric in the
    type of numbers. *)
Variable number : Type.

Record MeterSummary := {
  ms_meter_name : string;
  ms_last_reading : option string;
  ms_voltage : option number;
  ms_current : option number;
  ms_active_power : option number;
  ms_power_factor : option number;
  ms_frequency : option number;
  ms_import_active_energy : option number;
}.

Record RealtimeData := {
  rt_voltage : number;
  rt_current : number;
  rt_active_power : number;
  rt_apparent_power : number;
  rt_reactive_power : number;
  rt_power_factor : number;
  rt_frequency : number;
  rt_local_time : string;
  rt_import_active_energy : option number;
  rt_export_active_energy : option number;
  rt_power_demand : option number;
}.

Record TimeseriesPoint := {
  timestamp : string;
  local_time : option string;
  voltage : number;
  current : number;
  active_power : number;
  power_factor : number;
  frequency : option number;
}.

(** An optional field is [None] when the decoded JSON object lacks it.
    A present array or object is truthy in JavaScript even when empty, so
    [if (data.summary)] is a test for [Some]. *)
Record WebSocketFullUpdate := {
  summary : option (list MeterSummary);
  realtime : option (gmap string RealtimeData);
  timeseries_point : option (gmap string TimeseriesPoint);
}.

(** [data] is declared mandatory, but the handler tests it before use;
    the option keeps that test meaningful. *)
Record WebSocketInitialTimeseries := {
  meter_name : string;
  data : option (list TimeseriesPoint);
}.

Record WebSocketPong := {
  pong_timestamp : number;
  server_time : string;
}.

Inductive WebSocketMessage :=
| full_update (d : WebSocketFullUpdate)
| initial_timeseries (d : WebSocketInitialTimeseries)
| pong (d : WebSocketPong).

(** [data.type === 'pong'] *)
Definition is_pong (m : WebSocketMessage) : bool :=
  match m with pong _ => true | _ => false end.

(** ** The tables of [Dashboard] that the handler writes

    [readings], [realtimeData], [timeseriesData] and [loading] are the
    state cells of the component. [thrown] is no cell: it records that a
    state updater has thrown. React then drops that update, and the render
    of [Dashboard] throws; the other fields are from then on what the
    updaters compute, no longer what is shown. *)

Record DashboardState := {
  readings : list MeterSummary;
  realtimeData : gmap string RealtimeData;
  timeseriesData : gmap string (list TimeseriesPoint);
  loading : bool;
  thrown : bool;
}.

Definition initialDashboard : DashboardState :=
  {| readings := []; realtimeData := ∅; timeseriesData := ∅;
     loading := true; thrown := false |}.

Definition setReadings (v : list MeterSummary) (st : DashboardState) :=
  {| readings := v; realtimeData := realtimeData st;
     timeseriesData := timeseriesData st; loading := loading st;
     thrown := thrown st |}.

Definition setRealtimeData (v : gmap string RealtimeData)
    (st : DashboardState) :=
  {| readings := readings st; realtimeData := v;
     timeseriesData := timeseriesData st; loading := loading st;
     thrown := thrown st |}.

Definition setTimeseriesData (v : gmap string (list TimeseriesPoint))
    (st : DashboardState) :=
  {| readings := readings st; realtimeData := realtimeData st;
     timeseriesData := v; loading := loading st; thrown := thrown st |}.

Definition setLoading (v : bool) (st : DashboardState) :=
  {| readings := readings st; realtimeData := realtimeData st;
     timeseriesData := timeseriesData st; loading := v;
     thrown := thrown st |}.

(** The updater given to a setter throws. *)
Definition updaterThrows (st : DashboardState) :=
  {| readings := readings st; realtimeData := realtimeData st;
     timeseriesData := timeseriesData st; loading := loading st;
     thrown := true |}.

Definition MAX_TIMESERIES_POINTS : nat := 450.

(** [arr.slice(-n)] for a positive [n]: the last [n] elements, or the
    whole array when it is shorter. *)
Definition slice_last {A} (n : nat) (arr : list A) : list A :=
  drop (length arr - n) arr.

(** A non-empty string is truthy, the empty string is falsy. *)
Definition truthy (s : string) : bool :=
  match s with EmptyString => false | String _ _ => true end.

(** [!lastPoint || lastPoint.timestamp !== point.timestamp], where
    [lastPoint = existing[existing.length - 1]] is [undefined] for an
    empty array. *)
Definition is_new_point (existing : list TimeseriesPoint)
    (point : TimeseriesPoint) : bool :=
  match last existing with
  | None => true
  | Some lastPoint =>
      bool_decide (timestamp lastPoint ≠ timestamp point)
  end.

(** The two statements of the [forEach] body that follow the reading of
    [existing], for an [existing] that is an array. *)
Definition store_point (meterName : string)
    (existing : list TimeseriesPoint) (point : TimeseriesPoint)
    (updated : gmap string (list TimeseriesPoint))
    : gmap string (list TimeseriesPoint) :=
  if is_new_point existing point then
    let newData := existing ++ [point] in
    <[meterName := slice_last MAX_TIMESERIES_POINTS newData]> updated
  else updated.

(** The body of the [forEach] over [Object.entries(data.timeseries_point)],
    acting on the copy [updated] of the previous table; [None] when it
    throws. [updated[meterName] || []] is the device's own array, or [[]]
    when the lookup is [undefined]. When the lookup yields a member of
    [Object.prototype], [existing] is that member: [existing.length - 1]
    indexes nothing in it, so [lastPoint] is [undefined], the test
    succeeds, and [[...existing, point]] throws a [TypeError], the member
    not being iterable. *)
Definition append_point (meterName : string) (point : TimeseriesPoint)
    (updated : gmap string (list TimeseriesPoint))
    : option (gmap string (list TimeseriesPoint)) :=
  match lookup_property updated meterName with
  | value existing => Some (store_point meterName existing point updated)
  | undefined => Some (store_point meterName [] point updated)
  | prototype_member => None
  end.

(** The keys of a decoded JSON object are distinct, so the object is a
    finite map and the [forEach] is a fold over its entries, which stops
    at the first entry that throws. *)
Definition append_points (tp : gmap string TimeseriesPoint)
    (prev : gmap string (list TimeseriesPoint))
    : option (gmap string (list TimeseriesPoint)) :=
  map_fold (fun meterName point updated =>
              updated ≫= append_point meterName point)
           (Some prev) tp.

(** [handleWebSocketMessage]: the state setters run in program order.
    [{ ...prev, ...data.realtime }] is the union in which the entries of
    [data.realtime] win. The handler only hands the updaters to the
    setters, so that [setLoading(false)] is reached also when the updater
    of the series throws. *)
Definition handleWebSocketMessage (msg : WebSocketMessage)
    (st : DashboardState) : DashboardState :=
  match msg with
  | full_update d =>
      let st1 :=
        match summary d with
        | Some s => setReadings s st
        | None => st
        end in
      let st2 :=
        match realtime d with
        | Some r => setRealtimeData (r ∪ realtimeData st1) st1
        | None => st1
        end in
      let st3 :=
        match timeseries_point d with
        | Some tp =>
            match append_points tp (timeseriesData st2) with
            | Some updated => setTimeseriesData updated st2
            | None => updaterThrows st2
            end
        | None => st2
        end in
      setLoading false st3
  | initial_timeseries d =>
      if truthy (meter_name d) then
        match data d with
        | Some arr =>
            setTimeseriesData (<[meter_name d := arr]> (timeseriesData st))
                              st
        | None => st
        end
      else st
  | pong _ => st
  end.

(** The handler is called once per delivered message, in arrival order. *)
Definition handleAll (msgs : list WebSocketMessage) (st : DashboardState)
    : DashboardState :=
  foldl (fun acc m => handleWebSocketMessage m acc) st msgs.

End MessageTypes.

Arguments ms_meter_name {number} _.
Arguments timestamp {number} _.
Arguments local_time {number} _.
Arguments summary {number} _.
Arguments realtime {number} _.
Arguments timeseries_point {number} _.
Arguments meter_name {number} _.
Arguments data {number} _.
Arguments full_update {number} d.
Arguments initial_timeseries {number} d.
Arguments pong {number} d.
Arguments is_pong {number} m.
Arguments readings {number} _.
Arguments realtimeData {number} _.
Arguments timeseriesData {number} _.
Arguments loading {number} _.
Arguments thrown {number} _.
Arguments initialDashboard {number}.
Arguments setReadings {number} v st.
Arguments setRealtimeData {number} v st.
Arguments setTimeseriesData {number} v st.
Arguments setLoading {number} v st.
Arguments updaterThrows {number} st.
Arguments store_point {number} meterName existing point updated.
Arguments is_new_point {number} existing point.
Arguments append_point {number} meterName point updated.
Arguments append_points {number} tp prev.
Arguments handleWebSocketMessage {number} msg st.
Arguments handleAll {number} msgs st.

(** ** The [useWebSocket] hook *)

(** Heartbeat configuration. *)
Definition HEARTBEAT_INTERVAL_MS : Z := 25000.
Definition HEARTBEAT_TIMEOUT_MS : Z := 10000.

(** Exponential backoff configuration. *)
Definition BASE_RECONNECT_DELAY_MS : Z := 1000.
Definition MAX_RECONNECT_DELAY_MS : Z := 30000.
Definition MAX_RECONNECT_ATTEMPTS : nat := 10.

(** [WebSocket.readyState] *)
Inductive ReadyState := CONNECTING | OPEN | CLOSING | CLOSED.

#[global] Instance ReadyState_eq_dec : EqDecision ReadyState.
Proof. solve_decision. Defined.

Inductive WebSocketOutgoingMessage :=
| request_update
| request_timeseries (name : string)
| ping (now : Z).

(** A WebSocket object: its ready state and the frames handed to its
    [send] method, oldest first. *)
Record WebSocket := {
  readyState : ReadyState;
  sent : list WebSocketOutgoingMessage;
}.

(** The three functions the hook hands to [setTimeout] and [setInterval]. *)
Inductive TimerCallback :=
| cb_connect
| cb_heartbeat_interval
| cb_heartbeat_timeout.

(** A timer of the event loop. It stops being [pending] when it is cleared
    or, for a timeout, when it has fired. *)
Record Timer := {
  callback : TimerCallback;
  delay : Z;
  repeating : bool;
  pending : bool;
}.

Definition cancelled (tm : Timer) : Timer :=
  {| callback := callback tm; delay := delay tm;
     repeating := repeating tm; pending := false |}.

Section UseWebSocket.

Variable number : Type.

(** The calls the hook makes to the callbacks of its options, oldest first.
    [onConnect], [onDisconnect], [onError] and [onMaxRetriesExceeded] are
    optional; an entry records that the hook reached the call. *)
Inductive Callback :=
| onMessage (data : WebSocketMessage number)
| onConnect
| onDisconnect
| onError
| onMaxRetriesExceeded.

(** The refs and React state of one hook instance, with the stores of the
    WebSocket objects and timers it has created. A socket or timer is named
    by its index in its store; a ref holds [Some] index or [None] for
    [null]. Identifiers returned by [setTimeout] are non-zero, so a ref that
    holds one is truthy. *)
Record HookState := {
  wsRef : option nat;
  reconnectTimeoutRef : option nat;
  heartbeatIntervalRef : option nat;
  heartbeatTimeoutRef : option nat;
  reconnectAttemptsRef : nat;
  isMountedRef : bool;
  isConnected : bool;
  reconnectAttempts : nat;
  has_window : bool;
  sockets : list WebSocket;
  timers : list Timer;
  calls : list Callback;
}.

Definition set_wsRef (v : option nat) (s : HookState) : HookState :=
  {| wsRef := v; reconnectTimeoutRef := reconnectTimeoutRef s;
     heartbeatIntervalRef := heartbeatIntervalRef s;
     heartbeatTimeoutRef := heartbeatTimeoutRef s;
     reconnectAttemptsRef := reconnectAttemptsRef s;
     isMountedRef := isMountedRef s; isConnected := isConnected s;
     reconnectAttempts := reconnectAttempts s; has_window := has_window s;
     sockets := sockets s; timers := timers s; calls := calls s |}.

Definition set_reconnectTimeoutRef (v : option nat) (s : HookState) : HookState :=
  {| wsRef := wsRef s; reconnectTimeoutRef := v;
     heartbeatIntervalRef := heartbeatIntervalRef s;
     heartbeatTimeoutRef := heartbeatTimeoutRef s;
     reconnectAttemptsRef := reconnectAttemptsRef s;
     isMountedRef := isMountedRef s; isConnected := isConnected s;
     reconnectAttempts := reconnectAttempts s; has_window := has_window s;
     sockets := sockets s; timers := timers s; calls := calls s |}.

Definition set_heartbeatIntervalRef (v : option nat) (s : HookState) : HookState :=
  {| wsRef := wsRef s; reconnectTimeoutRef := reconnectTimeoutRef s;
     heartbeatIntervalRef := v;
     heartbeatTimeoutRef := heartbeatTimeoutRef s;
     reconnectAttemptsRef := reconnectAttemptsRef s;
     isMountedRef := isMountedRef s; isConnected := isConnected s;
     reconnectAttempts := reconnectAttempts s; has_window := has_window s;
     sockets := sockets s; timers := timers s; calls := calls s |}.

Definition set_heartbeatTimeoutRef (v : option nat) (s : HookState) : HookState :=
  {| wsRef := wsRef s; reconnectTimeoutRef := reconnectTimeoutRef s;
     heartbeatIntervalRef := heartbeatIntervalRef s;
     heartbeatTimeoutRef := v;
     reconnectAttemptsRef := reconnectAttemptsRef s;
     isMountedRef := isMountedRef s; isConnected := isConnected s;
     reconnectAttempts := reconnectAttempts s; has_window := has_window s;
     sockets := sockets s; timers := timers s; calls := calls s |}.

Definition set_reconnectAttemptsRef (v : nat) (s : HookState) : HookState :=
  {| wsRef := wsRef s; reconnectTimeoutRef := reconnectTimeoutRef s;
     heartbeatIntervalRef := heartbeatIntervalRef s;
     heartbeatTimeoutRef := heartbeatTimeoutRef s;
     reconnectAttemptsRef := v; isMountedRef := isMountedRef s;
     isConnected := isConnected s; reconnectAttempts := reconnectAttempts s;
     has_window := has_window s; sockets := sockets s; timers := timers s;
     calls := calls s |}.

Definition set_isMountedRef (v : bool) (s : HookState) : HookState :=
  {| wsRef := wsRef s; reconnectTimeoutRef := reconnectTimeoutRef s;
     heartbeatIntervalRef := heartbeatIntervalRef s;
     heartbeatTimeoutRef := heartbeatTimeoutRef s;
     reconnectAttemptsRef := reconnectAttemptsRef s; isMountedRef := v;
     isConnected := isConnected s; reconnectAttempts := reconnectAttempts s;
     has_window := has_window s; sockets := sockets s; timers := timers s;
     calls := calls s |}.

Definition set_isConnected (v : bool) (s : HookState) : HookState :=
  {| wsRef := wsRef s; reconnectTimeoutRef := reconnectTimeoutRef s;
     heartbeatIntervalRef := heartbeatIntervalRef s;
     heartbeatTimeoutRef := heartbeatTimeoutRef s;
     reconnectAttemptsRef := reconnectAttemptsRef s;
     isMountedRef := isMountedRef s; isConnected := v;
     reconnectAttempts := reconnectAttempts s; has_window := has_window s;
     sockets := sockets s; timers := timers s; calls := calls s |}.

Definition set_reconnectAttempts (v : nat) (s : HookState) : HookState :=
  {| wsRef := wsRef s; reconnectTimeoutRef := reconnectTimeoutRef s;
     heartbeatIntervalRef := heartbeatIntervalRef s;
     heartbeatTimeoutRef := heartbeatTimeoutRef s;
     reconnectAttemptsRef := reconnectAttemptsRef s;
     isMountedRef := isMountedRef s; isConnected := isConnected s;
     reconnectAttempts := v; has_window := has_window s;
     sockets := sockets s; timers := timers s; calls := calls s |}.

Definition set_sockets (v : list WebSocket) (s : HookState) : HookState :=
  {| wsRef := wsRef s; reconnectTimeoutRef := reconnectTimeoutRef s;
     heartbeatIntervalRef := heartbeatIntervalRef s;
     heartbeatTimeoutRef := heartbeatTimeoutRef s;
     reconnectAttemptsRef := reconnectAttemptsRef s;
     isMountedRef := isMountedRef s; isConnected := isConnected s;
     reconnectAttempts := reconnectAttempts s; has_window := has_window s;
     sockets := v; timers := timers s; calls := calls s |}.

Definition set_timers (v : list Timer) (s : HookState) : HookState :=
  {| wsRef := wsRef s; reconnectTimeoutRef := reconnectTimeoutRef s;
     heartbeatIntervalRef := heartbeatIntervalRef s;
     heartbeatTimeoutRef := heartbeatTimeoutRef s;
     reconnectAttemptsRef := reconnectAttemptsRef s;
     isMountedRef := isMountedRef s; isConnected := isConnected s;
     reconnectAttempts := reconnectAttempts s; has_window := has_window s;
     sockets := sockets s; timers := v; calls := calls s |}.

Definition set_calls (v : list Callback) (s : HookState) : HookState :=
  {| wsRef := wsRef s; reconnectTimeoutRef := reconnectTimeoutRef s;
     heartbeatIntervalRef := heartbeatIntervalRef s;
     heartbeatTimeoutRef := heartbeatTimeoutRef s;
     reconnectAttemptsRef := reconnectAttemptsRef s;
     isMountedRef := isMountedRef s; isConnected := isConnected s;
     reconnectAttempts := reconnectAttempts s; has_window := has_window s;
     sockets := sockets s; timers := timers s; calls := v |}.

(** The state before the mount effect has run: [useRef(true)] for the
    mounted flag, [null] and [0] elsewhere. *)
Definition initialHook (window : bool) : HookState :=
  {| wsRef := None; reconnectTimeoutRef := None;
     heartbeatIntervalRef := None; heartbeatTimeoutRef := None;
     reconnectAttemptsRef := 0; isMountedRef := true; isConnected := false;
     reconnectAttempts := 0; has_window := window; sockets := [];
     timers := []; calls := [] |}.

Definition call (c : Callback) (s : HookState) : HookState :=
  set_calls (calls s ++ [c]) s.

(** *** The browser objects *)

Definition readyStateOf (w : nat) (s : HookState) : option ReadyState :=
  readyState <$> sockets s !! w.

(** [wsRef.current.readyState], when [wsRef.current] is not [null]. *)
Definition current_readyState (s : HookState) : option ReadyState :=
  match wsRef s with
  | Some w => readyStateOf w s
  | None => None
  end.

Definition with_readyState (r : ReadyState) (sock : WebSocket) : WebSocket :=
  {| readyState := r; sent := sent sock |}.

(** [new WebSocket(url)]: a fresh object in state CONNECTING. *)
Definition new_WebSocket (s : HookState) : nat * HookState :=
  (length (sockets s),
   set_sockets (sockets s ++ [{| readyState := CONNECTING; sent := [] |}]) s).

(** [ws.close()]: starts the closing handshake of a socket that is
    CONNECTING or OPEN, and does nothing otherwise. The close event comes
    later, as an event of its own. *)
Definition ws_close (w : nat) (s : HookState) : HookState :=
  set_sockets
    (alter (fun sock =>
              match readyState sock with
              | CONNECTING | OPEN => with_readyState CLOSING sock
              | CLOSING | CLOSED => sock
              end) w (sockets s)) s.

(** [ws.send(JSON.stringify(message))] on an OPEN socket; both callers test
    the ready state first. *)
Definition ws_send (w : nat) (m : WebSocketOutgoingMessage) (s : HookState)
    : HookState :=
  set_sockets
    (alter (fun sock =>
              {| readyState := readyState sock; sent := sent sock ++ [m] |})
           w (sockets s)) s.

(** [setTimeout(cb, ms)] and [setInterval(cb, ms)] *)
Definition setTimer (cb : TimerCallback) (ms : Z) (rep : bool)
    (s : HookState) : nat * HookState :=
  (length (timers s),
   set_timers (timers s ++ [{| callback := cb; delay := ms;
                               repeating := rep; pending := true |}]) s).

(** [clearTimeout(id)] and [clearInterval(id)] *)
Definition clearTimer (t : nat) (s : HookState) : HookState :=
  set_timers (alter cancelled t (timers s)) s.

(** *** The functions of the hook *)

Definition stopHeartbeat (s : HookState) : HookState :=
  let s1 :=
    match heartbeatIntervalRef s with
    | Some t => set_heartbeatIntervalRef None (clearTimer t s)
    | None => s
    end in
  match heartbeatTimeoutRef s1 with
  | Some t => set_heartbeatTimeoutRef None (clearTimer t s1)
  | None => s1
  end.

Definition startHeartbeat (s : HookState) : HookState :=
  let s1 := stopHeartbeat s in
  let '(t, s2) := setTimer cb_heartbeat_interval HEARTBEAT_INTERVAL_MS true s1 in
  set_heartbeatIntervalRef (Some t) s2.

(** The function given to [setInterval]; [now] is [Date.now()]. *)
Definition heartbeat_interval (now : Z) (s : HookState) : HookState :=
  match wsRef s with
  | Some w =>
      if bool_decide (readyStateOf w s = Some OPEN) then
        let s1 := ws_send w (ping now) s in
        let '(t, s2) :=
          setTimer cb_heartbeat_timeout HEARTBEAT_TIMEOUT_MS false s1 in
        set_heartbeatTimeoutRef (Some t) s2
      else s
  | None => s
  end.

(** The function given to [setTimeout] by the interval callback. *)
Definition heartbeat_timeout (s : HookState) : HookState :=
  match wsRef s with
  | Some w => ws_close w s
  | None => s
  end.

Definition getReconnectDelay (s : HookState) : Z :=
  Z.min (BASE_RECONNECT_DELAY_MS * 2 ^ Z.of_nat (reconnectAttemptsRef s))
        MAX_RECONNECT_DELAY_MS.

(** [connect], up to the installation of the four handlers, which are the
    same functions for every socket and are given below. *)
Definition connect (s : HookState) : HookState :=
  if negb (has_window s) then s
  else if negb (isMountedRef s) then s
  else if bool_decide (current_readyState s = Some CONNECTING)
          || bool_decide (current_readyState s = Some OPEN) then s
  else
    let '(w, s1) := new_WebSocket s in
    set_wsRef (Some w) s1.

Definition onopen (s : HookState) : HookState :=
  if negb (isMountedRef s) then s
  else
    let s1 := set_isConnected true s in
    let s2 := set_reconnectAttemptsRef 0 s1 in
    let s3 := set_reconnectAttempts 0 s2 in
    let s4 := startHeartbeat s3 in
    call onConnect s4.

(** [frame] is the outcome of [JSON.parse(event.data)]: [None] when it
    throws, which the handler catches and logs. *)
Definition onmessage (frame : option (WebSocketMessage number))
    (s : HookState) : HookState :=
  if negb (isMountedRef s) then s
  else
    match frame with
    | Some data =>
        if is_pong data then
          match heartbeatTimeoutRef s with
          | Some t => set_heartbeatTimeoutRef None (clearTimer t s)
          | None => s
          end
        else call (onMessage data) s
    | None => s
    end.

Definition onerror (s : HookState) : HookState :=
  if negb (isMountedRef s) then s
  else call onError (set_isConnected false s).

Definition onclose (s : HookState) : HookState :=
  if negb (isMountedRef s) then s
  else
    let s1 := set_isConnected false s in
    let s2 := stopHeartbeat s1 in
    let s3 := call onDisconnect s2 in
    if bool_decide (MAX_RECONNECT_ATTEMPTS ≤ reconnectAttemptsRef s3) then
      call onMaxRetriesExceeded s3
    else
      let delay := getReconnectDelay s3 in
      let s4 := set_reconnectAttemptsRef (reconnectAttemptsRef s3 + 1) s3 in
      let s5 := set_reconnectAttempts (reconnectAttemptsRef s4) s4 in
      let '(t, s6) := setTimer cb_connect delay false s5 in
      set_reconnectTimeoutRef (Some t) s6.

Definition disconnect (s : HookState) : HookState :=
  let s1 := stopHeartbeat s in
  let s2 :=
    match reconnectTimeoutRef s1 with
    | Some t => set_reconnectTimeoutRef None (clearTimer t s1)
    | None => s1
    end in
  match wsRef s2 with
  | Some w =>
      let s3 :=
        if bool_decide (readyStateOf w s2 = Some OPEN)
           || bool_decide (readyStateOf w s2 = Some CONNECTING)
        then ws_close w s2
        else s2 in
      set_wsRef None s3
  | None => s2
  end.

Definition send (message : WebSocketOutgoingMessage) (s : HookState)
    : HookState :=
  match wsRef s with
  | Some w =>
      if bool_decide (readyStateOf w s = Some OPEN) then ws_send w message s
      else s
  | None => s
  end.

Definition resetConnection (s : HookState) : HookState :=
  if negb (isMountedRef s) then s
  else
    let s1 := set_reconnectAttemptsRef 0 s in
    let s2 := set_reconnectAttempts 0 s1 in
    let s3 := disconnect s2 in
    connect s3.

(** The mount effect and its cleanup. *)
Definition mount (s : HookState) : HookState :=
  connect (set_isMountedRef true s).

Definition unmount (s : HookState) : HookState :=
  disconnect (set_isMountedRef false s).

(** *** The event loop

    Everything that can happen to a mounted hook: the browser fires an
    event on one of the sockets, a timer fires, or the consumer calls one
    of the functions the hook returns. A failed connection changes the
    ready state to CLOSED and then fires [error] followed by [close] in one
    task; a clean close fires [close] alone. *)
Inductive Event :=
| ev_open (w : nat)
| ev_message (w : nat) (frame : option (WebSocketMessage number))
| ev_close (w : nat) (failed : bool)
| ev_timer (t : nat) (now : Z)
| ev_send (message : WebSocketOutgoingMessage)
| ev_disconnect
| ev_resetConnection
| ev_unmount.

Definition set_socket_state (w : nat) (r : ReadyState) (s : HookState)
    : HookState :=
  set_sockets (alter (with_readyState r) w (sockets s)) s.

Definition expire (t : nat) (tm : Timer) (s : HookState) : HookState :=
  if repeating tm then s else clearTimer t s.

Definition run_callback (cb : TimerCallback) (now : Z) (s : HookState)
    : HookState :=
  match cb with
  | cb_connect => connect s
  | cb_heartbeat_interval => heartbeat_interval now s
  | cb_heartbeat_timeout => heartbeat_timeout s
  end.

(** One turn of the event loop; [None] when the event cannot happen in
    state [s] (an [open] on a socket that is not CONNECTING, a message on a
    socket that is not OPEN, a [close] on a socket that is already CLOSED,
    a timer that is not pending). *)
Definition handle_event (e : Event) (s : HookState) : option HookState :=
  match e with
  | ev_open w =>
      if bool_decide (readyStateOf w s = Some CONNECTING)
      then Some (onopen (set_socket_state w OPEN s))
      else None
  | ev_message w frame =>
      if bool_decide (readyStateOf w s = Some OPEN)
      then Some (onmessage frame s)
      else None
  | ev_close w failed =>
      match readyStateOf w s with
      | Some CLOSED | None => None
      | Some _ =>
          let s1 := set_socket_state w CLOSED s in
          let s2 := if failed then onerror s1 else s1 in
          Some (onclose s2)
      end
  | ev_timer t now =>
      match timers s !! t with
      | Some tm =>
          if pending tm
          then Some (run_callback (callback tm) now (expire t tm s))
          else None
      | None => None
      end
  | ev_send message => Some (send message s)
  | ev_disconnect => Some (disconnect s)
  | ev_resetConnection => Some (resetConnection s)
  | ev_unmount => Some (unmount s)
  end.

Fixpoint run (evs : list Event) (s : HookState) : option HookState :=
  match evs with
  | [] => Some s
  | e :: evs' =>
      match handle_event e s with
      | Some s' => run evs' s'
      | None => None
      end
  end.

(** The states a hook can be in: those the event loop reaches after the
    mount effect has run in a browser. *)
Definition reachable (s : HookState) : Prop :=
  exists evs, run evs (mount (initialHook true)) = Some s.

End UseWebSocket.

Arguments onMessage {number} data.
Arguments onConnect {number}.
Arguments onDisconnect {number}.
Arguments onError {number}.
Arguments onMaxRetriesExceeded {number}.
Arguments wsRef {number} _.
Arguments reconnectTimeoutRef {number} _.
Arguments heartbeatIntervalRef {number} _.
Arguments heartbeatTimeoutRef {number} _.
Arguments reconnectAttemptsRef {number} _.
Arguments isMountedRef {number} _.
Arguments isConnected {number} _.
Arguments reconnectAttempts {number} _.
Arguments has_window {number} _.
Arguments sockets {number} _.
Arguments timers {number} _.
Arguments calls {number} _.
Arguments set_wsRef {number} v s.
Arguments set_reconnectTimeoutRef {number} v s.
Arguments set_heartbeatIntervalRef {number} v s.
Arguments set_heartbeatTimeoutRef {number} v s.
Arguments set_reconnectAttemptsRef {number} v s.
Arguments set_isMountedRef {number} v s.
Arguments set_isConnected {number} v s.
Arguments set_reconnectAttempts {number} v s.
Arguments set_sockets {number} v s.
Arguments set_timers {number} v s.
Arguments set_calls {number} v s.
Arguments initialHook {number} window.
Arguments call {number} c s.
Arguments readyStateOf {number} w s.
Arguments current_readyState {number} s.
Arguments new_WebSocket {number} s.
Arguments ws_close {number} w s.
Arguments ws_send {number} w m s.
Arguments setTimer {number} cb ms rep s.
Arguments clearTimer {number} t s.
Arguments stopHeartbeat {number} s.
Arguments startHeartbeat {number} s.
Arguments heartbeat_interval {number} now s.
Arguments heartbeat_timeout {number} s.
Arguments getReconnectDelay {number} s.
Arguments connect {number} s.
Arguments onopen {number} s.
Arguments onmessage {number} frame s.
Arguments onerror {number} s.
Arguments onclose {number} s.
Arguments disconnect {number} s.
Arguments send {number} message s.
Arguments resetConnection {number} s.
Arguments mount {number} s.
Arguments unmount {number} s.
Arguments ev_open {number} w.
Arguments ev_message {number} w frame.
Arguments ev_close {number} w failed.
Arguments ev_timer {number} t now.
Arguments ev_send {number} message.
Arguments ev_disconnect {number}.
Arguments ev_resetConnection {number}.
Arguments ev_unmount {number}.
Arguments set_socket_state {number} w r s.
Arguments expire {number} t tm s.
Arguments run_callback {number} cb now s.
Arguments handle_event {number} e s.
Arguments run {number} evs s.
Arguments reachable {number} s.

(** * Vocabulary of the properties *)

Section ReducerVocabulary.

Context {number : Type}.

Implicit Types (st : DashboardState number) (p q : TimeseriesPoint number).
Implicit Types (series existing : list (TimeseriesPoint number)).
Implicit Types (dev : string).
Implicit Types (pts : list (TimeseriesPoint number)).
Implicit Types (o prev : option (list (TimeseriesPoint number))).
Implicit Types (msg : WebSocketMessage number).
Implicit Types (msgs : list (WebSocketMessage number)).

(** A table can take a point for the device [dev]: the device has a
    series of its own in it, or a name that [Object.prototype] does not
    define. *)
Definition storable (table : gmap string (list (TimeseriesPoint number)))
    dev : bool :=
  match lookup_property table dev with
  | prototype_member => false
  | _ => true
  end.

(** The table can take every point the message carries, so that the
    updater of the series does not throw. *)
Definition accepts (table : gmap string (list (TimeseriesPoint number)))
    (msg : WebSocketMessage number) : Prop :=
  match msg with
  | full_update d =>
      match timeseries_point d with
      | Some tp => map_Forall (fun dev _ => storable table dev = true) tp
      | None => True
      end
  | _ => True
  end.

(** What one delivered point does to the series of a device that can take
    it: [prev] is the device's own series, if it has one. *)
Definition append_one (point : TimeseriesPoint number)
    (prev : option (list (TimeseriesPoint number)))
    : option (list (TimeseriesPoint number)) :=
  let existing := default [] prev in
  if is_new_point existing point then
    Some (slice_last MAX_TIMESERIES_POINTS (existing ++ [point]))
  else prev.

(** The series of one device after one message that the table accepts. *)
Definition series_after (msg : WebSocketMessage number)
    (prev : option (list (TimeseriesPoint number))) (dev : string)
    : option (list (TimeseriesPoint number)) :=
  match msg with
  | full_update d =>
      match timeseries_point d with
      | Some tp =>
          match tp !! dev with
          | Some p => append_one p prev
          | None => prev
          end
      | None => prev
      end
  | initial_timeseries d =>
      if truthy (meter_name d) then
        match data d with
        | Some arr => if decide (meter_name d = dev) then Some arr else prev
        | None => prev
        end
      else prev
  | pong _ => prev
  end.

(** A message that delivers the point [p] for the device [dev]. *)
Definition carries dev p (msg : WebSocketMessage number) : Prop :=
  ∃ d tp, msg = full_update d ∧ timeseries_point d = Some tp ∧
          tp !! dev = Some p.

(** The stored series of a device, empty when the table has no entry. *)
Definition series_of st dev : list (TimeseriesPoint number) :=
  default [] (timeseriesData st !! dev).

(** Timestamps are ISO-8601 strings of one format, which the lexicographic
    order of strings orders by time. *)
Fixpoint increasing series : bool :=
  match series with
  | p :: rest =>
      match rest with
      | q :: _ => String.ltb (timestamp p) (timestamp q) && increasing rest
      | [] => true
      end
  | [] => true
  end.

Fixpoint adjacent_distinct series : Prop :=
  match series with
  | p :: rest =>
      match rest with
      | q :: _ => timestamp p ≠ timestamp q ∧ adjacent_distinct rest
      | [] => True
      end
  | [] => True
  end.

(** The series of one device under a stream of points delivered to it. *)
Definition feed (pts : list (TimeseriesPoint number))
    (o : option (list (TimeseriesPoint number))) :=
  foldl (fun acc p => append_one p acc) o pts.

(** The dedup property read literally: whatever the device's series was,
    two deliveries of [p] leave a series of length 1. *)
Definition series_dedup_as_stated : Prop :=
  ∀ st dev p m1 m2,
    carries dev p m1 → carries dev p m2 →
    (∀ q, q ∈ series_of st dev → timestamp q ≠ timestamp p) →
    length (series_of (handleAll [m1; m2] st) dev) = 1.

Definition series_invariant series : Prop :=
  increasing series = true ∧ length series ≤ MAX_TIMESERIES_POINTS.

Definition tables_invariant st : Prop :=
  ∀ dev series,
    timeseriesData st !! dev = Some series → series_invariant series.

(** The invariant read literally: it holds after any messages at all, and
    every message preserves it. *)
Definition series_invariant_as_stated : Prop :=
  (∀ msgs, tables_invariant (handleAll msgs initialDashboard)) ∧
  (∀ st msg,
     tables_invariant st → tables_invariant (handleWebSocketMessage msg st)).

(** What the handler relies on the server for: a delivered point is not
    older than the last stored point of its device, and an initial array
    that gets installed is itself increasing and within the bound. *)
Definition in_order st (msg : WebSocketMessage number) : Prop :=
  match msg with
  | full_update d =>
      match timeseries_point d with
      | Some tp =>
          map_Forall
            (fun dev p =>
               match last (series_of st dev) with
               | Some q => String.leb (timestamp q) (timestamp p) = true
               | None => True
               end) tp
      | None => True
      end
  | initial_timeseries d =>
      if truthy (meter_name d) then
        match data d with
        | Some arr => series_invariant arr
        | None => True
        end
      else True
  | pong _ => True
  end.

Fixpoint all_in_order st (msgs : list (WebSocketMessage number)) : Prop :=
  match msgs with
  | [] => True
  | msg :: rest =>
      in_order st msg ∧ all_in_order (handleWebSocketMessage msg st) rest
  end.

End ReducerVocabulary.

Section HookVocabulary.

Context {number : Type}.

Implicit Types (s : HookState number) (e : Event number).
Implicit Types (frame : option (WebSocketMessage number)).
Implicit Types (frames : list (option (WebSocketMessage number))).
Implicit Types (evs : list (Event number)) (cs : list (Callback number)).

(** The message handler run on a sequence of frames, oldest first. *)
Definition deliver (frames : list (option (WebSocketMessage number))) s
    : HookState number :=
  foldl (fun acc frame => onmessage frame acc) s frames.

(** The calls to [onMessage] that a mounted hook makes for the frames. *)
Fixpoint forwarded (frames : list (option (WebSocketMessage number)))
    : list (Callback number) :=
  match frames with
  | [] => []
  | Some data :: rest =>
      if is_pong data then forwarded rest
      else onMessage data :: forwarded rest
  | None :: rest => forwarded rest
  end.

Definition pong_frame frame : Prop :=
  ∃ data, frame = Some data ∧ is_pong data = true.

(** A socket is live while it is CONNECTING or OPEN. *)
Definition live (r : option ReadyState) : Prop :=
  r = Some CONNECTING ∨ r = Some OPEN.

(** Every live socket is the one [wsRef] points to: a socket that the hook
    has dropped is closing or closed. *)
Definition orphans_closed s : Prop :=
  ∀ w, live (readyStateOf w s) → wsRef s = Some w.

Definition well_formed s : Prop :=
  has_window s = true ∧ orphans_closed s.

(** [s'] differs from [s] in neither the sockets' ready states nor in
    which socket is current. *)
Definition same_sockets s s' : Prop :=
  has_window s' = has_window s ∧
  isMountedRef s' = isMountedRef s ∧
  wsRef s' = wsRef s ∧
  ∀ w, readyStateOf w s' = readyStateOf w s.

(** What [ws.close()] does to a ready state. *)
Definition closing_of (r : ReadyState) : ReadyState :=
  match r with
  | CONNECTING | OPEN => CLOSING
  | CLOSING | CLOSED => r
  end.

(** [disconnect], then the attempt counter to 0, then [connect]: the
    functions of the hook, called in the order of the spec's [reset()]. *)
Definition restart s : HookState number :=
  connect (set_reconnectAttempts 0 (set_reconnectAttemptsRef 0 (disconnect s))).

(** [ws.close()] on a socket object. *)
Definition close_if_live (sock : WebSocket) : WebSocket :=
  with_readyState (closing_of (readyState sock)) sock.

(** [stop()] in the words of the spec: all timers are cancelled and any
    live transport is closed. The refs that pointed to them are cleared. *)
Definition stop_as_stated s : HookState number :=
  set_wsRef None
    (set_reconnectTimeoutRef None
       (set_heartbeatIntervalRef None
          (set_heartbeatTimeoutRef None
             (set_timers (cancelled <$> timers s)
                (set_sockets (close_if_live <$> sockets s) s))))).

(** [start()] in the words of the spec: nothing while the transport is
    Connecting or Open, and a new transport, Connecting, otherwise. *)
Definition start_as_stated s : HookState number :=
  if bool_decide (current_readyState s = Some CONNECTING)
     || bool_decide (current_readyState s = Some OPEN) then s
  else
    let '(w, s1) := new_WebSocket s in
    set_wsRef (Some w) s1.

(** [stop()], then the attempt counter to 0, then [start()]. *)
Definition restart_as_stated s : HookState number :=
  start_as_stated
    (set_reconnectAttempts 0 (set_reconnectAttemptsRef 0 (stop_as_stated s))).

(** The timers [l'] are the timers [l], some of them cancelled. *)
Definition at_most_cancelled (l l' : list Timer) : Prop :=
  length l' = length l ∧
  ∀ j tm, l !! j = Some tm →
          l' !! j = Some tm ∨ l' !! j = Some (cancelled tm).

(** No timer has been left behind: every pending timer is the one that its
    timer ref holds. *)
Definition timers_held s : Prop :=
  ∀ t tm, timers s !! t = Some tm → pending tm = true →
          reconnectTimeoutRef s = Some t ∨ heartbeatIntervalRef s = Some t
          ∨ heartbeatTimeoutRef s = Some t.

(** One connection attempt is in flight, on the socket [w], and no other
    socket is live. *)
Definition one_attempt_in_flight (w : nat) s : Prop :=
  wsRef s = Some w ∧
  readyStateOf w s = Some CONNECTING ∧
  ∀ w', live (readyStateOf w' s) → w' = w.

(** The reset property read literally: from every state of the hook. *)
Definition reset_as_stated : Prop :=
  ∀ s, reachable s →
       resetConnection s = restart_as_stated s ∧
       reconnectAttemptsRef (resetConnection s) = 0 ∧
       ∃ w, one_attempt_in_flight w (resetConnection s).

Definition cleared (t : nat) (l : list Timer) : Prop :=
  ∀ tm, l !! t = Some tm → pending tm = false.

Definition not_pending (t : nat) s : Prop := cleared t (timers s).

Definition is_max_retries (c : Callback number) : bool :=
  match c with onMaxRetriesExceeded => true | _ => false end.

Fixpoint count_calls (f : Callback number → bool)
    (cs : list (Callback number)) : nat :=
  match cs with
  | [] => 0
  | c :: rest => (if f c then 1 else 0) + count_calls f rest
  end.

Definition is_close e : bool :=
  match e with ev_close _ _ => true | _ => false end.

Definition is_reset e : bool :=
  match e with ev_resetConnection => true | _ => false end.

Definition is_open e : bool :=
  match e with ev_open _ => true | _ => false end.

(** The events of the browser, as opposed to the calls of the consumer. *)
Definition automatic e : bool :=
  match e with
  | ev_open _ | ev_message _ _ | ev_close _ _ | ev_timer _ _ => true
  | ev_send _ | ev_disconnect | ev_resetConnection | ev_unmount => false
  end.

(** The events of a run in which every connection attempt fails: sockets
    close, cleanly or not, and timers fire, but no socket ever opens and the
    consumer stays out of the way. *)
Definition failing e : bool :=
  match e with
  | ev_close _ _ | ev_timer _ _ => true
  | _ => false
  end.

Definition closes (evs : list (Event number)) : nat :=
  length (filter (fun e => is_close e = true) evs).

(** All sockets but [w] are CLOSED; all timers but [t] are not pending. *)
Definition closed_but (w : option nat) (l : list WebSocket) : Prop :=
  ∀ w' sock, l !! w' = Some sock → Some w' ≠ w → readyState sock = CLOSED.

Definition cleared_but (t : option nat) (l : list Timer) : Prop :=
  ∀ t' tm, l !! t' = Some tm → Some t' ≠ t → pending tm = false.

(** Nothing is left that could make the hook connect by itself. *)
Definition dormant s : Prop :=
  closed_but None (sockets s) ∧ cleared_but None (timers s).

(** The delay before the reconnect that follows the [a]-th one. *)
Definition delay_of_attempt (a : nat) : Z :=
  Z.min (BASE_RECONNECT_DELAY_MS * 2 ^ Z.of_nat a) MAX_RECONNECT_DELAY_MS.

(** What holds of a failing run, whatever the phase. *)
Definition quiet s : Prop :=
  isMountedRef s = true ∧ has_window s = true ∧ isConnected s = false ∧
  heartbeatIntervalRef s = None ∧ heartbeatTimeoutRef s = None.

(** The three phases of a failing run after [n] close events: an attempt
    is in flight, a reconnect is scheduled, or the budget is spent. *)
Inductive phase (n : nat) s : Prop :=
| phase_connecting w :
    quiet s → n ≤ 10 →
    reconnectAttemptsRef s = n →
    wsRef s = Some w →
    readyStateOf w s = Some CONNECTING →
    closed_but (Some w) (sockets s) →
    cleared_but None (timers s) →
    count_calls is_max_retries (calls s) = 0 →
    phase n s
| phase_waiting t tm :
    quiet s → 1 ≤ n ≤ 10 →
    reconnectAttemptsRef s = n →
    current_readyState s = Some CLOSED →
    closed_but None (sockets s) →
    reconnectTimeoutRef s = Some t →
    timers s !! t = Some tm →
    tm = {| callback := cb_connect; delay := delay_of_attempt (n - 1);
            repeating := false; pending := true |} →
    cleared_but (Some t) (timers s) →
    count_calls is_max_retries (calls s) = 0 →
    phase n s
| phase_exhausted :
    quiet s → n = 11 →
    reconnectAttemptsRef s = 10 →
    current_readyState s = Some CLOSED →
    dormant s →
    count_calls is_max_retries (calls s) = 1 →
    phase n s.

Definition close_count e : nat := if is_close e then 1 else 0.

(** The state in which [onclose] runs when socket [w] closes. *)
Definition after_close (w : nat) (failed : bool) s : HookState number :=
  let s1 := set_socket_state w CLOSED s in
  if failed then onerror s1 else s1.

(** The fields of a state that the phases of a failing run speak of. *)
Definition fields s :=
  (isMountedRef s, has_window s, isConnected s, heartbeatIntervalRef s,
   heartbeatTimeoutRef s, reconnectAttemptsRef s, wsRef s,
   reconnectTimeoutRef s, sockets s, timers s).

(** Before the budget is spent the hook is still trying: a socket is
    CONNECTING, or the next reconnect is pending with its backoff delay. *)
Definition still_trying (n : nat) s : Prop :=
  (∃ w, wsRef s = Some w ∧ readyStateOf w s = Some CONNECTING) ∨
  (∃ t, reconnectTimeoutRef s = Some t ∧
        timers s !! t
        = Some {| callback := cb_connect; delay := delay_of_attempt (n - 1);
                  repeating := false; pending := true |}).

End HookVocabulary.

(** * Vocabulary of the further properties *)

Section FurtherReducerVocabulary.

Context {number : Type}.

Implicit Types (st : DashboardState number) (p q : TimeseriesPoint number).
Implicit Types (series existing : list (TimeseriesPoint number)).
Implicit Types (dev : string).
Implicit Types (msg : WebSocketMessage number).
Implicit Types (msgs : list (WebSocketMessage number)).


Definition is_initial_timeseries msg : bool :=
  match msg with initial_timeseries _ => true | _ => false end.

(** What the append path guarantees by itself: the bound, and no two
    neighbours with the same timestamp. *)
Definition bounded_series series : Prop :=
  length series ≤ MAX_TIMESERIES_POINTS ∧ adjacent_distinct series.

Definition tables_bounded st : Prop :=
  ∀ dev series,
    timeseriesData st !! dev = Some series → bounded_series series.




(** ** The selected meter of [SinglePhaseDashboard] *)

(** [selectedMeter] is [null] or a string, and is tested for truthiness. *)
Definition selected (selectedMeter : option string) : bool :=
  match selectedMeter with
  | Some meterName => truthy meterName
  | None => false
  end.

(** The effect that sets the default meter: the value of [selectedMeter]
    after it has run on [readings]. *)
Definition defaultMeterEffect (readings : list (MeterSummary number))
    (selectedMeter : option string) : option string :=
  match readings with
  | first :: _ =>
      if negb (selected selectedMeter) then Some (ms_meter_name first)
      else selectedMeter
  | [] => selectedMeter
  end.

(** The effect that requests the series of the selected meter, through
    [onRequestTimeseries]. *)
Definition requested (selectedMeter : option string)
    : list WebSocketOutgoingMessage :=
  match selectedMeter with
  | Some meterName =>
      if truthy meterName then [request_timeseries meterName] else []
  | None => []
  end.

(** [currentRealtimeData]: [null], here [None], when no meter is selected,
    and what [realtimeData[selectedMeter]] yields otherwise. *)
Definition currentRealtimeData
    (realtimeData : gmap string (RealtimeData number))
    (selectedMeter : option string)
    : option (Member (RealtimeData number)) :=
  match selectedMeter with
  | Some meterName =>
      if truthy meterName then Some (lookup_property realtimeData meterName)
      else None
  | None => None
  end.

(** [currentTimeseriesData]: [timeseriesData[selectedMeter] || []] for a
    selected meter, where an array is truthy even when empty and a member
    of [Object.prototype] is truthy too; [[]] when no meter is selected. *)
Definition currentTimeseriesData
    (timeseriesData : gmap string (list (TimeseriesPoint number)))
    (selectedMeter : option string)
    : Member (list (TimeseriesPoint number)) :=
  match selectedMeter with
  | Some meterName =>
      if truthy meterName then
        match lookup_property timeseriesData meterName with
        | value arr => value arr
        | prototype_member => prototype_member
        | undefined => value []
        end
      else value []
  | None => value []
  end.

(** The selection after the component has been rendered with each of
    [renders] in turn. *)
Definition select_over (renders : list (list (MeterSummary number)))
    (selectedMeter : option string) : option string :=
  foldl (fun acc readings => defaultMeterEffect readings acc)
        selectedMeter renders.

End FurtherReducerVocabulary.

Section FurtherHookVocabulary.

Context {number : Type}.

Implicit Types (s : HookState number) (e : Event number).

(** [requestTimeseries] and [handleRefresh] of [Dashboard]: the two
    outbound messages the dashboard sends through the hook. *)
Definition requestTimeseries (meterName : string) s : HookState number :=
  send (request_timeseries meterName) s.

Definition handleRefresh s : HookState number :=
  send request_update s.

(** Several calls of [send] in a row. *)
Definition send_all (messages : list WebSocketOutgoingMessage) s
    : HookState number :=
  foldl (fun acc message => send message acc) s messages.

(** The frames handed to each socket so far. *)
Definition sent_frames s : list (list WebSocketOutgoingMessage) :=
  sent <$> sockets s.

Definition at_most_one_live s : Prop :=
  ∀ w w', live (readyStateOf w s) → live (readyStateOf w' s) → w = w'.

(** The hook after the cleanup of its effect. *)
Definition detached s : Prop :=
  isMountedRef s = false ∧ wsRef s = None.

(** Between [s] and [s'] the hook has called nothing, created no socket,
    sent no frame and set no timer. *)
Definition silent s s' : Prop :=
  calls s' = calls s ∧
  length (sockets s') = length (sockets s) ∧
  sent_frames s' = sent_frames s ∧
  length (timers s') = length (timers s).

(** The attempt counter is within the budget and the React state that
    exposes it agrees with the ref. *)
Definition counters_ok s : Prop :=
  reconnectAttemptsRef s ≤ MAX_RECONNECT_ATTEMPTS ∧
  reconnectAttempts s = reconnectAttemptsRef s.

(** Everything but the timers and the two heartbeat refs. *)
Definition rest_view s :=
  (wsRef s, reconnectTimeoutRef s, reconnectAttemptsRef s, isMountedRef s,
   isConnected s, reconnectAttempts s, has_window s, sockets s, calls s).

Definition same_counters s s' : Prop :=
  reconnectAttemptsRef s' = reconnectAttemptsRef s ∧
  reconnectAttempts s' = reconnectAttempts s.

(** Every pending heartbeat interval is the one the ref names. *)
Definition one_interval s : Prop :=
  ∀ t tm, timers s !! t = Some tm → pending tm = true →
          callback tm = cb_heartbeat_interval →
          heartbeatIntervalRef s = Some t.

(** No heartbeat interval is pending. *)
Definition no_interval (l : list Timer) : Prop :=
  ∀ t tm, l !! t = Some tm → pending tm = true →
          callback tm ≠ cb_heartbeat_interval.

(** The part of the state that describes the connection. *)
Definition connection_view s :=
  (wsRef s, sockets s, reconnectAttemptsRef s, reconnectAttempts s,
   reconnectTimeoutRef s, heartbeatIntervalRef s, isConnected s,
   isMountedRef s).

End FurtherHookVocabulary.

(** * Concrete tables, messages and runs *)

Definition digit (n : nat) : ascii := ascii_of_nat (48 + n).

Definition two_digits (n : nat) : string :=
  String (digit (n / 10)) (String (digit (n mod 10)) EmptyString).

(** The timestamp of the [n]-th reading of a meter polled every 2 seconds. *)
Definition reading_time (n : nat) : string :=
  ("2024-05-01T10:" ++ two_digits (2 * n / 60) ++ ":"
     ++ two_digits (2 * n mod 60) ++ "Z")%string.

Definition reading (n : nat) : TimeseriesPoint Z :=
  {| timestamp := reading_time n; local_time := None;
     voltage := (230 + Z.of_nat (n mod 5))%Z; current := 4%Z;
     active_power := 920%Z; power_factor := 1%Z; frequency := Some 50%Z |}.

Definition snapshot (v : Z) : RealtimeData Z :=
  {| rt_voltage := v; rt_current := 4%Z; rt_active_power := (4 * v)%Z;
     rt_apparent_power := (4 * v)%Z; rt_reactive_power := 0%Z;
     rt_power_factor := 1%Z; rt_frequency := 50%Z;
     rt_local_time := "10:00:00"; rt_import_active_energy := None;
     rt_export_active_energy := None; rt_power_demand := None |}.

(** A full_update that carries one timeseries point and nothing else. *)
Definition point_update (dev : string) (p : TimeseriesPoint Z)
    : WebSocketMessage Z :=
  full_update {| summary := None; realtime := None;
                 timeseries_point := Some {[dev := p]} |}.

Definition realtime_update (r : gmap string (RealtimeData Z))
    : WebSocketFullUpdate Z :=
  {| summary := None; realtime := Some r; timeseries_point := None |}.

Definition history (dev : string) (arr : list (TimeseriesPoint Z))
    : WebSocketInitialTimeseries Z :=
  {| meter_name := dev; data := Some arr |}.

Definition with_series (dev : string) (arr : list (TimeseriesPoint Z))
    : DashboardState Z :=
  setTimeseriesData {[dev := arr]} initialDashboard.

(** A point that arrives after a newer one is appended behind it. *)
Definition out_of_order : list (WebSocketMessage Z) :=
  [point_update "A" (reading 2); point_update "A" (reading 1)].

Definition in_order_run : list (WebSocketMessage Z) :=
  [initial_timeseries (history "A" [reading 0; reading 1]);
   point_update "A" (reading 2);
   point_update "A" (reading 2);
   point_update "B" (reading 2)].

Definition state_after (evs : list (Event Z)) : HookState Z :=
  default (initialHook true) (run evs (mount (initialHook true))).

(** The first attempt fails and the hook waits for its first reconnect. *)
Definition mid_backoff : HookState Z := state_after [ev_close 0 true].

(** The first attempt succeeds. *)
Definition connected : HookState Z := state_after [ev_open 0].

(** The first attempt fails and the component unmounts. *)
Definition torn_down : HookState Z :=
  state_after [ev_close 0 true; ev_unmount].

(** Eleven attempts in a row fail: the first connection and the ten
    reconnects, each started by its timer. *)
Definition failing_run : list (Event Z) :=
  flat_map (fun k => [ev_close k true; ev_timer k 0%Z]) (seq 0 10)
  ++ [ev_close 10 false].

(** The first attempt fails and its reconnect timer has fired. *)
Definition reconnecting : HookState Z :=
  state_after [ev_close 0 true; ev_timer 0 0%Z].

(** A reset on an open connection, whose new socket has opened before the
    close event of the old one. *)
Definition reset_while_open : HookState Z :=
  state_after [ev_open 0; ev_resetConnection; ev_open 1].

(** The component unmounts while connected; the close event of its socket
    and a late call of [resetConnection] follow. *)
Definition after_teardown : HookState Z :=
  state_after [ev_open 0; ev_unmount; ev_close 0 false; ev_resetConnection].

Definition meter_row (name : string) : MeterSummary Z :=
  {| ms_meter_name := name; ms_last_reading := None; ms_voltage := Some 230%Z;
     ms_current := None; ms_active_power := None; ms_power_factor := None;
     ms_frequency := None; ms_import_active_energy := None |}.

(** The consumer resets the connection while the first attempt is in
    flight, and then every attempt fails: the socket that the reset
    dropped closes, the socket that the reset opened closes, and from
    then on each reconnect timer fires and the socket it opens closes. *)
Definition reset_then_failing : list (Event Z) :=
  [ev_resetConnection; ev_close 0 false; ev_close 1 true]
  ++ flat_map (fun k => [ev_timer k 0%Z; ev_close (k + 2) true]) (seq 0 10).

(** The first three events of that run: two reconnect timers are pending,
    and [reconnectTimeoutRef] holds the second. *)
Definition two_reconnects : HookState Z :=
  state_after [ev_resetConnection; ev_close 0 false; ev_close 1 true].

Definition a_pong : WebSocketMessage Z :=
  pong {| pong_timestamp := 1714557600000%Z; server_time := "10:00:00" |}.

Definition an_update : WebSocketFullUpdate Z :=
  realtime_update {["A" := snapshot 231]}.

(** * Properties of the message handler *)

Section ReducerProperties.

Context {number : Type}.

Implicit Types (st : DashboardState number) (p q : TimeseriesPoint number).
Implicit Types (series existing : list (TimeseriesPoint number)).
Implicit Types (dev : string).
Implicit Types (pts : list (TimeseriesPoint number)).
Implicit Types (o prev : option (list (TimeseriesPoint number))).
Implicit Types (msg : WebSocketMessage number).
Implicit Types (msgs : list (WebSocketMessage number)).

(** ** [slice(-n)] *)

Lemma slice_last_length {A} (n : nat) (l : list A) :
  length (slice_last n l) = length l `min` n.
Proof. unfold slice_last. rewrite length_drop. lia. Qed.

Lemma slice_last_short {A} (n : nat) (l : list A) :
  length l ≤ n → slice_last n l = l.
Proof.
  intros Hle. unfold slice_last.
  replace (length l - n) with 0 by lia. reflexivity.
Qed.

Lemma slice_last_app_long {A} (n : nat) (l k : list A) :
  n ≤ length k → slice_last n (l ++ k) = slice_last n k.
Proof.
  intros Hle. unfold slice_last. rewrite length_app.
  replace (length l + length k - n) with (length l + (length k - n)) by lia.
  rewrite drop_app_ge by lia. f_equal. lia.
Qed.

Lemma slice_last_app_slice {A} (n : nat) (l k : list A) :
  slice_last n (slice_last n l ++ k) = slice_last n (l ++ k).
Proof.
  destruct (decide (n ≤ length k)) as [Hle|Hgt].
  - by rewrite !slice_last_app_long.
  - destruct (decide (length l ≤ n)) as [Hs|Hl].
    + by rewrite (slice_last_short n l).
    + unfold slice_last at 1 3. rewrite !length_app.
      rewrite slice_last_length. unfold slice_last.
      rewrite !drop_app_le by (rewrite ?length_drop; lia).
      rewrite drop_drop. do 2 f_equal. lia.
Qed.

Lemma last_slice_last_snoc {A} (n : nat) (l : list A) (x : A) :
  0 < n → last (slice_last n (l ++ [x])) = Some x.
Proof.
  intros Hn. unfold slice_last. rewrite length_app. simpl.
  rewrite drop_app_le by lia. apply last_snoc.
Qed.

(** ** Reading an entry *)

Lemma storable_own (table : gmap string (list (TimeseriesPoint number))) dev :
  is_Some (table !! dev) → storable table dev = true.
Proof. intros [x Hx]. unfold storable, lookup_property. by rewrite Hx. Qed.

Lemma storable_plain (table : gmap string (list (TimeseriesPoint number)))
    dev :
  Object_prototype dev = false → storable table dev = true.
Proof.
  intros Hp. unfold storable, lookup_property. rewrite Hp.
  by destruct (table !! dev).
Qed.

Lemma storable_false (table : gmap string (list (TimeseriesPoint number)))
    dev :
  storable table dev = false →
  table !! dev = None ∧ Object_prototype dev = true.
Proof.
  unfold storable, lookup_property.
  destruct (table !! dev); [done|]. by destruct (Object_prototype dev).
Qed.

Lemma storable_lookup
    (table table' : gmap string (list (TimeseriesPoint number))) dev :
  table' !! dev = table !! dev → storable table' dev = storable table dev.
Proof. unfold storable, lookup_property. by intros ->. Qed.

Lemma storable_mono
    (table table' : gmap string (list (TimeseriesPoint number))) dev :
  (is_Some (table !! dev) → is_Some (table' !! dev)) →
  storable table dev = true → storable table' dev = true.
Proof.
  intros Hsub Hst. destruct (table' !! dev) as [x|] eqn:Hx.
  - apply storable_own. by rewrite Hx.
  - destruct (table !! dev) as [y|] eqn:Hy.
    + destruct Hsub as [z Hz]; [by eexists|]. congruence.
    + rewrite <- Hst. apply storable_lookup. congruence.
Qed.

(** ** One delivered batch of points, seen from one device *)

Lemma store_point_lookup_same meterName existing p
    (updated : gmap string (list (TimeseriesPoint number))) :
  default [] (updated !! meterName) = existing →
  store_point meterName existing p updated !! meterName
  = append_one p (updated !! meterName).
Proof.
  intros <-. unfold store_point, append_one.
  destruct (is_new_point _ p); [by rewrite lookup_insert_eq | done].
Qed.

Lemma store_point_lookup_other meterName dev existing p
    (updated : gmap string (list (TimeseriesPoint number))) :
  meterName ≠ dev →
  store_point meterName existing p updated !! dev = updated !! dev.
Proof.
  intros Hne. unfold store_point.
  destruct (is_new_point _ p); [by rewrite lookup_insert_ne | done].
Qed.

Lemma append_point_storable meterName p
    (updated : gmap string (list (TimeseriesPoint number))) :
  storable updated meterName = true →
  ∃ u, append_point meterName p updated = Some u ∧
       u !! meterName = append_one p (updated !! meterName) ∧
       ∀ dev, meterName ≠ dev → u !! dev = updated !! dev.
Proof.
  unfold storable, append_point, lookup_property.
  destruct (updated !! meterName) as [existing|] eqn:Hlk.
  - intros _. eexists. split; [done|]. split.
    + rewrite <- Hlk. apply store_point_lookup_same. by rewrite Hlk.
    + intros dev Hne. by apply store_point_lookup_other.
  - destruct (Object_prototype meterName); [done|].
    intros _. eexists. split; [done|]. split.
    + rewrite <- Hlk. apply store_point_lookup_same. by rewrite Hlk.
    + intros dev Hne. by apply store_point_lookup_other.
Qed.

Lemma append_point_throws meterName p
    (updated : gmap string (list (TimeseriesPoint number))) :
  storable updated meterName = false →
  append_point meterName p updated = None.
Proof.
  unfold storable, append_point.
  by destruct (lookup_property updated meterName).
Qed.

Lemma append_points_spec (tp : gmap string (TimeseriesPoint number))
    (prev : gmap string (list (TimeseriesPoint number))) :
  (map_Forall (fun dev _ => storable prev dev = true) tp →
   ∃ u, append_points tp prev = Some u ∧
        ∀ dev, u !! dev = match tp !! dev with
                          | Some p => append_one p (prev !! dev)
                          | None => prev !! dev
                          end) ∧
  (¬ map_Forall (fun dev _ => storable prev dev = true) tp →
   append_points tp prev = None).
Proof.
  unfold append_points.
  apply (map_fold_weak_ind
           (fun r m =>
              (map_Forall (fun dev _ => storable prev dev = true) m →
               ∃ u, r = Some u ∧
                    ∀ dev, u !! dev = match m !! dev with
                                      | Some p => append_one p (prev !! dev)
                                      | None => prev !! dev
                                      end) ∧
              (¬ map_Forall (fun dev _ => storable prev dev = true) m →
               r = None))).
  - split; [|intros Hno; destruct Hno; apply map_Forall_empty].
    intros _. exists prev. split; [done|]. intros dev.
    by rewrite lookup_empty.
  - intros i x m r Hi [IHyes IHno]. split.
    + intros [Hsi Hm]%map_Forall_insert; [|done].
      destruct (IHyes Hm) as (u & -> & Hu).
      assert (Hui : u !! i = prev !! i) by (by rewrite Hu, Hi).
      destruct (append_point_storable i x u) as (u' & Hu' & Hsame & Hother).
      { rewrite <- Hsi. by apply storable_lookup. }
      exists u'. split; [done|]. intros dev.
      destruct (decide (i = dev)) as [<-|Hne].
      * by rewrite lookup_insert_eq, Hsame, Hui.
      * rewrite lookup_insert_ne, Hother by done. apply Hu.
    + intros Hno.
      destruct (decide (map_Forall (fun dev _ => storable prev dev = true) m))
        as [Hm|Hm]; [|by rewrite (IHno Hm)].
      destruct (IHyes Hm) as (u & -> & Hu). simpl.
      apply append_point_throws.
      assert (Hui : u !! i = prev !! i) by (by rewrite Hu, Hi).
      rewrite (storable_lookup prev u i Hui).
      destruct (storable prev i) eqn:Hsi; [|done].
      destruct Hno. by apply map_Forall_insert.
Qed.

Lemma append_points_lookup (tp : gmap string (TimeseriesPoint number))
    (prev u : gmap string (list (TimeseriesPoint number))) dev :
  append_points tp prev = Some u →
  u !! dev = match tp !! dev with
             | Some p => append_one p (prev !! dev)
             | None => prev !! dev
             end.
Proof.
  intros Hu. destruct (append_points_spec tp prev) as [Hyes Hno].
  destruct (decide (map_Forall (fun dev _ => storable prev dev = true) tp))
    as [Hall|Hall].
  - destruct (Hyes Hall) as (u' & Hu' & Hlk). rewrite Hu' in Hu.
    injection Hu as <-. apply Hlk.
  - rewrite (Hno Hall) in Hu. done.
Qed.

(** ** The tables after one message *)

Lemma full_update_tables (d : WebSocketFullUpdate number) st :
  let st' := handleWebSocketMessage (full_update d) st in
  readings st' = default (readings st) (summary d) ∧
  realtimeData st'
  = match realtime d with
    | Some r => r ∪ realtimeData st
    | None => realtimeData st
    end ∧
  timeseriesData st'
  = match timeseries_point d with
    | Some tp =>
        default (timeseriesData st) (append_points tp (timeseriesData st))
    | None => timeseriesData st
    end ∧
  loading st' = false ∧
  thrown st'
  = match timeseries_point d with
    | Some tp =>
        match append_points tp (timeseriesData st) with
        | Some _ => thrown st
        | None => true
        end
    | None => thrown st
    end.
Proof.
  simpl. destruct (summary d), (realtime d), (timeseries_point d) as [tp|];
    simpl; try done;
    by destruct (append_points tp (timeseriesData st)).
Qed.

Lemma handle_series msg st dev :
  accepts (timeseriesData st) msg →
  timeseriesData (handleWebSocketMessage msg st) !! dev
  = series_after msg (timeseriesData st !! dev) dev.
Proof.
  intros Hacc. destruct msg as [d|d|d].
  - destruct (full_update_tables d st) as (_ & _ & -> & _). simpl in *.
    destruct (timeseries_point d) as [tp|]; [|done].
    destruct (proj1 (append_points_spec tp (timeseriesData st)) Hacc)
      as (u & -> & Hu).
    apply Hu.
  - simpl. destruct (truthy (meter_name d)); [|done].
    destruct (data d) as [arr|]; [|done]. simpl.
    destruct (decide (meter_name d = dev)) as [->|Hne].
    + by rewrite lookup_insert_eq.
    + by rewrite lookup_insert_ne.
  - done.
Qed.

(** A message that the table does not accept stores nothing. *)
Lemma handle_rejected msg st :
  ¬ accepts (timeseriesData st) msg →
  timeseriesData (handleWebSocketMessage msg st) = timeseriesData st ∧
  thrown (handleWebSocketMessage msg st) = true.
Proof.
  intros Hrej. destruct msg as [d|d|d]; [|by destruct Hrej..].
  destruct (full_update_tables d st) as (_ & _ & -> & _ & ->). simpl in Hrej.
  destruct (timeseries_point d) as [tp|]; [|by destruct Hrej].
  by rewrite (proj2 (append_points_spec tp (timeseriesData st)) Hrej).
Qed.

Lemma handle_accepted_thrown msg st :
  accepts (timeseriesData st) msg →
  thrown (handleWebSocketMessage msg st) = thrown st.
Proof.
  intros Hacc. destruct msg as [d|d|d]; [| |done].
  - destruct (full_update_tables d st) as (_ & _ & _ & _ & ->). simpl in Hacc.
    destruct (timeseries_point d) as [tp|]; [|done].
    by destruct (proj1 (append_points_spec tp (timeseriesData st)) Hacc)
      as (u & -> & _).
  - simpl. destruct (truthy (meter_name d)); [|done]. by destruct (data d).
Qed.

Lemma accepts_dec msg st :
  accepts (timeseriesData st) msg ∨ ¬ accepts (timeseriesData st) msg.
Proof.
  destruct msg as [d|d|d]; simpl; [|by left..].
  destruct (timeseries_point d) as [tp|]; [|by left].
  destruct (decide (map_Forall
                      (fun dev _ => storable (timeseriesData st) dev = true)
                      tp)); [by left | by right].
Qed.

(** Every series is, after a message, what the message makes of it, or
    what it was. *)
Lemma handle_series_cases msg st :
  (∀ dev, timeseriesData (handleWebSocketMessage msg st) !! dev
          = series_after msg (timeseriesData st !! dev) dev) ∨
  timeseriesData (handleWebSocketMessage msg st) = timeseriesData st.
Proof.
  destruct (accepts_dec msg st) as [Hacc|Hrej].
  - left. intros dev. by apply handle_series.
  - right. by apply handle_rejected.
Qed.

(** ** Snapshot merge *)


(** ** Initial series *)

(** C8. An initial_timeseries message that names a device and carries a
    data array replaces that device's series by exactly the array (a series
    of 50 points replaced by an array of 10 has 10 points) and leaves the
    series of every other device unchanged. *)
Theorem initial_timeseries_replace st
    (d : WebSocketInitialTimeseries number) arr :
  truthy (meter_name d) = true →
  data d = Some arr →
  let st' := handleWebSocketMessage (initial_timeseries d) st in
  timeseriesData st' !! meter_name d = Some arr ∧
  (∀ old, timeseriesData st !! meter_name d = Some old →
          length old = 50 → length arr = 10 →
          length <$> timeseriesData st' !! meter_name d = Some 10) ∧
  (∀ dev, dev ≠ meter_name d →
          timeseriesData st' !! dev = timeseriesData st !! dev) ∧
  readings st' = readings st ∧
  realtimeData st' = realtimeData st.
Proof.
  intros Hname Hdata st'. subst st'. simpl. rewrite Hname, Hdata. simpl.
  split; [by rewrite lookup_insert_eq|].
  split; [intros old _ _ Hlen; by rewrite lookup_insert_eq; simpl; rewrite Hlen|].
  split; [|done].
  intros dev Hne. by rewrite lookup_insert_ne.
Qed.

(** ** Appending points *)

Lemma ltb_neq (a b : string) : String.ltb a b = true → a ≠ b.
Proof.
  unfold String.ltb. intros Hlt ->.
  pose proof (String.compare_antisym b b) as Hanti.
  destruct (String.compare b b); done.
Qed.

Lemma leb_neq_ltb (a b : string) :
  String.leb a b = true → a ≠ b → String.ltb a b = true.
Proof.
  unfold String.leb, String.ltb. intros Hle Hne.
  destruct (String.compare a b) eqn:Hc; try done.
  by apply String.compare_eq_iff in Hc.
Qed.

Lemma increasing_adjacent_distinct series :
  increasing series = true → adjacent_distinct series.
Proof.
  induction series as [|p [|q rest] IH]; simpl; try done.
  intros [Hlt Hrest]%andb_prop. split; [by apply ltb_neq | by apply IH].
Qed.

Lemma handleAll_cons msg msgs st :
  handleAll (msg :: msgs) st = handleAll msgs (handleWebSocketMessage msg st).
Proof. reflexivity. Qed.

Lemma carries_series dev p msg prev :
  carries dev p msg → series_after msg prev dev = append_one p prev.
Proof. intros (d & tp & -> & Htp & Hp). simpl. by rewrite Htp, Hp. Qed.

(** No message removes a series, so that a table keeps accepting what it
    accepts. *)
Lemma append_one_is_Some p o : is_Some o → is_Some (append_one p o).
Proof. unfold append_one. destruct (is_new_point _ p); eauto. Qed.

Lemma series_after_is_Some msg prev dev :
  is_Some prev → is_Some (series_after msg prev dev).
Proof.
  intros Hp. destruct msg as [d|d|d]; simpl; [| |done].
  - destruct (timeseries_point d) as [tp|]; [|done].
    destruct (tp !! dev); [by apply append_one_is_Some|done].
  - destruct (truthy (meter_name d)); [|done].
    destruct (data d); [|done]. case_decide; eauto.
Qed.

Lemma series_is_Some msg st dev :
  is_Some (timeseriesData st !! dev) →
  is_Some (timeseriesData (handleWebSocketMessage msg st) !! dev).
Proof.
  intros Hs. destruct (handle_series_cases msg st) as [Hafter|Hsame].
  - rewrite Hafter. by apply series_after_is_Some.
  - by rewrite Hsame.
Qed.

Lemma accepts_mono
    (table table' : gmap string (list (TimeseriesPoint number))) msg :
  (∀ dev, is_Some (table !! dev) → is_Some (table' !! dev)) →
  accepts table msg → accepts table' msg.
Proof.
  intros Hsub. destruct msg as [d|d|d]; simpl; [|done..].
  destruct (timeseries_point d) as [tp|]; [|done].
  intros Hacc dev p Hp. apply (storable_mono table); [apply Hsub|].
  by apply (Hacc dev p).
Qed.

Lemma accepts_after msg' msg st :
  accepts (timeseriesData st) msg →
  accepts (timeseriesData (handleWebSocketMessage msg' st)) msg.
Proof. apply accepts_mono. intros dev. apply series_is_Some. Qed.

Lemma handleAll_feed dev pts msgs st :
  Forall (accepts (timeseriesData st)) msgs →
  Forall2 (carries dev) pts msgs →
  timeseriesData (handleAll msgs st) !! dev
  = feed pts (timeseriesData st !! dev).
Proof.
  intros Hacc Hall. revert st Hacc.
  induction Hall as [|p msg pts msgs Hc _ IH]; intros st Hacc; [done|].
  apply Forall_cons in Hacc as [Hmsg Hmsgs].
  rewrite handleAll_cons, IH, handle_series by
    (done || (eapply Forall_impl; [exact Hmsgs|]; intros m;
              apply accepts_after)).
  simpl. by rewrite (carries_series _ _ _ _ Hc).
Qed.

Lemma append_one_new p o :
  is_new_point (default [] o) p = true →
  append_one p o
  = Some (slice_last MAX_TIMESERIES_POINTS (default [] o ++ [p])).
Proof. unfold append_one. by intros ->. Qed.

Lemma append_one_dup p o :
  is_new_point (default [] o) p = false → append_one p o = o.
Proof. unfold append_one. by intros ->. Qed.

Lemma is_new_point_last existing q p :
  last existing = Some q →
  is_new_point existing p = bool_decide (timestamp q ≠ timestamp p).
Proof. unfold is_new_point. by intros ->. Qed.

Lemma feed_new p pts o :
  is_new_point (default [] o) p = true →
  adjacent_distinct (p :: pts) →
  feed (p :: pts) o
  = Some (slice_last MAX_TIMESERIES_POINTS (default [] o ++ p :: pts)).
Proof.
  revert p o. induction pts as [|q pts IH]; intros p o Hnew Hadj.
  - simpl. by apply append_one_new.
  - destruct Hadj as [Hpq Hadj].
    change (feed (p :: q :: pts) o) with (feed (q :: pts) (append_one p o)).
    rewrite append_one_new by done. rewrite IH; simpl.
    + rewrite slice_last_app_slice. by rewrite <- app_assoc.
    + rewrite (is_new_point_last _ p)
        by (apply last_slice_last_snoc; unfold MAX_TIMESERIES_POINTS; lia).
      by apply bool_decide_eq_true.
    + done.
Qed.

Lemma feed_dup_then_new p q pts o :
  is_new_point (default [] o) p = false →
  adjacent_distinct (p :: q :: pts) →
  feed (p :: q :: pts) o
  = Some (slice_last MAX_TIMESERIES_POINTS (default [] o ++ q :: pts)).
Proof.
  intros Hdup [Hpq Hadj].
  change (feed (p :: q :: pts) o) with (feed (q :: pts) (append_one p o)).
  rewrite append_one_dup by done. apply feed_new; [|done].
  unfold is_new_point in *. destruct (last (default [] o)) as [l|]; [|done].
  apply bool_decide_eq_false in Hdup. apply bool_decide_eq_true.
  apply dec_stable in Hdup. congruence.
Qed.

(** More fresh points than the bound: what was stored before is gone. *)
Lemma feed_long pts o :
  adjacent_distinct pts →
  MAX_TIMESERIES_POINTS < length pts →
  feed pts o = Some (slice_last MAX_TIMESERIES_POINTS pts).
Proof.
  intros Hadj Hlen. destruct pts as [|p pts]; [simpl in Hlen; lia|].
  destruct (is_new_point (default [] o) p) eqn:Hnew.
  - rewrite feed_new by done. apply f_equal, slice_last_app_long. lia.
  - destruct pts as [|q pts];
      [simpl in Hlen; unfold MAX_TIMESERIES_POINTS in Hlen; lia|].
    rewrite feed_dup_then_new by done.
    rewrite slice_last_app_long by (simpl in *; lia).
    symmetry. f_equal. apply (slice_last_app_long _ [p]). simpl in *. lia.
Qed.

(** X21. 500 points with strictly increasing timestamps, delivered to one
    device by 500 full_update messages that the table accepts, leave that
    device with exactly 450 points: the last 450 of the 500, in the order
    of delivery, whatever the table held before and whatever else the
    messages carry. *)
Theorem series_cap st dev pts msgs :
  length pts = 500 →
  increasing pts = true →
  Forall (accepts (timeseriesData st)) msgs →
  Forall2 (carries dev) pts msgs →
  timeseriesData (handleAll msgs st) !! dev = Some (drop 50 pts) ∧
  length (series_of (handleAll msgs st) dev) = 450 ∧
  drop 50 pts = slice_last MAX_TIMESERIES_POINTS pts.
Proof.
  intros Hlen Hinc Hacc Hall.
  assert (Hdrop : drop 50 pts = slice_last MAX_TIMESERIES_POINTS pts).
  { unfold slice_last, MAX_TIMESERIES_POINTS. by rewrite Hlen. }
  assert (Hres : timeseriesData (handleAll msgs st) !! dev
                 = Some (drop 50 pts)).
  { rewrite (handleAll_feed _ _ _ _ Hacc Hall), Hdrop. apply feed_long.
    - by apply increasing_adjacent_distinct.
    - unfold MAX_TIMESERIES_POINTS. lia. }
  split; [done|]. split; [|done].
  unfold series_of. rewrite Hres. simpl. rewrite length_drop. lia.
Qed.

(** ** Duplicate points *)

(** C6 (amended). Two consecutive full_update messages that the table
    accepts and that deliver points with the same timestamp T to a device
    whose last stored point, if any, has another timestamp add one point,
    not two: the first point is appended (and the series cut to its last
    450), the second message leaves the series as the first left it. From
    an empty series the result is the one point. *)
Theorem series_dedup st dev p p' m1 m2 :
  carries dev p m1 →
  carries dev p' m2 →
  accepts (timeseriesData st) m1 →
  accepts (timeseriesData st) m2 →
  timestamp p' = timestamp p →
  (∀ q, last (series_of st dev) = Some q → timestamp q ≠ timestamp p) →
  let prior := series_of st dev in
  let st1 := handleAll [m1] st in
  let st2 := handleAll [m1; m2] st in
  timeseriesData st1 !! dev
  = Some (slice_last MAX_TIMESERIES_POINTS (prior ++ [p])) ∧
  timeseriesData st2 !! dev = timeseriesData st1 !! dev ∧
  length (series_of st2 dev)
  = (length prior + 1) `min` MAX_TIMESERIES_POINTS ∧
  (prior = [] → series_of st2 dev = [p]).
Proof.
  intros Hm1 Hm2 Hacc1 Hacc2 Hts Hlast prior st1 st2.
  assert (Hnew : is_new_point (default [] (timeseriesData st !! dev)) p
                 = true).
  { unfold is_new_point. fold (series_of st dev).
    destruct (last (series_of st dev)) as [q|] eqn:Hq; [|done].
    apply bool_decide_eq_true. by apply Hlast. }
  assert (H1 : timeseriesData st1 !! dev
               = Some (slice_last MAX_TIMESERIES_POINTS (prior ++ [p]))).
  { subst st1. simpl. rewrite handle_series by done.
    rewrite (carries_series _ _ _ _ Hm1). by apply append_one_new. }
  assert (H2 : timeseriesData st2 !! dev = timeseriesData st1 !! dev).
  { subst st2 st1. simpl. rewrite (handle_series m2) by by apply accepts_after.
    rewrite (carries_series _ _ _ _ Hm2). apply append_one_dup.
    simpl in H1. rewrite H1. simpl.
    rewrite (is_new_point_last _ p)
      by (apply last_slice_last_snoc; unfold MAX_TIMESERIES_POINTS; lia).
    apply bool_decide_eq_false. intros Hne. by apply Hne. }
  split; [done|]. split; [done|].
  unfold series_of. rewrite H2, H1. simpl. split.
  - rewrite slice_last_length, length_app. simpl. lia.
  - intros Hprior. by rewrite Hprior.
Qed.

(** ** Devices named like a member of [Object.prototype] *)

Lemma carries_rejected dev p msg
    (table : gmap string (list (TimeseriesPoint number))) :
  carries dev p msg → storable table dev = false → ¬ accepts table msg.
Proof.
  intros (d & tp & -> & Htp & Hp) Hst Hacc. simpl in Hacc.
  rewrite Htp in Hacc. specialize (Hacc dev p Hp). congruence.
Qed.

Lemma thrown_stays msg st :
  thrown st = true → thrown (handleWebSocketMessage msg st) = true.
Proof.
  intros Ht. destruct (accepts_dec msg st) as [Hacc|Hrej].
  - by rewrite handle_accepted_thrown.
  - by apply handle_rejected.
Qed.

(** Points for a device that the table cannot take are never stored, and
    the first of them makes the updater throw. *)
Lemma rejected_stream dev pts msgs st :
  storable (timeseriesData st) dev = false →
  Forall2 (carries dev) pts msgs →
  timeseriesData (handleAll msgs st) = timeseriesData st ∧
  (thrown st = true ∨ msgs ≠ [] → thrown (handleAll msgs st) = true).
Proof.
  intros Hst Hall. revert st Hst.
  induction Hall as [|p msg pts msgs Hc _ IH]; intros st Hst.
  - split; [done|]. by intros [?|?].
  - destruct (handle_rejected msg st) as [Hsame Hthrown];
      [by apply (carries_rejected dev p)|].
    rewrite handleAll_cons.
    destruct (IH (handleWebSocketMessage msg st)) as [IHsame IHthrown];
      [by rewrite Hsame|].
    split; [by rewrite IHsame|]. intros _. apply IHthrown. by left.
Qed.

(** ** The series invariant *)

Lemma increasing_cons_inv p series :
  increasing (p :: series) = true → increasing series = true.
Proof. destruct series; simpl; [done|]. by intros [_ ?]%andb_prop. Qed.

Lemma increasing_drop k series :
  increasing series = true → increasing (drop k series) = true.
Proof.
  revert series. induction k as [|k IH]; intros [|p series] Hinc; try done.
  simpl. apply IH. by apply increasing_cons_inv in Hinc.
Qed.

Lemma increasing_snoc series p :
  increasing series = true →
  (∀ q, last series = Some q →
        String.ltb (timestamp q) (timestamp p) = true) →
  increasing (series ++ [p]) = true.
Proof.
  induction series as [|a [|b rest] IH]; intros Hinc Hlast; [done| |].
  - simpl. rewrite (Hlast a) by done. done.
  - simpl in Hinc. apply andb_prop in Hinc as [Hab Hrest].
    change (increasing ((a :: b :: rest) ++ [p]))
      with (String.ltb (timestamp a) (timestamp b)
            && increasing ((b :: rest) ++ [p])).
    rewrite Hab. simpl. apply IH; [done|].
    intros q Hq. apply Hlast. by rewrite last_cons_cons.
Qed.

Lemma initial_tables_invariant :
  tables_invariant (initialDashboard (number:=number)).
Proof. intros dev series Hlk. simpl in Hlk. by rewrite lookup_empty in Hlk. Qed.

Lemma append_one_invariant p prev series :
  (∀ old, prev = Some old → series_invariant old) →
  (∀ q, last (default [] prev) = Some q →
        String.leb (timestamp q) (timestamp p) = true) →
  append_one p prev = Some series →
  series_invariant series.
Proof.
  intros Hprev Hord. unfold append_one.
  destruct (is_new_point (default [] prev) p) eqn:Hnew; [|by apply Hprev].
  intros [= <-]. split.
  - apply increasing_drop, increasing_snoc.
    + destruct prev as [old|]; [by apply Hprev|done].
    + intros q Hq. apply leb_neq_ltb; [by apply Hord|].
      rewrite (is_new_point_last _ _ _ Hq) in Hnew.
      by apply bool_decide_eq_true in Hnew.
  - rewrite slice_last_length. lia.
Qed.

Lemma in_order_preserves st msg :
  tables_invariant st → in_order st msg →
  tables_invariant (handleWebSocketMessage msg st).
Proof.
  intros Hinv Hord dev series.
  destruct (handle_series_cases msg st) as [-> | ->]; [|by apply Hinv].
  destruct msg as [d|d|d]; simpl in *; [| |by apply Hinv].
  - destruct (timeseries_point d) as [tp|]; [|by apply Hinv].
    destruct (tp !! dev) as [p|] eqn:Hp; [|by apply Hinv].
    apply append_one_invariant.
    + intros old Hold. by apply (Hinv dev).
    + intros q Hq. specialize (Hord dev p Hp). simpl in Hord.
      unfold series_of in Hord. by rewrite Hq in Hord.
  - destruct (truthy (meter_name d)); [|by apply Hinv].
    destruct (data d) as [arr|]; [|by apply Hinv].
    destruct (decide (meter_name d = dev)); [|by apply Hinv].
    by intros [= <-].
Qed.

(** C1 (amended). Starting from tables that satisfy the invariant (the
    empty tables do), and applying messages that arrive in order, every
    series keeps strictly increasing timestamps and at most 450 points. *)
Theorem series_invariant_in_order msgs st :
  tables_invariant st →
  all_in_order st msgs →
  tables_invariant (handleAll msgs st).
Proof.
  revert st. induction msgs as [|msg rest IH]; intros st Hinv Hord; [done|].
  destruct Hord as [Hmsg Hrest]. rewrite handleAll_cons.
  apply IH; [by apply in_order_preserves | done].
Qed.

End ReducerProperties.

(** * Instances of the message handler's properties *)

Lemma carries_point_update dev p : carries dev p (point_update dev p).
Proof.
  exists {| summary := None; realtime := None;
            timeseries_point := Some {[dev := p]} |}, {[dev := p]}.
  split; [done|]. split; [done|]. apply lookup_singleton_eq.
Qed.

Lemma carries_point_updates dev pts :
  Forall2 (carries dev) pts (point_update dev <$> pts).
Proof.
  induction pts as [|p pts IH]; constructor; [|done].
  apply carries_point_update.
Qed.

Lemma accepts_point_update table dev p :
  Object_prototype dev = false → accepts table (point_update dev p).
Proof.
  intros Hplain. apply map_Forall_singleton. by apply storable_plain.
Qed.

Lemma accepts_point_updates table dev pts :
  Object_prototype dev = false →
  Forall (accepts table) (point_update dev <$> pts).
Proof.
  intros Hplain. apply Forall_fmap, Forall_forall. intros p _.
  by apply accepts_point_update.
Qed.


(** 50 stored points replaced by an array of 10. *)
Lemma initial_timeseries_replace_witness :
  length <$>
    timeseriesData
      (handleWebSocketMessage
         (initial_timeseries (history "A" (reading <$> seq 100 10)))
         (with_series "A" (reading <$> seq 0 50))) !! "A"
  = Some 10.
Proof.
  pose proof (initial_timeseries_replace
                (with_series "A" (reading <$> seq 0 50))
                (history "A" (reading <$> seq 100 10))
                (reading <$> seq 100 10) eq_refl eq_refl)
    as (_ & Hlen & _).
  apply (Hlen (reading <$> seq 0 50)); [apply lookup_singleton_eq | | ];
    reflexivity.
Defined.

(** 500 readings, 2 seconds apart, delivered one per message. *)
Lemma series_cap_witness :
  timeseriesData
    (handleAll (point_update "A" <$> (reading <$> seq 0 500))
               initialDashboard) !! "A"
  = Some (reading <$> seq 50 450).
Proof.
  pose proof (series_cap initialDashboard "A" (reading <$> seq 0 500)
                (point_update "A" <$> (reading <$> seq 0 500))) as Hcap.
  destruct Hcap as (Hres & _ & _).
  - reflexivity.
  - vm_compute. reflexivity.
  - by apply accepts_point_updates.
  - apply carries_point_updates.
  - rewrite Hres. f_equal.
Defined.

(** C7. The series cap fails for a device named like a member of
    [Object.prototype]: from the empty tables, the first of 500 messages
    that each carry one point for the device [constructor], with strictly
    increasing timestamps, makes the updater throw, and after the 500
    messages no point is stored for the device. *)
Theorem series_cap_prototype_name :
  let pts := reading <$> seq 0 500 in
  let msgs := point_update "constructor" <$> pts in
  length pts = 500 ∧
  increasing pts = true ∧
  Forall2 (carries "constructor") pts msgs ∧
  thrown (handleWebSocketMessage (point_update "constructor" (reading 0))
            initialDashboard) = true ∧
  series_of (handleAll msgs initialDashboard) "constructor" = [] ∧
  thrown (handleAll msgs initialDashboard) = true.
Proof.
  intros pts msgs.
  assert (Hall : Forall2 (carries "constructor") pts msgs)
    by apply carries_point_updates.
  destruct (rejected_stream "constructor" pts msgs initialDashboard eq_refl
              Hall) as [Hsame Hthrown].
  split; [reflexivity|]. split; [vm_compute; reflexivity|].
  split; [exact Hall|]. split; [vm_compute; reflexivity|]. split.
  - unfold series_of. rewrite Hsame. reflexivity.
  - apply Hthrown. right. discriminate.
Qed.

(** Two deliveries of reading 1 to a device that already holds reading 0
    leave two points, not one. *)
Lemma series_dedup_counterexample : ¬ @series_dedup_as_stated Z.
Proof.
  intros Hstated.
  specialize (Hstated (with_series "A" [reading 0]) "A" (reading 1)
                (point_update "A" (reading 1))
                (point_update "A" (reading 1))
                (carries_point_update _ _) (carries_point_update _ _)).
  assert (Hlen : length (series_of
                           (handleAll [point_update "A" (reading 1);
                                       point_update "A" (reading 1)]
                                      (with_series "A" [reading 0])) "A")
                 = 2) by (vm_compute; reflexivity).
  rewrite Hstated in Hlen; [discriminate|].
  intros q Hq.
  assert (Hseries : series_of (with_series "A" [reading 0]) "A"
                    = [reading 0]) by (vm_compute; reflexivity).
  rewrite Hseries in Hq. apply list_elem_of_singleton in Hq as ->.
  vm_compute. discriminate.
Qed.

Lemma series_dedup_witness :
  series_of (handleAll [point_update "A" (reading 7);
                        point_update "A" (reading 7)] initialDashboard) "A"
  = [reading 7]
  ∧ length (series_of
              (handleAll [point_update "A" (reading 1);
                          point_update "A" (reading 1)]
                         (with_series "A" [reading 0])) "A") = 2.
Proof.
  split.
  - refine (proj2 (proj2 (proj2
      (series_dedup initialDashboard "A" (reading 7) (reading 7)
         (point_update "A" (reading 7)) (point_update "A" (reading 7))
         (carries_point_update _ _) (carries_point_update _ _)
         (accepts_point_update _ "A" _ eq_refl)
         (accepts_point_update _ "A" _ eq_refl)
         eq_refl _))) eq_refl).
    intros q Hq. vm_compute in Hq. discriminate.
  - refine (eq_trans (proj1 (proj2 (proj2
      (series_dedup (with_series "A" [reading 0]) "A" (reading 1)
         (reading 1)
         (point_update "A" (reading 1)) (point_update "A" (reading 1))
         (carries_point_update _ _) (carries_point_update _ _)
         (accepts_point_update _ "A" _ eq_refl)
         (accepts_point_update _ "A" _ eq_refl)
         eq_refl _)))) eq_refl).
    intros q Hq. vm_compute in Hq. injection Hq as <-.
    vm_compute. discriminate.
Defined.

Lemma out_of_order_series :
  timeseriesData (handleAll out_of_order initialDashboard) !! "A"
  = Some [reading 2; reading 1].
Proof. vm_compute. reflexivity. Qed.

Lemma series_invariant_counterexample :
  ¬ tables_invariant (handleAll out_of_order initialDashboard) ∧
  ¬ @series_invariant_as_stated Z.
Proof.
  assert (Hbroken : ¬ tables_invariant
                        (handleAll out_of_order initialDashboard)).
  { intros Hinv.
    destruct (Hinv "A" [reading 2; reading 1] out_of_order_series)
      as [Hinc _].
    vm_compute in Hinc. discriminate. }
  split; [exact Hbroken|]. intros [Hreach _]. apply Hbroken, Hreach.
Qed.

(** An initial array longer than the bound is installed as it is. *)
Lemma initial_timeseries_unbounded :
  length <$>
    timeseriesData
      (handleWebSocketMessage
         (initial_timeseries (history "A" (reading <$> seq 0 451)))
         initialDashboard) !! "A"
  = Some 451.
Proof. vm_compute. reflexivity. Qed.

Lemma series_invariant_in_order_witness :
  tables_invariant (handleAll in_order_run initialDashboard).
Proof.
  apply series_invariant_in_order; [apply initial_tables_invariant|].
  simpl. split; [split; [reflexivity | vm_compute; lia]|].
  repeat (split; [apply map_Forall_singleton; vm_compute; done|]). done.
Defined.

(** * Properties of the hook *)

Section HookProperties.

Context {number : Type}.

Implicit Types (s : HookState number) (e : Event number).
Implicit Types (frame : option (WebSocketMessage number)).
Implicit Types (frames : list (option (WebSocketMessage number))).
Implicit Types (evs : list (Event number)) (cs : list (Callback number)).

(** ** Backoff *)

Lemma getReconnectDelay_eq s :
  getReconnectDelay s
  = Z.min (1000 * 2 ^ Z.of_nat (reconnectAttemptsRef s)) 30000.
Proof. reflexivity. Qed.

Lemma getReconnectDelay_mono s1 s2 :
  reconnectAttemptsRef s1 ≤ reconnectAttemptsRef s2 →
  (getReconnectDelay s1 ≤ getReconnectDelay s2)%Z.
Proof.
  intros Hle. rewrite !getReconnectDelay_eq.
  apply Z.min_le_compat_r, Z.mul_le_mono_nonneg_l; [lia|].
  apply Z.pow_le_mono_r; lia.
Qed.

(** The cap is reached at the sixth delay: [1000 * 2^5 = 32000]. *)
Lemma getReconnectDelay_capped s :
  5 ≤ reconnectAttemptsRef s → getReconnectDelay s = 30000%Z.
Proof.
  intros Hle. rewrite getReconnectDelay_eq. apply Z.min_r.
  assert (2 ^ 5 ≤ 2 ^ Z.of_nat (reconnectAttemptsRef s))%Z
    by (apply Z.pow_le_mono_r; lia).
  lia.
Qed.

(** C2. The reconnect delay is [min(1000 * 2^attempt, 30000)]; it never
    decreases as the attempt counter grows, never exceeds 30000, and is
    30000 for every attempt from 9 on. The delays of attempts 0..9 are
    1000, 2000, 4000, 8000, 16000 and then 30000 five times. *)
Theorem reconnect_delay :
  (∀ s, getReconnectDelay s
        = Z.min (1000 * 2 ^ Z.of_nat (reconnectAttemptsRef s)) 30000) ∧
  (∀ s1 s2, reconnectAttemptsRef s1 ≤ reconnectAttemptsRef s2 →
            (getReconnectDelay s1 ≤ getReconnectDelay s2)%Z) ∧
  (∀ s, (getReconnectDelay s ≤ 30000)%Z) ∧
  (∀ s, 9 ≤ reconnectAttemptsRef s → getReconnectDelay s = 30000%Z) ∧
  (∀ s, (fun a => getReconnectDelay (set_reconnectAttemptsRef a s))
          <$> seq 0 10
        = [1000; 2000; 4000; 8000; 16000;
           30000; 30000; 30000; 30000; 30000]%Z).
Proof.
  split; [apply getReconnectDelay_eq|].
  split; [apply getReconnectDelay_mono|].
  split; [intros s; rewrite getReconnectDelay_eq; lia|].
  split; [intros s Hle; apply getReconnectDelay_capped; lia|].
  reflexivity.
Qed.

(** ** Sending *)

Lemma wsRef_disconnect s : wsRef (disconnect s) = None.
Proof. unfold disconnect. by repeat case_match. Qed.

(** C10. [send] on a hook whose current socket is missing or not OPEN
    returns the state unchanged: nothing is handed to any socket, nothing
    is queued, no ref moves. After the cleanup of the effect there is no
    current socket, so every [send] is such a no-op. *)
Theorem send_not_open s (message : WebSocketOutgoingMessage) :
  current_readyState s ≠ Some OPEN →
  send message s = s ∧
  send message (unmount s) = unmount s.
Proof.
  intros Hstate. split.
  - unfold send. unfold current_readyState in Hstate.
    destruct (wsRef s) as [w|]; [|done].
    by rewrite bool_decide_eq_false_2.
  - unfold send, unmount. by rewrite wsRef_disconnect.
Qed.

(** ** Inbound frames *)

Lemma isMountedRef_onmessage frame s :
  isMountedRef (onmessage frame s) = isMountedRef s.
Proof. unfold onmessage. by repeat case_match. Qed.

Lemma calls_onmessage frame s :
  isMountedRef s = true →
  calls (onmessage frame s) = calls s ++ forwarded [frame].
Proof.
  intros Hm. unfold onmessage. rewrite Hm. simpl.
  destruct frame as [data|]; simpl; [|by rewrite app_nil_r].
  destruct (is_pong data); simpl; [|done].
  destruct (heartbeatTimeoutRef s); simpl; by rewrite app_nil_r.
Qed.

Lemma forwarded_cons frame frames :
  forwarded (frame :: frames) = forwarded [frame] ++ forwarded frames.
Proof.
  destruct frame as [data|]; simpl; [|done]. by destruct (is_pong data).
Qed.

Lemma calls_deliver frames s :
  isMountedRef s = true →
  calls (deliver frames s) = calls s ++ forwarded frames.
Proof.
  revert s. induction frames as [|frame frames IH]; intros s Hm.
  - simpl. by rewrite app_nil_r.
  - rewrite (forwarded_cons frame frames).
    change (deliver (frame :: frames) s)
      with (deliver frames (onmessage frame s)).
    rewrite IH by by rewrite isMountedRef_onmessage.
    rewrite calls_onmessage by done. by rewrite app_assoc.
Qed.

Lemma forwarded_not_pong frames data :
  onMessage data ∈ forwarded frames → is_pong data = false.
Proof.
  induction frames as [|[m|] frames IH]; simpl.
  - by intros ?%elem_of_nil.
  - destruct (is_pong m) eqn:Hp; [done|].
    intros [[= ->]|?]%elem_of_cons; [done | by apply IH].
  - done.
Qed.

Lemma forwarded_pongs frames rest :
  Forall pong_frame frames → forwarded (frames ++ rest) = forwarded rest.
Proof.
  induction 1 as [|frame frames (data & -> & Hp) _ IH]; [done|].
  simpl. by rewrite Hp.
Qed.

Lemma deliver_unmounted frames s :
  isMountedRef s = false → deliver frames s = s.
Proof.
  intros Hm. induction frames as [|frame frames IH]; [done|].
  change (deliver (frame :: frames) s)
    with (deliver frames (onmessage frame s)).
  unfold onmessage at 1. rewrite Hm. simpl. exact IH.
Qed.

(** C4. Whatever the state of the hook and whatever frames arrive, the
    calls to [onMessage] that they cause never carry a pong. A mounted
    hook calls [onMessage] for exactly the decoded frames that are not
    pongs, in order; 100 pongs followed by one full_update make one call,
    with that full_update; and a pong leaves the heartbeat-timeout ref
    [null] with the timer it named cleared, and calls nothing. *)
Theorem pong_interception s :
  (∀ frames, ∃ fw,
     calls (deliver frames s) = calls s ++ fw ∧
     ∀ data, onMessage data ∈ fw → is_pong data = false) ∧
  (isMountedRef s = true →
   (∀ frames, calls (deliver frames s) = calls s ++ forwarded frames) ∧
   (∀ pongs d,
      length pongs = 100 → Forall pong_frame pongs →
      calls (deliver (pongs ++ [Some (full_update d)]) s)
      = calls s ++ [onMessage (full_update d)]) ∧
   (∀ d, let s' := onmessage (Some (pong d)) s in
         heartbeatTimeoutRef s' = None ∧
         calls s' = calls s ∧
         ∀ t tm, heartbeatTimeoutRef s = Some t →
                 timers s' !! t = Some tm → pending tm = false)).
Proof.
  split.
  - intros frames. destruct (isMountedRef s) eqn:Hm.
    + exists (forwarded frames). split; [by apply calls_deliver|].
      apply forwarded_not_pong.
    + exists []. rewrite deliver_unmounted by done.
      split; [by rewrite app_nil_r|]. by intros data ?%elem_of_nil.
  - intros Hm. split; [intros; by apply calls_deliver|]. split.
    + intros pongs d _ Hpongs.
      rewrite calls_deliver by done. by rewrite forwarded_pongs.
    + intros d. unfold onmessage. rewrite Hm. simpl.
      destruct (heartbeatTimeoutRef s) as [t|] eqn:Ht; simpl;
        [|split; [done|split; [done|intros ? ? [=]]]].
      split; [done|]. split; [done|]. intros ? tm [= <-].
      rewrite list_lookup_alter_eq.
      destruct (timers s !! t); simpl; [|done]. by intros [= <-].
Qed.

(** ** Sockets that the hook no longer references *)

Lemma same_sockets_refl s : same_sockets s s.
Proof. by repeat split. Qed.

Lemma same_sockets_trans s1 s2 s3 :
  same_sockets s1 s2 → same_sockets s2 s3 → same_sockets s1 s3.
Proof.
  intros (Hw1 & Hm1 & Hr1 & Hs1) (Hw2 & Hm2 & Hr2 & Hs2).
  split; [congruence|]. split; [congruence|]. split; [congruence|].
  intros w. by rewrite Hs2, Hs1.
Qed.

Lemma same_sockets_well_formed s s' :
  same_sockets s s' → well_formed s → well_formed s'.
Proof.
  intros (Hw & _ & Hr & Hs) [Hwin Horph]. split; [congruence|].
  intros w Hlive. rewrite Hs in Hlive. rewrite Hr. by apply Horph.
Qed.

Lemma readyStateOf_ws_send w m s w' :
  readyStateOf w' (ws_send w m s) = readyStateOf w' s.
Proof.
  unfold readyStateOf, ws_send. simpl.
  destruct (decide (w = w')) as [->|Hne].
  - rewrite list_lookup_alter_eq. by destruct (sockets s !! w').
  - by rewrite list_lookup_alter_ne.
Qed.

Lemma readyStateOf_set_socket_state_eq w r s :
  readyStateOf w (set_socket_state w r s)
  = (fun _ => r) <$> readyStateOf w s.
Proof.
  unfold readyStateOf, set_socket_state. simpl.
  rewrite list_lookup_alter_eq. by destruct (sockets s !! w).
Qed.

Lemma readyStateOf_set_socket_state_ne w w' r s :
  w ≠ w' →
  readyStateOf w' (set_socket_state w r s) = readyStateOf w' s.
Proof.
  intros Hne. unfold readyStateOf, set_socket_state. simpl.
  by rewrite list_lookup_alter_ne.
Qed.

Lemma readyStateOf_ws_close_eq w s :
  readyStateOf w (ws_close w s) = closing_of <$> readyStateOf w s.
Proof.
  unfold readyStateOf, ws_close. simpl. rewrite list_lookup_alter_eq.
  destruct (sockets s !! w) as [[[] ?]|]; reflexivity.
Qed.

Lemma readyStateOf_ws_close_ne w w' s :
  w ≠ w' → readyStateOf w' (ws_close w s) = readyStateOf w' s.
Proof.
  intros Hne. unfold readyStateOf, ws_close. simpl.
  by rewrite list_lookup_alter_ne.
Qed.

Lemma live_ws_close w w' s :
  live (readyStateOf w' (ws_close w s)) →
  live (readyStateOf w' s) ∧ w ≠ w'.
Proof.
  destruct (decide (w = w')) as [->|Hne].
  - rewrite readyStateOf_ws_close_eq.
    destruct (readyStateOf w' s) as [[]|]; intros [?|?]; done.
  - by rewrite readyStateOf_ws_close_ne.
Qed.

Lemma readyStateOf_new_WebSocket s w :
  readyStateOf w (new_WebSocket s).2
  = if decide (w = length (sockets s)) then Some CONNECTING
    else readyStateOf w s.
Proof.
  unfold readyStateOf, new_WebSocket. simpl.
  destruct (decide (w = length (sockets s))) as [->|Hne].
  - by rewrite list_lookup_middle.
  - destruct (decide (w < length (sockets s))).
    + by rewrite lookup_app_l.
    + rewrite !(proj2 (lookup_ge_None _ _)); [done|lia|].
      rewrite length_app. simpl. lia.
Qed.

Ltac unfold_hook :=
  unfold resetConnection, unmount, mount, disconnect, onclose, onerror,
    onmessage, onopen, connect, heartbeat_timeout, heartbeat_interval,
    startHeartbeat, stopHeartbeat, send, call, setTimer, clearTimer in *.

Lemma same_sockets_stopHeartbeat s : same_sockets s (stopHeartbeat s).
Proof. unfold_hook. repeat case_match; by repeat split. Qed.

Lemma same_sockets_startHeartbeat s : same_sockets s (startHeartbeat s).
Proof. unfold_hook. repeat case_match; by repeat split. Qed.

Lemma same_sockets_onopen s : same_sockets s (onopen s).
Proof. unfold_hook. repeat case_match; by repeat split. Qed.

Lemma same_sockets_onmessage frame s : same_sockets s (onmessage frame s).
Proof. unfold_hook. repeat case_match; by repeat split. Qed.

Lemma same_sockets_onerror s : same_sockets s (onerror s).
Proof. unfold_hook. repeat case_match; by repeat split. Qed.

Lemma same_sockets_onclose s : same_sockets s (onclose s).
Proof. unfold_hook. repeat case_match; by repeat split. Qed.

Lemma same_sockets_send message s : same_sockets s (send message s).
Proof.
  unfold send. repeat case_match; try apply same_sockets_refl.
  repeat split. intros w. apply readyStateOf_ws_send.
Qed.

Lemma same_sockets_heartbeat_interval now s :
  same_sockets s (heartbeat_interval now s).
Proof.
  unfold heartbeat_interval, setTimer. simpl.
  repeat case_match; try apply same_sockets_refl.
  split; [done|]. split; [done|]. split; [done|].
  intros w'. apply (readyStateOf_ws_send _ _ s).
Qed.

Lemma same_sockets_expire t tm s : same_sockets s (expire t tm s).
Proof. unfold expire. case_match; by repeat split. Qed.

Lemma well_formed_ws_close w s :
  wsRef s = Some w → well_formed s → well_formed (ws_close w s).
Proof.
  intros Hw [Hwin Horph]. split; [done|].
  intros w' [Hlive Hne]%live_ws_close. by apply Horph.
Qed.

Lemma well_formed_heartbeat_timeout s :
  well_formed s → well_formed (heartbeat_timeout s).
Proof.
  unfold heartbeat_timeout. destruct (wsRef s) as [w|] eqn:Hw; [|done].
  by apply well_formed_ws_close.
Qed.

Lemma well_formed_connect s : well_formed s → well_formed (connect s).
Proof.
  intros [Hwin Horph]. unfold connect.
  destruct (negb (has_window s)); [done|].
  destruct (negb (isMountedRef s)); [done|].
  destruct (_ || _) eqn:Hguard; [done|].
  apply orb_false_elim in Hguard as [Hc Ho].
  apply bool_decide_eq_false in Hc, Ho.
  split; [done|]. intros w Hlive.
  change (live (readyStateOf w (new_WebSocket s).2)) in Hlive.
  rewrite readyStateOf_new_WebSocket in Hlive. simpl.
  destruct (decide (w = length (sockets s))) as [->|Hne]; [done|].
  pose proof (Horph w Hlive) as Hcur. unfold current_readyState in Hc, Ho.
  rewrite Hcur in Hc, Ho. by destruct Hlive.
Qed.

Lemma well_formed_disconnect s : well_formed s → well_formed (disconnect s).
Proof.
  intros Hwf.
  assert (Hwf1 : well_formed (stopHeartbeat s))
    by (eapply same_sockets_well_formed;
        [apply same_sockets_stopHeartbeat | done]).
  unfold disconnect. set (s1 := stopHeartbeat s) in *. clearbody s1.
  assert (Hwf2 : well_formed
                   match reconnectTimeoutRef s1 with
                   | Some t => set_reconnectTimeoutRef None (clearTimer t s1)
                   | None => s1
                   end) by by destruct (reconnectTimeoutRef s1).
  set (s2 := match reconnectTimeoutRef s1 with
             | Some t => _ | None => _ end) in *. clearbody s2.
  destruct Hwf2 as [Hwin Horph].
  destruct (wsRef s2) as [w|] eqn:Hw; [|done].
  destruct (_ || _) eqn:Hguard.
  - split; [done|]. intros w' [Hlive Hne]%live_ws_close.
    apply Horph in Hlive. congruence.
  - apply orb_false_elim in Hguard as [Ho Hc].
    apply bool_decide_eq_false in Hc, Ho.
    split; [done|]. intros w' Hlive. simpl in *.
    pose proof (Horph w' Hlive) as Hcur. rewrite Hw in Hcur.
    injection Hcur as ->. by destruct Hlive.
Qed.

Lemma well_formed_set_attempts a b s :
  well_formed s →
  well_formed (set_reconnectAttempts a (set_reconnectAttemptsRef b s)).
Proof. done. Qed.

Lemma well_formed_resetConnection s :
  well_formed s → well_formed (resetConnection s).
Proof.
  intros Hwf. unfold resetConnection. destruct (negb (isMountedRef s)); [done|].
  by apply well_formed_connect, well_formed_disconnect,
    well_formed_set_attempts.
Qed.

Lemma well_formed_unmount s : well_formed s → well_formed (unmount s).
Proof. intros Hwf. by apply well_formed_disconnect. Qed.

Lemma well_formed_mount :
  well_formed (mount (initialHook (number:=number) true)).
Proof.
  split; [done|]. intros w [Hl|Hl]; vm_compute in Hl; vm_compute.
  - destruct w as [|[|w]]; done.
  - destruct w as [|[|w]]; done.
Qed.

Lemma well_formed_set_closed w s :
  well_formed s → well_formed (set_socket_state w CLOSED s).
Proof.
  intros [Hwin Horph]. split; [done|]. intros w' Hlive. simpl.
  destruct (decide (w = w')) as [->|Hne].
  - rewrite readyStateOf_set_socket_state_eq in Hlive.
    destruct (readyStateOf w' s); by destruct Hlive.
  - rewrite readyStateOf_set_socket_state_ne in Hlive by done.
    by apply Horph.
Qed.

Lemma well_formed_set_open w s :
  readyStateOf w s = Some CONNECTING →
  well_formed s → well_formed (set_socket_state w OPEN s).
Proof.
  intros Hw [Hwin Horph]. split; [done|]. intros w' Hlive. simpl.
  destruct (decide (w = w')) as [->|Hne].
  - apply Horph. by left.
  - rewrite readyStateOf_set_socket_state_ne in Hlive by done.
    by apply Horph.
Qed.

Lemma well_formed_step e s s' :
  well_formed s → handle_event e s = Some s' → well_formed s'.
Proof.
  intros Hwf. destruct e as [w|w frame|w failed|t now|m| | |]; simpl.
  - case_bool_decide as Hw; [|done]. intros [= <-].
    eapply same_sockets_well_formed; [apply same_sockets_onopen|].
    by apply well_formed_set_open.
  - case_bool_decide; [|done]. intros [= <-].
    eapply same_sockets_well_formed; [apply same_sockets_onmessage|done].
  - destruct (readyStateOf w s) as [[]|]; try done; intros [= <-];
      (eapply same_sockets_well_formed; [apply same_sockets_onclose|]);
      destruct failed;
      try (eapply same_sockets_well_formed; [apply same_sockets_onerror|]);
      by apply well_formed_set_closed.
  - destruct (timers s !! t) as [tm|]; [|done].
    destruct (pending tm); [|done]. intros [= <-].
    assert (Hwf1 : well_formed (expire t tm s))
      by (eapply same_sockets_well_formed; [apply same_sockets_expire|done]).
    destruct (callback tm); simpl.
    + by apply well_formed_connect.
    + eapply same_sockets_well_formed;
        [apply same_sockets_heartbeat_interval|done].
    + by apply well_formed_heartbeat_timeout.
  - intros [= <-].
    eapply same_sockets_well_formed; [apply same_sockets_send|done].
  - intros [= <-]. by apply well_formed_disconnect.
  - intros [= <-]. by apply well_formed_resetConnection.
  - intros [= <-]. by apply well_formed_unmount.
Qed.

Lemma well_formed_run evs s s' :
  well_formed s → run evs s = Some s' → well_formed s'.
Proof.
  revert s. induction evs as [|e evs IH]; intros s Hwf; simpl.
  - by intros [= <-].
  - destruct (handle_event e s) as [s1|] eqn:He; [|done].
    apply IH. by eapply well_formed_step.
Qed.

Lemma reachable_well_formed s : reachable s → well_formed s.
Proof. intros [evs Hrun]. eapply well_formed_run; [apply well_formed_mount|done]. Qed.

(** ** Manual reset *)

Lemma cleared_alter_same t l : cleared t (alter cancelled t l).
Proof.
  intros tm. rewrite list_lookup_alter_eq.
  destruct (l !! t); simpl; [|done]. by intros [= <-].
Qed.

Lemma cleared_alter t t' l : cleared t l → cleared t (alter cancelled t' l).
Proof.
  intros Hc. destruct (decide (t' = t)) as [->|Hne].
  - apply cleared_alter_same.
  - intros tm. rewrite list_lookup_alter_ne by done. apply Hc.
Qed.

Lemma stopHeartbeat_clears t s :
  heartbeatIntervalRef s = Some t ∨ heartbeatTimeoutRef s = Some t →
  not_pending t (stopHeartbeat s).
Proof.
  unfold not_pending, stopHeartbeat, clearTimer.
  destruct (heartbeatIntervalRef s) as [ti|] eqn:Hi;
    destruct (heartbeatTimeoutRef s) as [tt|] eqn:Ht; simpl;
    rewrite ?Ht; simpl; intros [[= <-]|[= <-]];
    auto using cleared_alter_same, cleared_alter.
Qed.

Lemma stopHeartbeat_keeps t s :
  not_pending t s → not_pending t (stopHeartbeat s).
Proof.
  unfold not_pending, stopHeartbeat, clearTimer. intros Hnp.
  destruct (heartbeatIntervalRef s) as [ti|] eqn:Hi;
    destruct (heartbeatTimeoutRef s) as [tt|] eqn:Ht; simpl;
    rewrite ?Ht; simpl; auto using cleared_alter.
Qed.

Lemma reconnectTimeoutRef_stopHeartbeat s :
  reconnectTimeoutRef (stopHeartbeat s) = reconnectTimeoutRef s.
Proof. unfold stopHeartbeat. by repeat case_match. Qed.

Lemma timers_connect s : timers (connect s) = timers s.
Proof. unfold connect, new_WebSocket. simpl. by repeat case_match. Qed.

Lemma disconnect_clears t s :
  reconnectTimeoutRef s = Some t ∨ heartbeatIntervalRef s = Some t
  ∨ heartbeatTimeoutRef s = Some t →
  not_pending t (disconnect s).
Proof.
  intros Href.
  assert (Hstep : not_pending t
            match reconnectTimeoutRef (stopHeartbeat s) with
            | Some t' =>
                set_reconnectTimeoutRef None (clearTimer t' (stopHeartbeat s))
            | None => stopHeartbeat s
            end).
  { rewrite reconnectTimeoutRef_stopHeartbeat.
    destruct Href as [Hr|Hhb].
    - rewrite Hr. apply cleared_alter_same.
    - apply stopHeartbeat_clears in Hhb.
      destruct (reconnectTimeoutRef s); [|done].
      by apply cleared_alter. }
  unfold disconnect.
  set (s2 := match reconnectTimeoutRef (stopHeartbeat s) with
             | Some t' => _ | None => _ end) in *. clearbody s2.
  destruct (wsRef s2); [|done]. by destruct (_ || _).
Qed.

Lemma refs_disconnect s :
  reconnectTimeoutRef (disconnect s) = None ∧
  heartbeatIntervalRef (disconnect s) = None ∧
  heartbeatTimeoutRef (disconnect s) = None ∧
  isMountedRef (disconnect s) = isMountedRef s ∧
  has_window (disconnect s) = has_window s ∧
  length (sockets (disconnect s)) = length (sockets s).
Proof.
  unfold disconnect, stopHeartbeat, ws_close, clearTimer.
  repeat case_match; simpl in *; rewrite ?length_alter;
    repeat split; congruence.
Qed.

Lemma disconnect_set_attempts a b s :
  disconnect (set_reconnectAttempts a (set_reconnectAttemptsRef b s))
  = set_reconnectAttempts a (set_reconnectAttemptsRef b (disconnect s)).
Proof.
  destruct s as [ws rt hi ht ra im ic rat hw socks tms cs].
  unfold disconnect, stopHeartbeat, readyStateOf, ws_close, clearTimer.
  destruct hi, ht, rt, ws; simpl; try reflexivity;
    case_match; reflexivity.
Qed.

Lemma connect_fresh s :
  has_window s = true → isMountedRef s = true → wsRef s = None →
  connect s = set_wsRef (Some (length (sockets s))) (new_WebSocket s).2.
Proof.
  intros Hwin Hm Hw. unfold connect, current_readyState.
  by rewrite Hwin, Hm, Hw.
Qed.

Lemma resetConnection_eq_restart s :
  isMountedRef s = true → resetConnection s = restart s.
Proof.
  intros Hm. unfold resetConnection, restart. rewrite Hm. simpl.
  by rewrite disconnect_set_attempts.
Qed.

Lemma restart_in_flight s :
  well_formed s → isMountedRef s = true →
  one_attempt_in_flight (length (sockets s)) (restart s) ∧
  reconnectAttemptsRef (restart s) = 0 ∧
  reconnectAttempts (restart s) = 0 ∧
  length (sockets (restart s)) = S (length (sockets s)).
Proof.
  intros [Hwin Horph] Hm.
  destruct (refs_disconnect s) as (Hr & Hi & Ht & Hm' & Hwin' & Hlen).
  pose proof (well_formed_disconnect s (conj Hwin Horph)) as [_ Horph'].
  pose proof (wsRef_disconnect s) as Hws.
  unfold restart. rewrite connect_fresh by (simpl; congruence).
  simpl. rewrite length_app. simpl. rewrite Hlen.
  repeat split; try done; try lia.
  - unfold readyStateOf. simpl. rewrite <- Hlen.
    by rewrite list_lookup_middle.
  - intros w' Hlive.
    change (live (readyStateOf w'
              (new_WebSocket
                 (set_reconnectAttempts 0
                    (set_reconnectAttemptsRef 0 (disconnect s)))).2))
      in Hlive.
    rewrite readyStateOf_new_WebSocket in Hlive. simpl in Hlive.
    rewrite Hlen in Hlive.
    destruct (decide (w' = length (sockets s))); [done|].
    apply Horph' in Hlive. congruence.
Qed.

Lemma restart_timers s :
  reconnectTimeoutRef (restart s) = None ∧
  heartbeatIntervalRef (restart s) = None ∧
  heartbeatTimeoutRef (restart s) = None ∧
  ∀ t, reconnectTimeoutRef s = Some t ∨ heartbeatIntervalRef s = Some t
       ∨ heartbeatTimeoutRef s = Some t →
       not_pending t (restart s).
Proof.
  destruct (refs_disconnect s) as (Hr & Hi & Ht & _).
  unfold restart, connect, new_WebSocket. simpl.
  repeat case_match; simpl; (repeat split; [done..|]);
    intros t Href; by apply disconnect_clears.
Qed.

Lemma HookState_eq s1 s2 :
  wsRef s1 = wsRef s2 →
  reconnectTimeoutRef s1 = reconnectTimeoutRef s2 →
  heartbeatIntervalRef s1 = heartbeatIntervalRef s2 →
  heartbeatTimeoutRef s1 = heartbeatTimeoutRef s2 →
  reconnectAttemptsRef s1 = reconnectAttemptsRef s2 →
  isMountedRef s1 = isMountedRef s2 →
  isConnected s1 = isConnected s2 →
  reconnectAttempts s1 = reconnectAttempts s2 →
  has_window s1 = has_window s2 →
  sockets s1 = sockets s2 →
  timers s1 = timers s2 →
  calls s1 = calls s2 →
  s1 = s2.
Proof.
  destruct s1, s2. simpl. by intros -> -> -> -> -> -> -> -> -> -> -> ->.
Qed.

Lemma close_if_live_closed sock :
  ¬ live (Some (readyState sock)) → close_if_live sock = sock.
Proof.
  destruct sock as [[] frames]; unfold live; simpl; intros Hn;
    first [reflexivity | destruct Hn; auto].
Qed.

Lemma ws_close_close_if_live w s :
  ws_close w s = set_sockets (alter close_if_live w (sockets s)) s.
Proof.
  unfold ws_close. f_equal. apply list_alter_ext; [|done].
  intros [[] frames] _; reflexivity.
Qed.

Lemma cancelled_idle tm : pending tm = false → cancelled tm = tm.
Proof. destruct tm as [cb d rep p]. simpl. by intros ->. Qed.

(** What [disconnect] leaves alone. *)
Lemma disconnect_rest s :
  reconnectAttemptsRef (disconnect s) = reconnectAttemptsRef s ∧
  isConnected (disconnect s) = isConnected s ∧
  reconnectAttempts (disconnect s) = reconnectAttempts s ∧
  calls (disconnect s) = calls s.
Proof.
  unfold disconnect, stopHeartbeat, ws_close, clearTimer.
  repeat case_match; simpl in *; repeat split; congruence.
Qed.

Lemma sockets_disconnect s :
  sockets (disconnect s)
  = match wsRef s with
    | Some w => alter close_if_live w (sockets s)
    | None => sockets s
    end.
Proof.
  assert (Hrest : ∀ s2, wsRef s2 = wsRef s → sockets s2 = sockets s →
            sockets match wsRef s2 with
                    | Some w =>
                        set_wsRef None
                          (if bool_decide (readyStateOf w s2 = Some OPEN)
                              || bool_decide (readyStateOf w s2 = Some CONNECTING)
                           then ws_close w s2 else s2)
                    | None => s2
                    end
            = match wsRef s with
              | Some w => alter close_if_live w (sockets s)
              | None => sockets s
              end).
  { intros s2 -> Hs. destruct (wsRef s) as [w|]; [|done].
    unfold readyStateOf. rewrite Hs.
    destruct (_ || _) eqn:Hlive.
    - rewrite ws_close_close_if_live. simpl. by rewrite Hs.
    - simpl. rewrite Hs. apply list_eq. intros j.
      destruct (decide (w = j)) as [<-|Hne];
        [|by rewrite list_lookup_alter_ne].
      rewrite list_lookup_alter_eq.
      destruct (sockets s !! w) as [sock|] eqn:Hw; [|done]. simpl.
      rewrite close_if_live_closed; [done|].
      apply orb_false_elim in Hlive as [Ho Hc].
      apply bool_decide_eq_false in Ho, Hc. simpl in Ho, Hc.
      intros [Hl|Hl]; congruence. }
  unfold disconnect. apply Hrest;
    unfold stopHeartbeat, clearTimer; by repeat case_match.
Qed.

Lemma sockets_disconnect_all s :
  orphans_closed s →
  sockets (disconnect s) = close_if_live <$> sockets s.
Proof.
  intros Horph. rewrite sockets_disconnect. apply list_eq. intros j.
  rewrite list_lookup_fmap.
  assert (Hidle : wsRef s ≠ Some j →
            sockets s !! j = close_if_live <$> sockets s !! j).
  { intros Hne. destruct (sockets s !! j) as [sock|] eqn:Hj; [|done].
    simpl. rewrite close_if_live_closed; [done|].
    intros Hlive. apply Hne, Horph. unfold readyStateOf. by rewrite Hj. }
  destruct (wsRef s) as [w|]; [|by apply Hidle].
  destruct (decide (w = j)) as [<-|Hne].
  - by rewrite list_lookup_alter_eq.
  - rewrite list_lookup_alter_ne by done. apply Hidle. congruence.
Qed.

Lemma at_most_cancelled_refl l : at_most_cancelled l l.
Proof. split; [done|]. intros j tm Hj. by left. Qed.

Lemma at_most_cancelled_alter t l l' :
  at_most_cancelled l l' → at_most_cancelled l (alter cancelled t l').
Proof.
  intros [Hlen Hl]. split; [by rewrite length_alter|].
  intros j tm Hj. destruct (decide (t = j)) as [->|Hne].
  - rewrite list_lookup_alter_eq.
    destruct (Hl j tm Hj) as [-> | ->]; simpl; by right.
  - rewrite list_lookup_alter_ne by done. by apply Hl.
Qed.

Lemma timers_disconnect s : at_most_cancelled (timers s) (timers (disconnect s)).
Proof.
  unfold disconnect, stopHeartbeat, clearTimer, ws_close.
  repeat case_match; simpl;
    repeat apply at_most_cancelled_alter; apply at_most_cancelled_refl.
Qed.

Lemma timers_disconnect_all s :
  timers_held s → timers (disconnect s) = cancelled <$> timers s.
Proof.
  intros Hheld. destruct (timers_disconnect s) as [Hlen Hcases].
  apply list_eq. intros j. rewrite list_lookup_fmap.
  destruct (timers s !! j) as [tm|] eqn:Hj; simpl.
  - destruct (pending tm) eqn:Hp.
    + pose proof (disconnect_clears j s (Hheld j tm Hj Hp)) as Hclr.
      destruct (Hcases j tm Hj) as [Hsame|Hc]; [|done].
      specialize (Hclr tm Hsame). congruence.
    + rewrite (cancelled_idle tm Hp).
      destruct (Hcases j tm Hj) as [Hsame|Hc]; [done|].
      by rewrite Hc, (cancelled_idle tm Hp).
  - apply lookup_ge_None. rewrite Hlen. by apply lookup_ge_None.
Qed.

(** While every pending timer is held by its ref, [disconnect] is the
    [stop()] of the spec. *)
Lemma disconnect_eq_stop s :
  orphans_closed s → timers_held s → disconnect s = stop_as_stated s.
Proof.
  intros Horph Hheld.
  destruct (refs_disconnect s) as (Hr & Hi & Ht & Hm & Hwin & _).
  destruct (disconnect_rest s) as (Hra & Hic & Hrat & Hcalls).
  apply HookState_eq; simpl; try done.
  - apply wsRef_disconnect.
  - by apply sockets_disconnect_all.
  - by apply timers_disconnect_all.
Qed.

Lemma connect_eq_start s :
  has_window s = true → isMountedRef s = true → connect s = start_as_stated s.
Proof. intros Hwin Hm. unfold connect, start_as_stated. by rewrite Hwin, Hm. Qed.

Lemma restart_eq_as_stated s :
  well_formed s → isMountedRef s = true → timers_held s →
  restart s = restart_as_stated s.
Proof.
  intros [Hwin Horph] Hm Hheld. unfold restart, restart_as_stated.
  rewrite (disconnect_eq_stop s Horph Hheld). by apply connect_eq_start.
Qed.

Lemma not_pending_cancelled t (l : list Timer) : cleared t (cancelled <$> l).
Proof.
  intros tm. rewrite list_lookup_fmap.
  destruct (l !! t); simpl; [|done]. by intros [= <-].
Qed.

(** C9 (amended). On a mounted hook in which every pending timer is the
    one its timer ref holds, [resetConnection] is [stop()], which cancels
    all timers and closes any live transport, then the attempt counter set
    to 0, then [start()]. Afterwards the counter is 0, no timer is pending,
    the three timer refs are [null], and exactly one connection attempt is
    in flight: [wsRef] points to a new socket, which is CONNECTING, and no
    other socket is CONNECTING or OPEN. *)
Theorem resetConnection_restart s :
  reachable s →
  isMountedRef s = true →
  timers_held s →
  let s' := resetConnection s in
  s' = restart_as_stated s ∧
  reconnectAttemptsRef s' = 0 ∧
  reconnectAttempts s' = 0 ∧
  one_attempt_in_flight (length (sockets s)) s' ∧
  length (sockets s') = S (length (sockets s)) ∧
  reconnectTimeoutRef s' = None ∧
  heartbeatIntervalRef s' = None ∧
  heartbeatTimeoutRef s' = None ∧
  (∀ t, not_pending t s').
Proof.
  intros Hwf%reachable_well_formed Hm Hheld s'. subst s'.
  rewrite resetConnection_eq_restart by done.
  destruct (restart_in_flight s Hwf Hm) as (Hone & Hra & Hrat & Hlen).
  destruct (restart_timers s) as (Hr & Hi & Ht & _).
  split; [by apply restart_eq_as_stated|].
  repeat (split; [done|]).
  intros t. unfold not_pending, restart. rewrite timers_connect. simpl.
  rewrite (timers_disconnect_all s Hheld). apply not_pending_cancelled.
Qed.

(** ** Exhaustion of the retry budget *)

Arguments delay_of_attempt : simpl never.
Arguments getReconnectDelay : simpl never.

Lemma count_calls_app f cs1 cs2 :
  count_calls f (cs1 ++ cs2) = count_calls f cs1 + count_calls f cs2.
Proof. induction cs1 as [|c cs1 IH]; simpl; [done|]. rewrite IH. lia. Qed.

Lemma closed_but_set_closed w l :
  closed_but (Some w) l →
  closed_but None (alter (with_readyState CLOSED) w l).
Proof.
  intros Hc w' sock Hlk _. destruct (decide (w = w')) as [->|Hne].
  - rewrite list_lookup_alter_eq in Hlk.
    destruct (l !! w'); simpl in Hlk; [|done]. by injection Hlk as <-.
  - rewrite list_lookup_alter_ne in Hlk by done.
    apply (Hc w' sock Hlk). congruence.
Qed.

Lemma closed_but_snoc l sock :
  closed_but None l → closed_but (Some (length l)) (l ++ [sock]).
Proof.
  intros Hc w' sock' Hlk Hne. apply (Hc w' sock'); [|done].
  rewrite lookup_app in Hlk. destruct (l !! w') eqn:Hw; [done|].
  apply lookup_ge_None in Hw.
  destruct (w' - length l) as [|k] eqn:Hk; simpl in Hlk; [|done].
  destruct Hne. f_equal. lia.
Qed.

Lemma closed_but_close w l :
  closed_but None l →
  closed_but None
    (alter (fun sock =>
              match readyState sock with
              | CONNECTING | OPEN => with_readyState CLOSING sock
              | CLOSING | CLOSED => sock
              end) w l).
Proof.
  intros Hc w' sock Hlk _. destruct (decide (w = w')) as [->|Hne].
  - rewrite list_lookup_alter_eq in Hlk.
    destruct (l !! w') as [old|] eqn:Hold; simpl in Hlk; [|done].
    assert (Hcl : readyState old = CLOSED) by by apply (Hc w').
    injection Hlk as <-. by rewrite Hcl.
  - rewrite list_lookup_alter_ne in Hlk by done. by apply (Hc w' sock).
Qed.

Lemma cleared_but_cancel t l :
  cleared_but (Some t) l → cleared_but None (alter cancelled t l).
Proof.
  intros Hc t' tm Hlk _. destruct (decide (t = t')) as [->|Hne].
  - rewrite list_lookup_alter_eq in Hlk.
    destruct (l !! t'); simpl in Hlk; [|done]. by injection Hlk as <-.
  - rewrite list_lookup_alter_ne in Hlk by done.
    apply (Hc t' tm Hlk). congruence.
Qed.

Lemma cleared_but_cancel_any t l :
  cleared_but None l → cleared_but None (alter cancelled t l).
Proof.
  intros Hc. apply cleared_but_cancel. intros t' tm Hlk _.
  by apply (Hc t' tm).
Qed.

Lemma cleared_but_snoc l tm :
  cleared_but None l → cleared_but (Some (length l)) (l ++ [tm]).
Proof.
  intros Hc t' tm' Hlk Hne. apply (Hc t' tm'); [|done].
  rewrite lookup_app in Hlk. destruct (l !! t') eqn:Ht; [done|].
  apply lookup_ge_None in Ht.
  destruct (t' - length l) as [|k] eqn:Hk; simpl in Hlk; [|done].
  destruct Hne. f_equal. lia.
Qed.

Lemma closed_but_not_live w l :
  closed_but None l → (readyState <$> l !! w) ≠ Some CONNECTING
                      ∧ (readyState <$> l !! w) ≠ Some OPEN
                      ∧ (readyState <$> l !! w) ≠ Some CLOSING.
Proof.
  intros Hc. destruct (l !! w) as [sock|] eqn:Hw; simpl; [|done].
  assert (Hcl : readyState sock = CLOSED) by by apply (Hc w).
  by rewrite Hcl.
Qed.

Lemma phase_mount : phase 0 (mount (initialHook (number:=number) true)).
Proof.
  apply (phase_connecting _ _ 0); try done; try (simpl; lia).
  intros [|w'] sock Hlk Hne; simpl in *; [by destruct Hne|done].
Qed.

Lemma handle_close_inv w failed s s' :
  handle_event (ev_close w failed) s = Some s' →
  (∃ sock, sockets s !! w = Some sock ∧ readyState sock ≠ CLOSED) ∧
  s' = onclose (after_close w failed s).
Proof.
  unfold handle_event, readyStateOf.
  destruct (sockets s !! w) as [sock|]; [|done]. simpl.
  destruct (readyState sock) eqn:Hr; try done; intros [= <-];
    (split; [exists sock; split; [done|congruence] | done]).
Qed.

Lemma handle_timer_inv t now s s' :
  handle_event (ev_timer t now) s = Some s' →
  ∃ tm, timers s !! t = Some tm ∧ pending tm = true ∧
        s' = run_callback (callback tm) now (expire t tm s).
Proof.
  unfold handle_event. destruct (timers s !! t) as [tm|]; [|done].
  destruct (pending tm) eqn:Hp; [|done]. intros [= <-]. by exists tm.
Qed.

Lemma stopHeartbeat_idle s :
  heartbeatIntervalRef s = None → heartbeatTimeoutRef s = None →
  stopHeartbeat s = s.
Proof. unfold stopHeartbeat. intros Hi Ht. by rewrite Hi, Ht. Qed.

Lemma after_close_fields w failed s :
  isMountedRef s = true → isConnected s = false →
  fields (after_close w failed s)
  = (true, has_window s, false, heartbeatIntervalRef s,
     heartbeatTimeoutRef s, reconnectAttemptsRef s, wsRef s,
     reconnectTimeoutRef s, alter (with_readyState CLOSED) w (sockets s),
     timers s)
  ∧ count_calls is_max_retries (calls (after_close w failed s))
    = count_calls is_max_retries (calls s).
Proof.
  intros Hm Hc. unfold after_close, onerror, fields, call.
  destruct failed; simpl; rewrite ?Hm; simpl;
    rewrite ?Hm, ?Hc, ?count_calls_app; simpl; (split; [done|lia]).
Qed.

Lemma onclose_exhausted_fields s :
  isMountedRef s = true →
  heartbeatIntervalRef s = None → heartbeatTimeoutRef s = None →
  MAX_RECONNECT_ATTEMPTS ≤ reconnectAttemptsRef s →
  fields (onclose s)
  = (true, has_window s, false, None, None, reconnectAttemptsRef s,
     wsRef s, reconnectTimeoutRef s, sockets s, timers s)
  ∧ calls (onclose s) = calls s ++ [onDisconnect; onMaxRetriesExceeded].
Proof.
  intros Hm Hi Ht Hmax. unfold onclose. rewrite Hm. simpl.
  rewrite stopHeartbeat_idle by done. simpl.
  rewrite bool_decide_eq_true_2 by done.
  unfold fields, call. simpl. rewrite Hm, Hi, Ht.
  by rewrite <- app_assoc.
Qed.

Lemma onclose_retry_fields s :
  isMountedRef s = true →
  heartbeatIntervalRef s = None → heartbeatTimeoutRef s = None →
  reconnectAttemptsRef s < MAX_RECONNECT_ATTEMPTS →
  fields (onclose s)
  = (true, has_window s, false, None, None, reconnectAttemptsRef s + 1,
     wsRef s, Some (length (timers s)), sockets s,
     timers s ++ [{| callback := cb_connect;
                     delay := delay_of_attempt (reconnectAttemptsRef s);
                     repeating := false; pending := true |}])
  ∧ calls (onclose s) = calls s ++ [onDisconnect].
Proof.
  intros Hm Hi Ht Hmax. unfold onclose. rewrite Hm. simpl.
  rewrite stopHeartbeat_idle by done. simpl.
  rewrite bool_decide_eq_false_2 by lia.
  unfold fields, call, setTimer. simpl. by rewrite Hm, Hi, Ht.
Qed.

Lemma connect_closed_fields s :
  isMountedRef s = true → has_window s = true →
  current_readyState s = Some CLOSED →
  fields (connect s)
  = (true, true, isConnected s, heartbeatIntervalRef s,
     heartbeatTimeoutRef s, reconnectAttemptsRef s,
     Some (length (sockets s)), reconnectTimeoutRef s,
     sockets s ++ [{| readyState := CONNECTING; sent := [] |}], timers s)
  ∧ calls (connect s) = calls s.
Proof.
  intros Hm Hw Hcur. unfold connect. rewrite Hm, Hw, Hcur. simpl.
  unfold fields. simpl. by rewrite Hm, Hw.
Qed.

Lemma fields_inv s (m w c : bool) (hi ht : option nat) (a : nat)
    (ws rt : option nat) (socks : list WebSocket) (tms : list Timer) :
  fields s = (m, w, c, hi, ht, a, ws, rt, socks, tms) →
  isMountedRef s = m ∧ has_window s = w ∧ isConnected s = c ∧
  heartbeatIntervalRef s = hi ∧ heartbeatTimeoutRef s = ht ∧
  reconnectAttemptsRef s = a ∧ wsRef s = ws ∧ reconnectTimeoutRef s = rt ∧
  sockets s = socks ∧ timers s = tms.
Proof. unfold fields. intros [= <- <- <- <- <- <- <- <- <- <-]. done. Qed.

Lemma phase_step n s e s' :
  phase n s → failing e = true → handle_event e s = Some s' →
  phase (n + close_count e) s'.
Proof.
  intros Hphase Hfail Hstep.
  destruct e as [w0|w0 frame|w0 failed|t0 now|m| | |]; try done;
    unfold close_count; simpl.
  - (* a socket closes *)
    apply handle_close_inv in Hstep as [(sock & Hsock & Hopen) ->].
    destruct Hphase as
      [w (Hm & Hwin & Hic & Hhi & Hht) Hn Hra Hws Hready Hclosed Hcleared
         Hcount
      |t tm _ _ _ _ Hclosed _ _ _ _ _
      |_ _ _ _ [Hclosed _] _];
      [|destruct Hopen; by apply (Hclosed w0)..].
    (* an attempt is in flight, so the socket that closes is that attempt *)
    assert (w0 = w) as ->.
    { destruct (decide (w0 = w)) as [|Hne]; [done|].
      destruct Hopen. apply (Hclosed w0); [done|congruence]. }
    destruct (after_close_fields w failed s Hm Hic) as [Hf1 Hcalls1].
    apply fields_inv in Hf1
      as (Hm1 & Hwin1 & Hic1 & Hhi1 & Hht1 & Hra1 & Hws1 & Hrt1 & Hsk1 & Htm1).
    set (s1 := after_close w failed s) in *. clearbody s1.
    rewrite Hhi in Hhi1. rewrite Hht in Hht1.
    destruct (decide (n = 10)) as [->|Hlt].
    + destruct (onclose_exhausted_fields s1 Hm1 Hhi1 Hht1) as [Hf2 Hcalls2];
        [rewrite Hra1, Hra; done|].
      apply fields_inv in Hf2
        as (Hm2 & Hwin2 & Hic2 & Hhi2 & Hht2 & Hra2 & Hws2 & Hrt2 & Hsk2
            & Htm2).
      apply phase_exhausted.
      * unfold quiet. by rewrite Hm2, Hwin2, Hwin1, Hwin, Hic2, Hhi2, Hht2.
      * done.
      * by rewrite Hra2, Hra1.
      * unfold current_readyState, readyStateOf.
        rewrite Hws2, Hws1, Hws, Hsk2, Hsk1, list_lookup_alter_eq.
        by rewrite Hsock.
      * split.
        -- rewrite Hsk2, Hsk1. by apply closed_but_set_closed.
        -- by rewrite Htm2, Htm1.
      * rewrite Hcalls2, count_calls_app, Hcalls1, Hcount. done.
    + destruct (onclose_retry_fields s1 Hm1 Hhi1 Hht1) as [Hf2 Hcalls2];
        [rewrite Hra1, Hra; unfold MAX_RECONNECT_ATTEMPTS; lia|].
      apply fields_inv in Hf2
        as (Hm2 & Hwin2 & Hic2 & Hhi2 & Hht2 & Hra2 & Hws2 & Hrt2 & Hsk2
            & Htm2).
      eapply (phase_waiting _ _ (length (timers s))).
      * unfold quiet. by rewrite Hm2, Hwin2, Hwin1, Hwin, Hic2, Hhi2, Hht2.
      * lia.
      * rewrite Hra2, Hra1, Hra. done.
      * unfold current_readyState, readyStateOf.
        rewrite Hws2, Hws1, Hws, Hsk2, Hsk1, list_lookup_alter_eq.
        by rewrite Hsock.
      * rewrite Hsk2, Hsk1. by apply closed_but_set_closed.
      * by rewrite Hrt2, Htm1.
      * rewrite Htm2, Htm1. by apply list_lookup_middle.
      * rewrite Hra1, Hra. by replace (n + 1 - 1) with n by lia.
      * rewrite Htm2, Htm1. by apply cleared_but_snoc.
      * rewrite Hcalls2, count_calls_app, Hcalls1, Hcount. done.
  - (* a timer fires *)
    apply handle_timer_inv in Hstep as (tm0 & Htm0 & Hpending & ->).
    destruct Hphase as
      [w _ _ _ _ _ _ Hcleared _
      |t tm (Hm & Hwin & Hic & Hhi & Hht) Hn Hra Hcur Hclosed Hrt Htm Htmeq
         Hcleared Hcount
      |_ _ _ _ [_ Hcleared] _];
      [rewrite (Hcleared t0 tm0) in Hpending; done| |
       rewrite (Hcleared t0 tm0) in Hpending; done].
    (* a reconnect is scheduled, so the timer that fires is that reconnect *)
    assert (t0 = t) as ->.
    { destruct (decide (t0 = t)) as [|Hne]; [done|].
      rewrite (Hcleared t0 tm0) in Hpending; [done..|congruence]. }
    rewrite Htm in Htm0. injection Htm0 as <-. subst tm.
    unfold expire, run_callback. simpl.
    destruct (connect_closed_fields (clearTimer t s)) as [Hf Hcalls];
      [done..|].
    apply fields_inv in Hf
      as (Hm2 & Hwin2 & Hic2 & Hhi2 & Hht2 & Hra2 & Hws2 & Hrt2 & Hsk2 & Htm2).
    rewrite Nat.add_0_r.
    apply (phase_connecting _ _ (length (sockets s))).
    + unfold quiet. by rewrite Hm2, Hwin2, Hic2, Hhi2, Hht2.
    + lia.
    + by rewrite Hra2.
    + by rewrite Hws2.
    + unfold readyStateOf. rewrite Hsk2. simpl.
      by rewrite list_lookup_middle.
    + rewrite Hsk2. by apply closed_but_snoc.
    + rewrite Htm2. by apply cleared_but_cancel.
    + by rewrite Hcalls.
Qed.

Lemma closes_cons e evs : closes (e :: evs) = close_count e + closes evs.
Proof.
  unfold closes, close_count. rewrite filter_cons.
  destruct (is_close e); by case_decide.
Qed.

Lemma phase_run evs n s s' :
  phase n s → Forall (fun e => failing e = true) evs →
  run evs s = Some s' → phase (n + closes evs) s'.
Proof.
  revert n s. induction evs as [|e evs IH]; intros n s Hphase Hfail Hrun.
  - injection Hrun as <-. unfold closes. simpl. by rewrite Nat.add_0_r.
  - apply Forall_cons in Hfail as [He Hfail]. simpl in Hrun.
    destruct (handle_event e s) as [s1|] eqn:Hstep; [|done].
    rewrite closes_cons, Nat.add_assoc.
    apply (IH _ s1); [by apply (phase_step n s)|done..].
Qed.

Lemma phase_bound n s : phase n s → n ≤ 11.
Proof. intros [| |]; lia. Qed.

Lemma phase_max_retries n s :
  phase n s →
  count_calls is_max_retries (calls s) = if decide (n = 11) then 1 else 0.
Proof.
  intros [w _ Hn _ _ _ _ _ Hc|t tm _ Hn _ _ _ _ _ _ _ Hc|_ Hn _ _ _ Hc];
    case_decide; try done; lia.
Qed.

Lemma phase_still_trying n s : phase n s → n < 11 → still_trying n s.
Proof.
  intros [w _ _ _ Hws Hr _ _ _|t tm _ _ _ _ _ Hrt Htm -> _ _|_ -> _ _ _ _] Hn.
  - left. by exists w.
  - right. by exists t.
  - lia.
Qed.

Lemma phase_exhausted_inv s :
  phase 11 s →
  quiet s ∧ reconnectAttemptsRef s = 10 ∧
  current_readyState s = Some CLOSED ∧ dormant s ∧
  count_calls is_max_retries (calls s) = 1.
Proof. intros [w _ Hn|t tm _ Hn|]; [lia|lia|done]. Qed.

(** *** A dormant hook stays dormant *)

Lemma dormant_no_automatic s e :
  dormant s → automatic e = true → handle_event e s = None.
Proof.
  intros [Hclosed Hcleared] Hauto.
  destruct e as [w|w frame|w failed|t now| | | |]; try done.
  - unfold handle_event, readyStateOf.
    destruct (closed_but_not_live w _ Hclosed) as (Hc & _ & _).
    by rewrite bool_decide_eq_false_2.
  - unfold handle_event, readyStateOf.
    destruct (closed_but_not_live w _ Hclosed) as (_ & Ho & _).
    by rewrite bool_decide_eq_false_2.
  - destruct (handle_event (ev_close w failed) s) as [s'|] eqn:Hstep; [|done].
    apply handle_close_inv in Hstep as [(sock & Hsock & Hopen) _].
    destruct Hopen. by apply (Hclosed w).
  - destruct (handle_event (ev_timer t now) s) as [s'|] eqn:Hstep; [|done].
    apply handle_timer_inv in Hstep as (tm & Htm & Hp & _).
    by rewrite (Hcleared t tm) in Hp.
Qed.

Lemma dormant_unchanged s s' :
  sockets s' = sockets s → timers s' = timers s → dormant s → dormant s'.
Proof. unfold dormant. by intros -> ->. Qed.

Lemma dormant_clearTimer t s : dormant s → dormant (clearTimer t s).
Proof.
  intros [Hclosed Hcleared]. split; [done|].
  by apply cleared_but_cancel_any.
Qed.

Lemma dormant_ws_close w s : dormant s → dormant (ws_close w s).
Proof.
  intros [Hclosed Hcleared]. split; [|done]. by apply closed_but_close.
Qed.

Lemma dormant_stopHeartbeat s : dormant s → dormant (stopHeartbeat s).
Proof.
  intros Hd. unfold stopHeartbeat.
  destruct (heartbeatIntervalRef s) as [ti|];
    destruct (heartbeatTimeoutRef s) as [tt|] eqn:Ht; simpl; rewrite ?Ht;
    try done;
    repeat (first [apply dormant_clearTimer
                  |eapply dormant_unchanged; [reflexivity..|]]);
    done.
Qed.

Lemma dormant_disconnect s : dormant s → dormant (disconnect s).
Proof.
  intros Hd%dormant_stopHeartbeat. unfold disconnect.
  set (s1 := stopHeartbeat s) in *. clearbody s1.
  assert (Hd2 : dormant
                  match reconnectTimeoutRef s1 with
                  | Some t => set_reconnectTimeoutRef None (clearTimer t s1)
                  | None => s1
                  end).
  { destruct (reconnectTimeoutRef s1); [|done].
    by apply (dormant_clearTimer _ s1). }
  set (s2 := match reconnectTimeoutRef s1 with
             | Some t => _ | None => _ end) in *. clearbody s2.
  destruct (wsRef s2) as [w|]; [|done].
  destruct (_ || _); [by apply (dormant_ws_close w s2)|done].
Qed.

Lemma observable_disconnect s :
  calls (disconnect s) = calls s ∧
  isConnected (disconnect s) = isConnected s.
Proof.
  unfold disconnect, stopHeartbeat, ws_close, clearTimer.
  repeat case_match; by simpl in *.
Qed.

Lemma dormant_step s e s' :
  dormant s → is_reset e = false → handle_event e s = Some s' →
  dormant s' ∧ calls s' = calls s ∧ isConnected s' = isConnected s.
Proof.
  intros Hd Hreset Hstep.
  destruct (automatic e) eqn:Hauto;
    [by rewrite (dormant_no_automatic s e) in Hstep|].
  destruct e as [| | | |m| | |]; try done; simpl in Hstep;
    injection Hstep as <-.
  - unfold send. destruct (wsRef s) as [w|]; [|done].
    destruct (closed_but_not_live w _ (proj1 Hd)) as (_ & Ho & _).
    unfold readyStateOf. by rewrite bool_decide_eq_false_2.
  - split; [by apply dormant_disconnect | apply observable_disconnect].
  - unfold unmount. split; [by apply dormant_disconnect|].
    apply (observable_disconnect (set_isMountedRef false s)).
Qed.

Lemma dormant_run evs s s' :
  dormant s → Forall (fun e => is_reset e = false) evs →
  run evs s = Some s' →
  dormant s' ∧ calls s' = calls s ∧ isConnected s' = isConnected s.
Proof.
  revert s. induction evs as [|e evs IH]; intros s Hd Hevs Hrun.
  - by injection Hrun as <-.
  - apply Forall_cons in Hevs as [He Hevs]. simpl in Hrun.
    destruct (handle_event e s) as [s1|] eqn:Hstep; [|done].
    destruct (dormant_step s e s1 Hd He Hstep) as (Hd1 & Hc1 & Hi1).
    destruct (IH s1 Hd1 Hevs Hrun) as (Hd2 & Hc2 & Hi2).
    split; [done|]. split; congruence.
Qed.

(** X20. In a run from the mount of the hook in which every connection
    attempt fails and the consumer stays out of the way (sockets only
    close, timers only fire): the call to
    [onMaxRetriesExceeded] is made when the attempt made after the tenth
    scheduled reconnect has failed, which is the eleventh close event of
    the run, and it is made once. Until then the hook is still trying.
    From then on the attempt counter is 10, every socket is CLOSED, no
    timer is pending and no event of the browser can happen; whatever the
    consumer then does short of [resetConnection] leaves it so, with no
    further call to [onMaxRetriesExceeded]; [resetConnection] puts one new
    attempt in flight with the counter at 0. *)
Theorem exhaustion evs s :
  Forall (fun e => failing e = true) evs →
  run evs (mount (initialHook true)) = Some s →
  closes evs ≤ 11 ∧
  count_calls is_max_retries (calls s)
  = (if decide (closes evs = 11) then 1 else 0) ∧
  (closes evs < 11 → still_trying (closes evs) s) ∧
  (closes evs = 11 →
     reconnectAttemptsRef s = 10 ∧
     isConnected s = false ∧
     current_readyState s = Some CLOSED ∧
     dormant s ∧
     (∀ e, automatic e = true → handle_event e s = None) ∧
     (∀ evs' s',
        Forall (fun e => is_reset e = false) evs' →
        run evs' s = Some s' →
        dormant s' ∧ isConnected s' = false ∧
        count_calls is_max_retries (calls s') = 1) ∧
     one_attempt_in_flight (length (sockets s)) (resetConnection s) ∧
     reconnectAttemptsRef (resetConnection s) = 0).
Proof.
  intros Hfail Hrun.
  pose proof (phase_run evs 0 _ s phase_mount Hfail Hrun) as Hphase.
  simpl in Hphase.
  split; [by apply (phase_bound _ s)|].
  split; [by apply phase_max_retries|].
  split; [by apply phase_still_trying|].
  intros H11. rewrite H11 in Hphase.
  apply phase_exhausted_inv in Hphase
    as ((Hm & Hwin & Hic & Hhi & Hht) & Hra & Hcur & Hd & Hcount).
  split; [done|]. split; [done|]. split; [done|]. split; [done|].
  split; [intros e; by apply dormant_no_automatic|]. split.
  - intros evs' s' Hevs' Hrun'.
    destruct (dormant_run evs' s s' Hd Hevs' Hrun') as (Hd' & Hc' & Hi').
    split; [done|]. split; congruence.
  - rewrite resetConnection_eq_restart by done.
    assert (Hwf : well_formed s) by (apply reachable_well_formed; by exists evs).
    destruct (restart_in_flight s Hwf Hm) as (Hone & Hra' & _). done.
Qed.

End HookProperties.

(** * Instances of the hook's properties *)

Lemma reconnect_delay_witness :
  getReconnectDelay (set_reconnectAttemptsRef 9 (initialHook (number:=Z) true))
  = 30000%Z.
Proof.
  apply (proj1 (proj2 (proj2 (proj2 (@reconnect_delay Z))))).
  simpl. lia.
Defined.

Lemma send_not_open_witness :
  send request_update (mount (initialHook (number:=Z) true))
  = mount (initialHook true).
Proof.
  apply (send_not_open (mount (initialHook true)) request_update).
  vm_compute. discriminate.
Defined.

Lemma pong_interception_witness :
  calls (deliver (replicate 100 (Some a_pong)
                  ++ [Some (full_update an_update)]) connected)
  = calls connected ++ [onMessage (full_update an_update)].
Proof.
  apply (proj1 (proj2 (proj2 (pong_interception connected) eq_refl))).
  - reflexivity.
  - apply Forall_replicate. by exists a_pong.
Defined.

Lemma mid_backoff_reachable : reachable mid_backoff.
Proof. exists [ev_close 0 true]. vm_compute. reflexivity. Qed.

Lemma torn_down_reachable : reachable torn_down.
Proof. exists [ev_close 0 true; ev_unmount]. vm_compute. reflexivity. Qed.

(** After the cleanup of the effect, [resetConnection] does nothing: the
    counter keeps its value and no attempt is started. *)
Lemma resetConnection_counterexample : ¬ @reset_as_stated Z.
Proof.
  intros Hstated.
  destruct (Hstated torn_down torn_down_reachable) as (_ & Hcounter & _).
  vm_compute in Hcounter. discriminate.
Qed.

Lemma mid_backoff_timers_held : timers_held mid_backoff.
Proof.
  intros [|t] tm Ht Hp; [left; reflexivity|].
  vm_compute in Ht. destruct t; discriminate.
Qed.

Lemma resetConnection_restart_witness :
  resetConnection mid_backoff = restart_as_stated mid_backoff ∧
  one_attempt_in_flight 1 (resetConnection mid_backoff) ∧
  reconnectAttemptsRef (resetConnection mid_backoff) = 0 ∧
  not_pending 0 (resetConnection mid_backoff).
Proof.
  pose proof (resetConnection_restart mid_backoff mid_backoff_reachable
                eq_refl mid_backoff_timers_held)
    as (Heq & Hcounter & _ & Hone & _ & _ & _ & _ & Hclr).
  split; [exact Heq|]. split; [exact Hone|]. split; [exact Hcounter|].
  apply Hclr.
Defined.

(** A reconnect timer whose ref has been overwritten is out of the reach
    of [disconnect]: it is still pending after a reset. *)
Lemma reset_leaves_timer :
  reachable two_reconnects ∧
  isMountedRef two_reconnects = true ∧
  reconnectTimeoutRef two_reconnects = Some 1 ∧
  pending <$> timers two_reconnects !! 0 = Some true ∧
  pending <$> timers (resetConnection two_reconnects) !! 0 = Some true.
Proof.
  split; [|vm_compute; repeat split; reflexivity].
  exists [ev_resetConnection; ev_close 0 false; ev_close 1 true].
  vm_compute. reflexivity.
Qed.

(** C3. Exhaustion fails in a run in which every connection attempt fails
    and the consumer has reset the connection once, during the first
    attempt. The close event of the socket that the reset dropped
    schedules a reconnect of its own, so that two reconnect timers are
    pending at a time. After 21 events [onMaxRetriesExceeded] has been
    called once, with the attempt counter at 10, and a reconnect timer is
    still pending; it fires, the socket it opens closes, and
    [onMaxRetriesExceeded] is called a second time. *)
Theorem exhaustion_twice :
  let first := state_after (take 21 reset_then_failing) in
  let second := state_after reset_then_failing in
  run reset_then_failing (mount (initialHook true)) = Some second ∧
  Forall (fun e => is_open e = false) reset_then_failing ∧
  count_calls is_max_retries (calls first) = 1 ∧
  reconnectAttemptsRef first = 10 ∧
  pending <$> timers first !! 9 = Some true ∧
  handle_event (ev_timer 9 0%Z) first
  = Some (state_after (take 22 reset_then_failing)) ∧
  readyStateOf 11 (state_after (take 22 reset_then_failing))
  = Some CONNECTING ∧
  count_calls is_max_retries (calls second) = 2.
Proof.
  split; [vm_compute; reflexivity|].
  split; [repeat constructor|].
  vm_compute. repeat split; reflexivity.
Qed.

Lemma exhaustion_witness :
  count_calls is_max_retries (calls (state_after failing_run)) = 1 ∧
  dormant (state_after failing_run).
Proof.
  assert (Hfail : Forall (fun e : Event Z => failing e = true) failing_run)
    by (repeat constructor).
  assert (Hrun : run failing_run (mount (initialHook true))
                 = Some (state_after failing_run))
    by (vm_compute; reflexivity).
  pose proof (exhaustion failing_run (state_after failing_run) Hfail Hrun)
    as (_ & Hcount & _ & Hspent).
  split; [exact Hcount|].
  by destruct (Hspent eq_refl) as (_ & _ & _ & Hd & _).
Defined.

(** The socket dropped by a reset still delivers its close event: the
    handler then counts a reconnect attempt and schedules a timer although
    the new attempt is in flight. *)
Lemma stale_close_after_reset :
  let s := state_after [ev_open 0; ev_resetConnection; ev_close 0 false] in
  run [ev_open 0; ev_resetConnection; ev_close 0 false]
      (mount (initialHook true)) = Some s ∧
  reconnectAttemptsRef s = 1 ∧
  current_readyState s = Some CONNECTING ∧
  pending <$> timers s !! 1 = Some true.
Proof. vm_compute. repeat split; reflexivity. Qed.

(** * Further properties of the message handler *)

Section FurtherReducerProperties.

Context {number : Type}.

Implicit Types (st : DashboardState number) (p q : TimeseriesPoint number).
Implicit Types (series existing : list (TimeseriesPoint number)).
Implicit Types (dev : string).
Implicit Types (pts : list (TimeseriesPoint number)).
Implicit Types (o prev : option (list (TimeseriesPoint number))).
Implicit Types (msg : WebSocketMessage number).
Implicit Types (msgs : list (WebSocketMessage number)).

Lemma DashboardState_eq st1 st2 :
  readings st1 = readings st2 →
  realtimeData st1 = realtimeData st2 →
  timeseriesData st1 = timeseriesData st2 →
  loading st1 = loading st2 →
  thrown st1 = thrown st2 →
  st1 = st2.
Proof. destruct st1, st2. simpl. by intros -> -> -> -> ->. Qed.

Lemma append_one_idemp p o : append_one p (append_one p o) = append_one p o.
Proof.
  destruct (is_new_point (default [] o) p) eqn:Hnew.
  - rewrite (append_one_new p o) by done. apply append_one_dup. simpl.
    rewrite (is_new_point_last _ p)
      by (apply last_slice_last_snoc; unfold MAX_TIMESERIES_POINTS; lia).
    apply bool_decide_eq_false. by intros Hne.
  - by rewrite !(append_one_dup p o).
Qed.

(** A batch that was stored is stored again, with no further change; a
    batch that made the updater throw makes it throw again. *)
Lemma append_points_again (tp : gmap string (TimeseriesPoint number))
    (prev : gmap string (list (TimeseriesPoint number))) :
  match append_points tp prev with
  | Some u => append_points tp u = Some u
  | None => True
  end.
Proof.
  destruct (append_points tp prev) as [u|] eqn:Hu; [|done].
  assert (Hlk := fun dev => append_points_lookup tp prev u dev Hu).
  destruct (append_points_spec tp prev) as [_ Hno].
  destruct (decide (map_Forall (fun dev _ => storable prev dev = true) tp))
    as [Hall|Hall]; [|by rewrite (Hno Hall) in Hu].
  destruct (append_points_spec tp u) as [Hyes _].
  destruct Hyes as (u' & Hu' & Hlk').
  { intros dev p Hp. apply (storable_mono prev); [|by apply (Hall dev p)].
    rewrite Hlk, Hp. apply append_one_is_Some. }
  rewrite Hu'. f_equal. apply map_eq. intros dev. rewrite Hlk', Hlk.
  destruct (tp !! dev); [apply append_one_idemp | done].
Qed.

Lemma union_absorb (r prev : gmap string (RealtimeData number)) :
  r ∪ (r ∪ prev) = r ∪ prev.
Proof.
  apply map_eq. intros dev. rewrite !lookup_union.
  by destruct (r !! dev), (prev !! dev).
Qed.

(** X1. Delivering any message a second time, right after the first,
    changes nothing: the tables after two deliveries are the tables after
    one. *)
Theorem redelivery_idempotent msg st :
  handleWebSocketMessage msg (handleWebSocketMessage msg st)
  = handleWebSocketMessage msg st.
Proof.
  destruct msg as [d|d|d]; [| |done].
  - destruct (full_update_tables d st) as (Hr & Hrt & Hts & Hl & Hth).
    destruct (full_update_tables d (handleWebSocketMessage (full_update d) st))
      as (Hr2 & Hrt2 & Hts2 & Hl2 & Hth2).
    apply DashboardState_eq.
    + rewrite Hr2, Hr. by destruct (summary d).
    + rewrite Hrt2, Hrt. destruct (realtime d); [apply union_absorb|done].
    + rewrite Hts2, Hts. destruct (timeseries_point d) as [tp|]; [|done].
      pose proof (append_points_again tp (timeseriesData st)) as Hagain.
      destruct (append_points tp (timeseriesData st)) as [u|] eqn:Hu; simpl.
      * by rewrite Hagain.
      * by rewrite Hu.
    + by rewrite Hl2, Hl.
    + rewrite Hth2, Hts, Hth. destruct (timeseries_point d) as [tp|]; [|done].
      pose proof (append_points_again tp (timeseriesData st)) as Hagain.
      destruct (append_points tp (timeseriesData st)) as [u|] eqn:Hu; simpl.
      * by rewrite Hagain.
      * by rewrite Hu.
  - simpl. destruct (truthy (meter_name d)); [|done].
    destruct (data d) as [arr|]; [|done].
    unfold setTimeseriesData. simpl. by rewrite insert_insert_eq.
Qed.

(** ** Devices stay *)

Lemma realtime_is_Some msg st dev :
  is_Some (realtimeData st !! dev) →
  is_Some (realtimeData (handleWebSocketMessage msg st) !! dev).
Proof.
  intros Hs. destruct msg as [d|d|d]; [| |done].
  - destruct (full_update_tables d st) as (_ & -> & _).
    destruct (realtime d) as [r|]; [|done].
    rewrite lookup_union. destruct (r !! dev), Hs as [x ->]; eauto.
  - simpl. destruct (truthy (meter_name d)); [|done].
    by destruct (data d).
Qed.

(** X2. No message removes a device: a device that has a snapshot keeps
    one, and a device that has a series keeps one, whatever messages
    follow. *)
Theorem devices_stay msgs st dev :
  (is_Some (realtimeData st !! dev) →
   is_Some (realtimeData (handleAll msgs st) !! dev)) ∧
  (is_Some (timeseriesData st !! dev) →
   is_Some (timeseriesData (handleAll msgs st) !! dev)).
Proof.
  revert st. induction msgs as [|msg msgs IH]; intros st; [done|].
  rewrite handleAll_cons. destruct (IH (handleWebSocketMessage msg st))
    as [IHr IHt]. split; intros Hs.
  - by apply IHr, realtime_is_Some.
  - by apply IHt, series_is_Some.
Qed.

(** ** What appending alone guarantees *)

Lemma adjacent_distinct_cons_inv p series :
  adjacent_distinct (p :: series) → adjacent_distinct series.
Proof. destruct series; simpl; [done|]. by intros [_ ?]. Qed.

Lemma adjacent_distinct_drop k series :
  adjacent_distinct series → adjacent_distinct (drop k series).
Proof.
  revert series. induction k as [|k IH]; intros [|p series] Ha; try done.
  simpl. apply IH. by apply adjacent_distinct_cons_inv in Ha.
Qed.

Lemma adjacent_distinct_snoc series p :
  adjacent_distinct series →
  (∀ q, last series = Some q → timestamp q ≠ timestamp p) →
  adjacent_distinct (series ++ [p]).
Proof.
  induction series as [|a [|b rest] IH]; intros Ha Hlast; [done| |].
  - simpl. split; [by apply Hlast|done].
  - destruct Ha as [Hab Hrest].
    change (timestamp a ≠ timestamp b
            ∧ adjacent_distinct ((b :: rest) ++ [p])).
    split; [done|]. apply IH; [done|].
    intros q Hq. apply Hlast. by rewrite last_cons_cons.
Qed.

Lemma append_one_bounded p prev series :
  (∀ old, prev = Some old → bounded_series old) →
  append_one p prev = Some series →
  bounded_series series.
Proof.
  intros Hprev. unfold append_one.
  destruct (is_new_point (default [] prev) p) eqn:Hnew; [|by apply Hprev].
  intros [= <-]. split.
  - rewrite slice_last_length. lia.
  - apply adjacent_distinct_drop, adjacent_distinct_snoc.
    + destruct prev as [old|]; [by apply Hprev|done].
    + intros q Hq. rewrite (is_new_point_last _ _ _ Hq) in Hnew.
      by apply bool_decide_eq_true in Hnew.
Qed.

Lemma tables_bounded_step msg st :
  is_initial_timeseries msg = false →
  tables_bounded st → tables_bounded (handleWebSocketMessage msg st).
Proof.
  intros Hmsg Hb dev series.
  destruct (handle_series_cases msg st) as [-> | ->]; [|by apply Hb].
  destruct msg as [d|d|d]; [|done|by apply Hb]. simpl.
  destruct (timeseries_point d) as [tp|]; [|by apply Hb].
  destruct (tp !! dev) as [p|]; [|by apply Hb].
  apply append_one_bounded. intros old Hold. by apply (Hb dev).
Qed.

(** X3. As long as no initial_timeseries arrives, and whatever the order
    and content of the points that do, every series keeps at most 450
    points and never holds two consecutive points with the same
    timestamp. *)
Theorem append_only_bounded msgs st :
  Forall (fun msg => is_initial_timeseries msg = false) msgs →
  tables_bounded st →
  tables_bounded (handleAll msgs st).
Proof.
  revert st. induction msgs as [|msg msgs IH]; intros st Hmsgs Hb; [done|].
  apply Forall_cons in Hmsgs as [Hmsg Hmsgs]. rewrite handleAll_cons.
  apply IH; [done|]. by apply tables_bounded_step.
Qed.

Lemma tables_bounded_initial : tables_bounded (initialDashboard (number:=number)).
Proof. intros dev series Hlk. simpl in Hlk. by rewrite lookup_empty in Hlk. Qed.

(** ** The loading flag *)



(** ** One appended point *)

Lemma slice_last_snoc_full {A} (x : A) (l : list A) (y : A) :
  length (x :: l) = MAX_TIMESERIES_POINTS →
  slice_last MAX_TIMESERIES_POINTS ((x :: l) ++ [y]) = l ++ [y].
Proof.
  intros Hlen. unfold slice_last. rewrite length_app, Hlen. simpl.
  replace (MAX_TIMESERIES_POINTS + 1 - MAX_TIMESERIES_POINTS) with 1 by lia.
  reflexivity.
Qed.

(** X5. One delivered point [p], seen from its device. When the table
    accepts the message, the newest stored point carries the timestamp of
    [p] afterwards; a point with a new timestamp is added behind all the
    stored ones while fewer than 450 are stored, and pushes out exactly the
    oldest one when 450 are stored; a point with the timestamp of the last
    stored one is ignored, so that the stored reading stays. When the table
    does not accept the message, as when the device has no series of its
    own and is named like a member of [Object.prototype], the updater
    throws and no series changes. *)
Theorem append_step msg st dev p :
  carries dev p msg →
  let before := series_of st dev in
  let after := series_of (handleWebSocketMessage msg st) dev in
  (accepts (timeseriesData st) msg →
   (timestamp <$> last after) = Some (timestamp p) ∧
   (is_new_point before p = true → length before < MAX_TIMESERIES_POINTS →
    after = before ++ [p]) ∧
   (is_new_point before p = true → length before = MAX_TIMESERIES_POINTS →
    after = drop 1 before ++ [p]) ∧
   (is_new_point before p = false → after = before) ∧
   thrown (handleWebSocketMessage msg st) = thrown st) ∧
  (¬ accepts (timeseriesData st) msg →
   timeseriesData (handleWebSocketMessage msg st) = timeseriesData st ∧
   thrown (handleWebSocketMessage msg st) = true) ∧
  (storable (timeseriesData st) dev = false →
   ¬ accepts (timeseriesData st) msg).
Proof.
  intros Hc before after.
  split; [|split; [apply handle_rejected | by apply (carries_rejected dev p)]].
  intros Hacc.
  assert (Hafter : after = default [] (append_one p (timeseriesData st !! dev))).
  { subst after. unfold series_of. rewrite handle_series by done.
    by rewrite (carries_series _ _ _ _ Hc). }
  fold (series_of st dev) in Hafter. rewrite Hafter. clear after Hafter.
  rewrite (handle_accepted_thrown msg st Hacc).
  unfold append_one. fold (series_of st dev). fold before.
  destruct (is_new_point before p) eqn:Hnew; simpl.
  - split; [|split; [|split; [|done]]].
    + by rewrite last_slice_last_snoc
        by (unfold MAX_TIMESERIES_POINTS; lia).
    + intros _ Hlen. apply slice_last_short. rewrite length_app. simpl. lia.
    + intros _ Hlen. destruct before as [|x l]; [done|].
      by apply slice_last_snoc_full.
  - split; [|done]. fold (series_of st dev). fold before.
    unfold is_new_point in Hnew.
    destruct (last before) as [q|]; [|done]. simpl.
    apply bool_decide_eq_false in Hnew. apply dec_stable in Hnew.
    by rewrite Hnew.
Qed.

(** ** The latest message wins *)






(** ** The selected meter *)

Lemma defaultMeterEffect_selected (rs : list (MeterSummary number)) sel :
  selected sel = true → defaultMeterEffect rs sel = sel.
Proof. intros Hsel. unfold defaultMeterEffect. rewrite Hsel. by destruct rs. Qed.

Lemma select_over_selected (renders : list (list (MeterSummary number))) sel :
  selected sel = true → select_over renders sel = sel.
Proof.
  intros Hsel. induction renders as [|rs renders IH]; [done|].
  unfold select_over in *. simpl. by rewrite defaultMeterEffect_selected.
Qed.

Lemma select_over_empties (empties : list (list (MeterSummary number))) sel :
  Forall (fun rs => rs = []) empties → select_over empties sel = sel.
Proof.
  induction 1 as [|rs empties -> _ IH]; [done|]. exact IH.
Qed.

(** X7. The default meter of [SinglePhaseDashboard] is chosen once. A
    selected meter is kept whatever readings the component is rendered
    with afterwards, also readings that no longer list it. While none is
    selected, the first non-empty readings select their first meter, and
    this choice stays if its name is not empty; the series requested for a
    selection is that of the selected meter, and without a selection
    nothing is requested and no data is shown. *)
Theorem default_meter_chosen_once
    (renders : list (list (MeterSummary number))) sel :
  (selected sel = true → select_over renders sel = sel) ∧
  (∀ empties first others later,
     selected sel = false →
     renders = empties ++ (first :: others) :: later →
     Forall (fun rs => rs = []) empties →
     truthy (ms_meter_name first) = true →
     select_over renders sel = Some (ms_meter_name first) ∧
     requested (select_over renders sel)
     = [request_timeseries (ms_meter_name first)]) ∧
  (selected sel = false →
   Forall (fun rs => rs = []) renders →
   requested (select_over renders sel) = [] ∧
   ∀ (rt : gmap string (RealtimeData number))
     (ts : gmap string (list (TimeseriesPoint number))),
     currentRealtimeData rt (select_over renders sel) = None ∧
     currentTimeseriesData ts (select_over renders sel) = value []).
Proof.
  split; [apply select_over_selected|]. split.
  - intros empties first others later Hsel -> Hempty Hname.
    assert (Hgoal : select_over (empties ++ (first :: others) :: later) sel
                    = Some (ms_meter_name first)).
    { unfold select_over. rewrite foldl_app. fold (select_over empties sel).
      rewrite (select_over_empties empties sel Hempty). simpl.
      rewrite Hsel. simpl.
      by apply (select_over_selected later (Some (ms_meter_name first))). }
    rewrite Hgoal. split; [done|]. simpl. by rewrite Hname.
  - intros Hsel Hempty. rewrite (select_over_empties renders sel Hempty).
    destruct sel as [m|]; simpl in *; [rewrite Hsel|]; done.
Qed.

End FurtherReducerProperties.

(** * Further properties of the hook *)

Section FurtherHookProperties.

Context {number : Type}.

Implicit Types (s : HookState number) (e : Event number).
Implicit Types (frame : option (WebSocketMessage number)).
Implicit Types (frames : list (option (WebSocketMessage number))).
Implicit Types (evs : list (Event number)) (cs : list (Callback number)).

(** ** Stopping *)

Lemma disconnect_idle s :
  heartbeatIntervalRef s = None → heartbeatTimeoutRef s = None →
  reconnectTimeoutRef s = None → wsRef s = None →
  disconnect s = s.
Proof.
  intros Hi Ht Hr Hw. unfold disconnect.
  rewrite stopHeartbeat_idle by done. by rewrite Hr, Hw.
Qed.

Lemma set_isMountedRef_same s :
  set_isMountedRef (isMountedRef s) s = s.
Proof. by destruct s. Qed.

(** X8. [disconnect] is idempotent, and so is the cleanup of the effect:
    a second call changes nothing. After either, the three timer refs and
    [wsRef] are [null]. *)
Theorem disconnect_idempotent s :
  disconnect (disconnect s) = disconnect s ∧
  unmount (unmount s) = unmount s ∧
  wsRef (disconnect s) = None ∧
  reconnectTimeoutRef (disconnect s) = None ∧
  heartbeatIntervalRef (disconnect s) = None ∧
  heartbeatTimeoutRef (disconnect s) = None.
Proof.
  assert (Hidem : ∀ s, disconnect (disconnect s) = disconnect s).
  { intros s0. destruct (refs_disconnect s0) as (Hr & Hi & Ht & _).
    apply disconnect_idle; try done. apply wsRef_disconnect. }
  destruct (refs_disconnect s) as (Hr & Hi & Ht & _).
  split; [apply Hidem|]. split; [|by rewrite wsRef_disconnect].
  unfold unmount.
  destruct (refs_disconnect (set_isMountedRef false s))
    as (_ & _ & _ & Hm & _).
  simpl in Hm. rewrite <- Hm at 1. rewrite set_isMountedRef_same.
  apply Hidem.
Qed.

(** ** After the cleanup *)

Lemma sent_frames_alter_readyState (f : WebSocket → WebSocket) w
    (l : list WebSocket) :
  (∀ sock, sent (f sock) = sent sock) →
  sent <$> alter f w l = sent <$> l.
Proof.
  intros Hf. apply list_eq. intros i. rewrite !list_lookup_fmap.
  destruct (decide (w = i)) as [->|Hne].
  - rewrite list_lookup_alter_eq. destruct (l !! i); simpl; [|done].
    by rewrite Hf.
  - by rewrite list_lookup_alter_ne.
Qed.

Lemma silent_refl s : silent s s.
Proof. done. Qed.

Lemma silent_trans s1 s2 s3 : silent s1 s2 → silent s2 s3 → silent s1 s3.
Proof.
  intros (Hc1 & Hs1 & Hf1 & Ht1) (Hc2 & Hs2 & Hf2 & Ht2).
  repeat split; congruence.
Qed.

Lemma silent_set_socket_state w r s : silent s (set_socket_state w r s).
Proof.
  unfold silent, sent_frames, set_socket_state. simpl.
  rewrite length_alter. repeat split.
  by apply sent_frames_alter_readyState.
Qed.

Lemma silent_ws_close w s : silent s (ws_close w s).
Proof.
  unfold silent, sent_frames, ws_close. simpl.
  rewrite length_alter. repeat split.
  apply sent_frames_alter_readyState. intros sock.
  by destruct (readyState sock).
Qed.

Lemma silent_clearTimer t s : silent s (clearTimer t s).
Proof.
  unfold silent, sent_frames, clearTimer. simpl.
  by rewrite length_alter.
Qed.

Lemma silent_stopHeartbeat s : silent s (stopHeartbeat s).
Proof.
  unfold stopHeartbeat.
  destruct (heartbeatIntervalRef s) as [ti|];
    destruct (heartbeatTimeoutRef s) as [tt|] eqn:Ht; simpl; rewrite ?Ht;
    try apply silent_refl.
  - eapply silent_trans; [apply (silent_clearTimer ti)|].
    apply (silent_clearTimer tt
             (set_heartbeatIntervalRef None (clearTimer ti s))).
  - apply (silent_clearTimer ti).
  - apply (silent_clearTimer tt).
Qed.

Lemma silent_disconnect s : silent s (disconnect s).
Proof.
  unfold disconnect.
  pose proof (silent_stopHeartbeat s) as H1.
  set (s1 := stopHeartbeat s) in *. clearbody s1.
  assert (H2 : silent s1
                 match reconnectTimeoutRef s1 with
                 | Some t => set_reconnectTimeoutRef None (clearTimer t s1)
                 | None => s1
                 end).
  { destruct (reconnectTimeoutRef s1) as [t|]; [|apply silent_refl].
    apply (silent_clearTimer t). }
  set (s2 := match reconnectTimeoutRef s1 with
             | Some t => _ | None => _ end) in *. clearbody s2.
  eapply silent_trans; [exact H1|]. eapply silent_trans; [exact H2|].
  destruct (wsRef s2) as [w|]; [|apply silent_refl].
  destruct (_ || _);
    [exact (silent_ws_close w s2)|exact (silent_refl s2)].
Qed.

Lemma connect_unmounted s : isMountedRef s = false → connect s = s.
Proof. intros Hm. unfold connect. rewrite Hm. by destruct (has_window s). Qed.

Lemma detached_step s e s' :
  detached s → handle_event e s = Some s' →
  detached s' ∧ silent s s'.
Proof.
  intros [Hm Hw] Hstep.
  destruct e as [w|w frame|w failed|t now|m| | |]; simpl in Hstep.
  - case_bool_decide; [|done]. injection Hstep as <-.
    unfold onopen. simpl. rewrite Hm. simpl.
    split; [done|apply silent_set_socket_state].
  - case_bool_decide; [|done]. injection Hstep as <-.
    unfold onmessage. rewrite Hm. simpl. split; [done|apply silent_refl].
  - apply handle_close_inv in Hstep as [_ ->].
    unfold after_close, onclose, onerror. destruct failed; simpl;
      rewrite Hm; simpl; rewrite ?Hm; simpl;
      (split; [done|apply silent_set_socket_state]).
  - apply handle_timer_inv in Hstep as (tm & Htm & Hp & ->).
    assert (Hd : detached (expire t tm s) ∧ silent s (expire t tm s)).
    { unfold expire. destruct (repeating tm);
        [by split|split; [done|apply silent_clearTimer]]. }
    destruct Hd as [[Hm1 Hw1] Hs1].
    destruct (callback tm); simpl.
    + rewrite connect_unmounted by done. by split.
    + unfold heartbeat_interval. rewrite Hw1. by split.
    + unfold heartbeat_timeout. rewrite Hw1. by split.
  - injection Hstep as <-. unfold send. rewrite Hw.
    split; [done|apply silent_refl].
  - injection Hstep as <-. split; [|apply silent_disconnect].
    split; [|apply wsRef_disconnect].
    by destruct (refs_disconnect s) as (_ & _ & _ & -> & _).
  - injection Hstep as <-. unfold resetConnection. rewrite Hm. simpl.
    split; [done|apply silent_refl].
  - injection Hstep as <-. unfold unmount. split.
    + split; [|apply wsRef_disconnect].
      by destruct (refs_disconnect (set_isMountedRef false s))
        as (_ & _ & _ & -> & _).
    + apply (silent_disconnect (set_isMountedRef false s)).
Qed.

Lemma detached_run evs s s' :
  detached s → run evs s = Some s' → detached s' ∧ silent s s'.
Proof.
  revert s. induction evs as [|e evs IH]; intros s Hd Hrun.
  - injection Hrun as <-. split; [done|apply silent_refl].
  - simpl in Hrun. destruct (handle_event e s) as [s1|] eqn:He; [|done].
    destruct (detached_step s e s1 Hd He) as [Hd1 Hs1].
    destruct (IH s1 Hd1 Hrun) as [Hd2 Hs2].
    split; [done|]. by eapply silent_trans.
Qed.

Lemma detached_unmount s : detached (unmount s).
Proof.
  unfold unmount. split; [|apply wsRef_disconnect].
  by destruct (refs_disconnect (set_isMountedRef false s))
    as (_ & _ & _ & -> & _).
Qed.

(** X9. After the cleanup of the effect, whatever happens next (socket
    events, timers that still fire, calls of [send], [disconnect] or
    [resetConnection]) the hook calls no callback, creates no socket, sends
    no frame and sets no timer, and it stays unmounted without a current
    socket. *)
Theorem teardown_silence evs s s' :
  run evs (unmount s) = Some s' →
  silent (unmount s) s' ∧ detached s'.
Proof.
  intros Hrun.
  destruct (detached_run evs (unmount s) s' (detached_unmount s) Hrun).
  by split.
Qed.

(** ** One connection at a time *)

Lemma connect_live s : live (current_readyState s) → connect s = s.
Proof.
  intros Hlive. unfold connect.
  destruct (negb (has_window s)); [done|].
  destruct (negb (isMountedRef s)); [done|].
  destruct Hlive as [-> | ->]; by rewrite ?orb_true_r.
Qed.

(** X10. In every state the hook can reach, at most one socket is
    CONNECTING or OPEN, and it is the one [wsRef] points to; while there is
    one, [connect] does nothing. *)
Theorem one_connection s :
  reachable s →
  at_most_one_live s ∧
  (∀ w, live (readyStateOf w s) → wsRef s = Some w) ∧
  (live (current_readyState s) → connect s = s).
Proof.
  intros [Hwin Horph]%reachable_well_formed. split; [|split; [done|]].
  - intros w w' Hw Hw'. apply Horph in Hw, Hw'. congruence.
  - apply connect_live.
Qed.

(** ** The attempt counter *)

Lemma stopHeartbeat_rest s : rest_view (stopHeartbeat s) = rest_view s.
Proof. unfold stopHeartbeat. by repeat case_match. Qed.

Lemma stopHeartbeat_refs s :
  heartbeatIntervalRef (stopHeartbeat s) = None ∧
  heartbeatTimeoutRef (stopHeartbeat s) = None.
Proof.
  unfold stopHeartbeat.
  destruct (heartbeatIntervalRef s) eqn:Hi;
    destruct (heartbeatTimeoutRef s) eqn:Ht; simpl; by rewrite ?Ht, ?Hi.
Qed.

Lemma rest_view_inv s s' :
  rest_view s' = rest_view s →
  wsRef s' = wsRef s ∧ reconnectTimeoutRef s' = reconnectTimeoutRef s ∧
  reconnectAttemptsRef s' = reconnectAttemptsRef s ∧
  isMountedRef s' = isMountedRef s ∧ isConnected s' = isConnected s ∧
  reconnectAttempts s' = reconnectAttempts s ∧
  has_window s' = has_window s ∧ sockets s' = sockets s ∧
  calls s' = calls s.
Proof. unfold rest_view. intros [= -> -> -> -> -> -> -> -> ->]. done. Qed.

Lemma same_counters_refl s : same_counters s s.
Proof. done. Qed.

Lemma same_counters_ok s s' : same_counters s s' → counters_ok s → counters_ok s'.
Proof. unfold counters_ok. intros [-> ->]. done. Qed.

Lemma same_counters_stopHeartbeat s : same_counters s (stopHeartbeat s).
Proof.
  destruct (rest_view_inv _ _ (stopHeartbeat_rest s))
    as (_ & _ & Ha & _ & _ & Hb & _). by split.
Qed.

Lemma same_counters_connect s : same_counters s (connect s).
Proof. unfold connect, new_WebSocket. simpl. by repeat case_match. Qed.

Lemma same_counters_disconnect s : same_counters s (disconnect s).
Proof.
  unfold disconnect.
  pose proof (same_counters_stopHeartbeat s) as [H1 H2].
  set (s1 := stopHeartbeat s) in *. clearbody s1.
  unfold same_counters. rewrite <- H1, <- H2.
  repeat case_match; done.
Qed.

Lemma counters_ok_onclose s : counters_ok s → counters_ok (onclose s).
Proof.
  intros [Hle Heq]. unfold onclose.
  destruct (negb (isMountedRef s)); [done|]. simpl.
  pose proof (same_counters_stopHeartbeat (set_isConnected false s))
    as [H1 H2]. simpl in H1, H2.
  case_bool_decide as Hmax; simpl; unfold counters_ok; simpl;
    rewrite ?H1, ?H2; [done|]. split; lia.
Qed.

Lemma counters_ok_onopen s : counters_ok s → counters_ok (onopen s).
Proof.
  intros Hok. unfold onopen. destruct (negb (isMountedRef s)); [done|].
  unfold startHeartbeat, setTimer, call. simpl.
  pose proof (same_counters_stopHeartbeat
                (set_reconnectAttempts 0
                   (set_reconnectAttemptsRef 0 (set_isConnected true s))))
    as [H1 H2]. simpl in H1, H2.
  unfold counters_ok. simpl. rewrite H1, H2. split; [lia|done].
Qed.

Lemma counters_ok_step e s s' :
  counters_ok s → handle_event e s = Some s' → counters_ok s'.
Proof.
  intros Hok Hstep.
  destruct e as [w|w frame|w failed|t now|m| | |]; simpl in Hstep.
  - case_bool_decide; [|done]. injection Hstep as <-.
    by apply counters_ok_onopen.
  - case_bool_decide; [|done]. injection Hstep as <-.
    unfold onmessage. by repeat case_match.
  - apply handle_close_inv in Hstep as [_ ->]. apply counters_ok_onclose.
    unfold after_close, onerror. by repeat case_match.
  - apply handle_timer_inv in Hstep as (tm & _ & _ & ->).
    assert (Hok1 : counters_ok (expire t tm s))
      by (unfold expire; by case_match).
    destruct (callback tm); simpl.
    + by apply (same_counters_ok _ _ (same_counters_connect _)).
    + unfold heartbeat_interval, setTimer. by repeat case_match.
    + unfold heartbeat_timeout. by case_match.
  - injection Hstep as <-. unfold send. by repeat case_match.
  - injection Hstep as <-.
    by apply (same_counters_ok _ _ (same_counters_disconnect _)).
  - injection Hstep as <-. unfold resetConnection.
    destruct (negb (isMountedRef s)); [done|].
    apply (same_counters_ok _ _ (same_counters_connect _)).
    apply (same_counters_ok _ _ (same_counters_disconnect _)).
    split; simpl; [lia|done].
  - injection Hstep as <-. unfold unmount.
    by apply (same_counters_ok _ _
                (same_counters_disconnect (set_isMountedRef false s))).
Qed.

(** X11. In every state the hook can reach, the attempt counter is at most
    10 and the [reconnectAttempts] value the hook returns equals it. *)
Theorem attempts_within_budget s :
  reachable s →
  reconnectAttemptsRef s ≤ MAX_RECONNECT_ATTEMPTS ∧
  reconnectAttempts s = reconnectAttemptsRef s.
Proof.
  intros [evs Hrun].
  assert (Hok : counters_ok (mount (initialHook (number:=number) true)))
    by (split; simpl; [lia|done]).
  revert Hrun Hok. generalize (mount (initialHook (number:=number) true)).
  induction evs as [|e evs IH]; intros s0 Hrun Hok.
  - by injection Hrun as <-.
  - simpl in Hrun. destruct (handle_event e s0) as [s1|] eqn:He; [|done].
    apply (IH s1 Hrun). by apply (counters_ok_step e s0).
Qed.

(** ** Opening *)

Lemma length_timers_stopHeartbeat s :
  length (timers (stopHeartbeat s)) = length (timers s).
Proof. by destruct (silent_stopHeartbeat s) as (_ & _ & _ & ?). Qed.

Lemma startHeartbeat_fields s :
  rest_view (startHeartbeat s) = rest_view s ∧
  heartbeatIntervalRef (startHeartbeat s) = Some (length (timers s)) ∧
  heartbeatTimeoutRef (startHeartbeat s) = None ∧
  timers (startHeartbeat s)
  = timers (stopHeartbeat s)
    ++ [{| callback := cb_heartbeat_interval;
           delay := HEARTBEAT_INTERVAL_MS;
           repeating := true; pending := true |}].
Proof.
  unfold startHeartbeat, setTimer. simpl.
  split; [exact (stopHeartbeat_rest s)|].
  split; [by rewrite length_timers_stopHeartbeat|].
  split; [apply stopHeartbeat_refs|done].
Qed.

Lemma onopen_mounted s :
  isMountedRef s = true →
  onopen s
  = call onConnect
      (startHeartbeat
         (set_reconnectAttempts 0
            (set_reconnectAttemptsRef 0 (set_isConnected true s)))).
Proof. intros Hm. unfold onopen. by rewrite Hm. Qed.

(** X12. When the socket a mounted hook is connecting on opens, the hook
    reports connected, calls [onConnect] once, puts the attempt counter
    back to 0, so that the next reconnect delay is the base delay again,
    starts one heartbeat interval of 25000 ms and leaves
    [heartbeatTimeoutRef] at [null]. *)
Theorem open_resets s w :
  isMountedRef s = true →
  readyStateOf w s = Some CONNECTING →
  ∃ s', handle_event (ev_open w) s = Some s' ∧
        readyStateOf w s' = Some OPEN ∧
        isConnected s' = true ∧
        reconnectAttemptsRef s' = 0 ∧
        reconnectAttempts s' = 0 ∧
        getReconnectDelay s' = BASE_RECONNECT_DELAY_MS ∧
        calls s' = calls s ++ [onConnect] ∧
        heartbeatIntervalRef s' = Some (length (timers s)) ∧
        timers s' !! length (timers s)
        = Some {| callback := cb_heartbeat_interval;
                  delay := HEARTBEAT_INTERVAL_MS;
                  repeating := true; pending := true |} ∧
        heartbeatTimeoutRef s' = None.
Proof.
  intros Hm Hw. unfold handle_event. rewrite bool_decide_eq_true_2 by done.
  eexists. split; [reflexivity|].
  rewrite (onopen_mounted (set_socket_state w OPEN s)) by done.
  set (s3 := set_reconnectAttempts 0
               (set_reconnectAttemptsRef 0
                  (set_isConnected true (set_socket_state w OPEN s)))).
  destruct (startHeartbeat_fields s3) as (Hrest & Hi & Ht & Htm).
  apply rest_view_inv in Hrest
    as (Hws & Hrt & Hra & Hmm & Hic & Hrat & Hwin & Hsk & Hcalls).
  set (s4 := startHeartbeat s3) in *. clearbody s4.
  unfold call.
  assert (Hatt : reconnectAttemptsRef (set_calls (calls s4 ++ [onConnect]) s4)
                 = 0)
    by (simpl; by rewrite Hra).
  split; [|split; [|split; [|split; [|split; [|split; [|split; [|split]]]]]]].
  - unfold readyStateOf. simpl. rewrite Hsk. simpl.
    change (readyStateOf w (set_socket_state w OPEN s) = Some OPEN).
    rewrite readyStateOf_set_socket_state_eq. by rewrite Hw.
  - simpl. by rewrite Hic.
  - exact Hatt.
  - simpl. by rewrite Hrat.
  - unfold getReconnectDelay. rewrite Hatt. reflexivity.
  - simpl. by rewrite Hcalls.
  - exact Hi.
  - simpl. rewrite Htm.
    replace (length (timers s)) with (length (timers (stopHeartbeat s3)))
      by apply (length_timers_stopHeartbeat s3).
    by apply list_lookup_middle.
  - exact Ht.
Qed.

(** ** Closing *)

Lemma after_close_rest w failed s :
  isMountedRef s = true →
  let s1 := after_close w failed s in
  isMountedRef s1 = true ∧
  wsRef s1 = wsRef s ∧
  has_window s1 = has_window s ∧
  reconnectAttemptsRef s1 = reconnectAttemptsRef s ∧
  heartbeatIntervalRef s1 = heartbeatIntervalRef s ∧
  heartbeatTimeoutRef s1 = heartbeatTimeoutRef s ∧
  timers s1 = timers s ∧
  sockets s1 = alter (with_readyState CLOSED) w (sockets s) ∧
  calls s1 = calls s ++ (if failed then [onError] else []).
Proof.
  intros Hm. unfold after_close, onerror, call.
  destruct failed; simpl; rewrite ?Hm; simpl;
    rewrite ?Hm, ?app_nil_r; done.
Qed.

Lemma onclose_retry s :
  isMountedRef s = true →
  reconnectAttemptsRef s < MAX_RECONNECT_ATTEMPTS →
  let s' := onclose s in
  isMountedRef s' = true ∧
  wsRef s' = wsRef s ∧
  has_window s' = has_window s ∧
  sockets s' = sockets s ∧
  isConnected s' = false ∧
  reconnectAttemptsRef s' = reconnectAttemptsRef s + 1 ∧
  reconnectAttempts s' = reconnectAttemptsRef s + 1 ∧
  reconnectTimeoutRef s' = Some (length (timers s)) ∧
  timers s' !! length (timers s)
  = Some {| callback := cb_connect; delay := getReconnectDelay s;
            repeating := false; pending := true |} ∧
  length (timers s') = S (length (timers s)) ∧
  heartbeatIntervalRef s' = None ∧
  heartbeatTimeoutRef s' = None ∧
  calls s' = calls s ++ [onDisconnect].
Proof.
  intros Hm Hlt. unfold onclose. rewrite Hm. simpl.
  destruct (rest_view_inv _ _ (stopHeartbeat_rest (set_isConnected false s)))
    as (Hws & Hrt & Hra & Hmm & Hic & Hrat & Hwin & Hsk & Hcalls).
  destruct (stopHeartbeat_refs (set_isConnected false s)) as [Hi Ht].
  pose proof (length_timers_stopHeartbeat (set_isConnected false s)) as Hlen.
  simpl in Hws, Hrt, Hra, Hmm, Hic, Hrat, Hwin, Hsk, Hcalls, Hlen.
  set (s2 := stopHeartbeat (set_isConnected false s)) in *. clearbody s2.
  rewrite Hra. rewrite bool_decide_eq_false_2 by lia.
  unfold setTimer, call, getReconnectDelay. simpl.
  rewrite Hra, Hlen, Hmm, Hws, Hwin, Hsk, Hic, Hcalls, Hi, Ht, Hm.
  rewrite length_app, Hlen. simpl.
  repeat split; try done; try lia.
  rewrite <- Hlen. by apply list_lookup_middle.
Qed.

Lemma close_event_fields s w failed (r : ReadyState) :
  isMountedRef s = true →
  readyStateOf w s = Some r → r ≠ CLOSED →
  reconnectAttemptsRef s < MAX_RECONNECT_ATTEMPTS →
  ∃ s', handle_event (ev_close w failed) s = Some s' ∧
        readyStateOf w s' = Some CLOSED ∧
        isConnected s' = false ∧
        reconnectAttemptsRef s' = reconnectAttemptsRef s + 1 ∧
        reconnectAttempts s' = reconnectAttemptsRef s + 1 ∧
        reconnectTimeoutRef s' = Some (length (timers s)) ∧
        timers s' !! length (timers s)
        = Some {| callback := cb_connect; delay := getReconnectDelay s;
                  repeating := false; pending := true |} ∧
        heartbeatIntervalRef s' = None ∧
        heartbeatTimeoutRef s' = None ∧
        calls s'
        = calls s ++ (if failed then [onError] else []) ++ [onDisconnect] ∧
        wsRef s' = wsRef s ∧
        isMountedRef s' = true ∧
        has_window s' = has_window s ∧
        length (sockets s') = length (sockets s) ∧
        (∀ w', w' ≠ w → readyStateOf w' s' = readyStateOf w' s).
Proof.
  intros Hm Hr Hne Hlt.
  exists (onclose (after_close w failed s)). split.
  { unfold handle_event. rewrite Hr. by destruct r. }
  destruct (after_close_rest w failed s Hm)
    as (Hm1 & Hws1 & Hwin1 & Hra1 & Hi1 & Ht1 & Htm1 & Hsk1 & Hc1).
  set (s1 := after_close w failed s) in *. clearbody s1.
  destruct (onclose_retry s1 Hm1)
    as (Hm2 & Hws2 & Hwin2 & Hsk2 & Hic2 & Hra2 & Hrat2 & Hrt2 & Htm2 & Hlen2
        & Hi2 & Ht2 & Hc2); [by rewrite Hra1|].
  assert (Hdelay : getReconnectDelay s1 = getReconnectDelay s)
    by (unfold getReconnectDelay; by rewrite Hra1).
  rewrite Htm1, Hdelay in Htm2. rewrite Htm1 in Hrt2.
  rewrite Hra1 in Hra2, Hrat2.
  repeat split; try done.
  - unfold readyStateOf. rewrite Hsk2, Hsk1, list_lookup_alter_eq.
    unfold readyStateOf in Hr. by destruct (sockets s !! w).
  - rewrite Hc2, Hc1. by rewrite <- app_assoc.
  - by rewrite Hws2.
  - by rewrite Hwin2.
  - by rewrite Hsk2, Hsk1, length_alter.
  - intros w' Hw'. unfold readyStateOf.
    by rewrite Hsk2, Hsk1, list_lookup_alter_ne.
Qed.

(** X13. Whenever a socket of a mounted hook closes while the attempt
    counter is below 10, the hook reports disconnected, calls [onError]
    (on failure) and [onDisconnect], stops the heartbeat, raises the
    counter by one and schedules one reconnect, with the backoff delay of
    the counter's value before the close. *)
Theorem close_schedules_reconnect s w failed (r : ReadyState) :
  isMountedRef s = true →
  readyStateOf w s = Some r → r ≠ CLOSED →
  reconnectAttemptsRef s < MAX_RECONNECT_ATTEMPTS →
  ∃ s', handle_event (ev_close w failed) s = Some s' ∧
        readyStateOf w s' = Some CLOSED ∧
        isConnected s' = false ∧
        reconnectAttemptsRef s' = reconnectAttemptsRef s + 1 ∧
        reconnectAttempts s' = reconnectAttemptsRef s + 1 ∧
        reconnectTimeoutRef s' = Some (length (timers s)) ∧
        timers s' !! length (timers s)
        = Some {| callback := cb_connect; delay := getReconnectDelay s;
                  repeating := false; pending := true |} ∧
        heartbeatIntervalRef s' = None ∧
        heartbeatTimeoutRef s' = None ∧
        calls s'
        = calls s ++ (if failed then [onError] else []) ++ [onDisconnect].
Proof.
  intros Hm Hr Hne Hlt.
  destruct (close_event_fields s w failed r Hm Hr Hne Hlt)
    as (s' & Hstep & H1 & H2 & H3 & H4 & H5 & H6 & H7 & H8 & H9 & _).
  exists s'. done.
Qed.

(** ** The heartbeat *)

Lemma heartbeat_interval_open s w now :
  wsRef s = Some w → readyStateOf w s = Some OPEN →
  heartbeat_interval now s
  = set_heartbeatTimeoutRef (Some (length (timers s)))
      (set_timers
         (timers s ++ [{| callback := cb_heartbeat_timeout;
                          delay := HEARTBEAT_TIMEOUT_MS;
                          repeating := false; pending := true |}])
         (ws_send w (ping now) s)).
Proof.
  intros Hw Hr. unfold heartbeat_interval. rewrite Hw.
  by rewrite bool_decide_eq_true_2.
Qed.

(** X14. The interval callback of the heartbeat does nothing unless the
    current socket is OPEN. When it is, it sends one ping carrying the
    current time on that socket and arms a timeout of 10000 ms. If a pong
    is handled first, that timeout can no longer fire; if it fires, the
    current socket starts closing and no callback is called yet. *)
Theorem heartbeat_round s now :
  (current_readyState s ≠ Some OPEN → heartbeat_interval now s = s) ∧
  (∀ w, isMountedRef s = true → wsRef s = Some w →
        readyStateOf w s = Some OPEN →
        let s1 := heartbeat_interval now s in
        let t := length (timers s) in
        (sent <$> sockets s1 !! w)
        = ((fun sock => sent sock ++ [ping now]) <$> sockets s !! w) ∧
        (∀ w', w' ≠ w → sockets s1 !! w' = sockets s !! w') ∧
        heartbeatTimeoutRef s1 = Some t ∧
        timers s1 !! t
        = Some {| callback := cb_heartbeat_timeout;
                  delay := HEARTBEAT_TIMEOUT_MS;
                  repeating := false; pending := true |} ∧
        calls s1 = calls s ∧
        (∀ d now',
           handle_event (ev_timer t now') (onmessage (Some (pong d)) s1)
           = None) ∧
        (∀ now', ∃ s2,
           handle_event (ev_timer t now') s1 = Some s2 ∧
           readyStateOf w s2 = Some CLOSING ∧
           wsRef s2 = Some w ∧
           calls s2 = calls s)).
Proof.
  split.
  - intros Hnot. unfold heartbeat_interval.
    unfold current_readyState in Hnot.
    destruct (wsRef s) as [w|]; [|done].
    by rewrite bool_decide_eq_false_2.
  - intros w Hm Hw Hr s1 t. subst s1 t.
    rewrite (heartbeat_interval_open s w now Hw Hr).
    split; [|split; [|split; [|split; [|split; [|split]]]]].
    + simpl. rewrite list_lookup_alter_eq.
      by destruct (sockets s !! w).
    + intros w' Hne. simpl. by rewrite list_lookup_alter_ne.
    + done.
    + simpl. by apply list_lookup_middle.
    + done.
    + intros d now'. unfold onmessage. simpl. rewrite Hm. simpl.
      unfold handle_event. simpl.
      rewrite list_lookup_alter_eq, list_lookup_middle by done. done.
    + intros now'. eexists. split.
      { unfold handle_event. simpl.
        rewrite list_lookup_middle by done. simpl. reflexivity. }
      unfold expire, heartbeat_timeout. simpl. rewrite Hw.
      split; [|done].
      rewrite readyStateOf_ws_close_eq.
      change (closing_of <$> readyStateOf w (ws_send w (ping now) s)
              = Some CLOSING).
      by rewrite readyStateOf_ws_send, Hr.
Qed.

(** ** Inbound frames and the connection *)

Lemma connection_view_onmessage frame s :
  connection_view (onmessage frame s) = connection_view s.
Proof. unfold onmessage. by repeat case_match. Qed.

Lemma onmessage_undecodable s : onmessage None s = s.
Proof. unfold onmessage. by destruct (negb (isMountedRef s)). Qed.

(** X15. No inbound frame, decodable or not, pong or not, changes the
    connection: the sockets, the current socket, the attempt counter, the
    reconnect timer, the heartbeat interval and the connected flag are the
    same after any frames as before; frames that cannot be decoded change
    nothing at all. *)
Theorem frames_leave_connection frames s :
  connection_view (deliver frames s) = connection_view s ∧
  (Forall (fun frame => frame = None) frames → deliver frames s = s).
Proof.
  revert s. induction frames as [|frame frames IH]; intros s; [done|].
  change (deliver (frame :: frames) s)
    with (deliver frames (onmessage frame s)).
  destruct (IH (onmessage frame s)) as [IHv IHn]. split.
  - by rewrite IHv, connection_view_onmessage.
  - intros [-> Hall]%Forall_cons. rewrite onmessage_undecodable in *.
    by apply IHn.
Qed.

(** ** Disconnecting a mounted hook *)

Lemma readyStateOf_disconnect s w :
  wsRef s = Some w → live (readyStateOf w s) →
  readyStateOf w (disconnect s) = Some CLOSING.
Proof.
  intros Hw Hlive. unfold disconnect.
  destruct (same_sockets_stopHeartbeat s) as (_ & _ & Hws1 & Hrs1).
  set (s1 := stopHeartbeat s) in *. clearbody s1.
  assert (H2 : wsRef
                 match reconnectTimeoutRef s1 with
                 | Some t => set_reconnectTimeoutRef None (clearTimer t s1)
                 | None => s1
                 end = Some w
               ∧ live (readyStateOf w
                   match reconnectTimeoutRef s1 with
                   | Some t => set_reconnectTimeoutRef None (clearTimer t s1)
                   | None => s1
                   end)).
  { destruct (reconnectTimeoutRef s1); simpl;
      (split; [by rewrite Hws1|]).
    - change (live (readyStateOf w s1)). by rewrite Hrs1.
    - by rewrite Hrs1. }
  set (s2 := match reconnectTimeoutRef s1 with
             | Some t => _ | None => _ end) in *. clearbody s2.
  destruct H2 as [Hws2 Hlive2]. rewrite Hws2.
  assert (Hguard : bool_decide (readyStateOf w s2 = Some OPEN)
                   || bool_decide (readyStateOf w s2 = Some CONNECTING)
                   = true).
  { destruct Hlive2 as [-> | ->]; by rewrite ?orb_true_r. }
  rewrite Hguard.
  change (readyStateOf w (ws_close w s2) = Some CLOSING).
  rewrite readyStateOf_ws_close_eq. by destruct Hlive2 as [-> | ->].
Qed.

Lemma run_cons_Some e evs s s1 :
  handle_event e s = Some s1 → run (e :: evs) s = run evs s1.
Proof. intros He. simpl. by rewrite He. Qed.

(** X16. [disconnect] on a mounted hook does not end reconnection. When
    the socket it closed delivers its close event, the handler schedules a
    reconnect as after any close, and when that timer fires the hook opens
    a new socket. *)
Theorem disconnect_then_reconnects s w failed now :
  isMountedRef s = true → has_window s = true →
  wsRef s = Some w → live (readyStateOf w s) →
  reconnectAttemptsRef s < MAX_RECONNECT_ATTEMPTS →
  ∃ s3,
    run [ev_disconnect; ev_close w failed; ev_timer (length (timers s)) now]
        s = Some s3 ∧
    wsRef s3 = Some (length (sockets s)) ∧
    readyStateOf (length (sockets s)) s3 = Some CONNECTING ∧
    reconnectAttemptsRef s3 = reconnectAttemptsRef s + 1.
Proof.
  intros Hm Hwin Hw Hlive Hlt.
  destruct (refs_disconnect s) as (_ & _ & _ & Hm1 & Hwin1 & Hlen1).
  destruct (same_counters_disconnect s) as [Hra1 _].
  destruct (silent_disconnect s) as (_ & _ & _ & Htl1).
  pose proof (wsRef_disconnect s) as Hws1.
  pose proof (readyStateOf_disconnect s w Hw Hlive) as Hr1.
  rewrite (run_cons_Some ev_disconnect _ s (disconnect s)) by done.
  set (s1 := disconnect s) in *. clearbody s1.
  destruct (close_event_fields s1 w failed CLOSING)
    as (s2 & Hstep2 & _ & _ & Hra2 & _ & _ & Htm2 & _ & _ & _ & Hws2 & Hm2
        & Hwin2 & Hlen2 & _); [congruence|done|done|lia|].
  rewrite (run_cons_Some _ _ s1 s2 Hstep2). rewrite Htl1 in Htm2.
  assert (Hstep3 : handle_event (ev_timer (length (timers s)) now) s2
                   = Some (connect (clearTimer (length (timers s)) s2))).
  { unfold handle_event. by rewrite Htm2. }
  rewrite (run_cons_Some _ _ s2 _ Hstep3).
  rewrite connect_fresh by (simpl; congruence).
  eexists. split; [reflexivity|]. simpl.
  rewrite Hlen2, Hlen1. split; [done|]. split; [|lia].
  unfold readyStateOf. simpl. rewrite <- Hlen1, <- Hlen2.
  by rewrite list_lookup_middle.
Qed.

(** ** Sending in order *)

Lemma send_open s w message :
  wsRef s = Some w → readyStateOf w s = Some OPEN →
  send message s = ws_send w message s.
Proof.
  intros Hw Hr. unfold send. rewrite Hw.
  by rewrite bool_decide_eq_true_2.
Qed.

Lemma set_sockets_same s : set_sockets (sockets s) s = s.
Proof. by destruct s. Qed.

(** X17. On a hook whose current socket is OPEN, messages given to [send]
    one after the other are handed to that socket in that order, after
    what it was handed before; no other socket and nothing else in the
    state changes. [requestTimeseries] and [handleRefresh] of the
    dashboard are such calls. *)
Theorem send_in_order messages s w :
  wsRef s = Some w → readyStateOf w s = Some OPEN →
  send_all messages s
  = set_sockets
      (alter (fun sock => {| readyState := readyState sock;
                             sent := sent sock ++ messages |})
             w (sockets s)) s
  ∧ (∀ meterName,
       requestTimeseries meterName s
       = send_all [request_timeseries meterName] s)
  ∧ handleRefresh s = send_all [request_update] s.
Proof.
  intros Hw Hr. split; [|done].
  revert s Hw Hr. induction messages as [|m messages IH]; intros s Hw Hr.
  - simpl. rewrite list_alter_id; [apply eq_sym, set_sockets_same|].
    intros [r l]. simpl. by rewrite app_nil_r.
  - change (send_all (m :: messages) s) with (send_all messages (send m s)).
    rewrite (send_open s w m Hw Hr).
    rewrite IH; [|done|by rewrite readyStateOf_ws_send].
    unfold ws_send, set_sockets. simpl. f_equal.
    rewrite list_alter_alter_eq. apply list_alter_ext; [|done].
    intros sock _. simpl. by rewrite <- app_assoc.
Qed.

(** ** A close event that comes late *)

(** X18. The close event of a socket that the hook has dropped is handled
    like any other: while another socket is current and OPEN, the hook
    reports disconnected, stops the heartbeat of the open connection and
    counts a reconnect attempt; when the reconnect timer fires, [connect]
    finds the open socket and does nothing, so the connection stays open,
    reported as disconnected and without heartbeat. *)
Theorem late_close_on_open_connection s w w' failed now (r : ReadyState) :
  isMountedRef s = true →
  wsRef s = Some w → readyStateOf w s = Some OPEN →
  w' ≠ w → readyStateOf w' s = Some r → r ≠ CLOSED →
  reconnectAttemptsRef s < MAX_RECONNECT_ATTEMPTS →
  ∃ s2,
    run [ev_close w' failed; ev_timer (length (timers s)) now] s = Some s2 ∧
    wsRef s2 = Some w ∧
    readyStateOf w s2 = Some OPEN ∧
    length (sockets s2) = length (sockets s) ∧
    isConnected s2 = false ∧
    heartbeatIntervalRef s2 = None ∧
    heartbeatTimeoutRef s2 = None ∧
    reconnectAttemptsRef s2 = reconnectAttemptsRef s + 1.
Proof.
  intros Hm Hw Hr Hne Hr' Hopen Hlt.
  destruct (close_event_fields s w' failed r Hm Hr' Hopen Hlt)
    as (s1 & Hstep1 & _ & Hic1 & Hra1 & _ & _ & Htm1 & Hi1 & Ht1 & _ & Hws1
        & Hm1 & _ & Hlen1 & Hothers).
  rewrite (run_cons_Some _ _ s s1 Hstep1).
  assert (Hstep2 : handle_event (ev_timer (length (timers s)) now) s1
                   = Some (connect (clearTimer (length (timers s)) s1))).
  { unfold handle_event. by rewrite Htm1. }
  rewrite (run_cons_Some _ _ s1 _ Hstep2).
  rewrite connect_live.
  - eexists. split; [reflexivity|]. simpl.
    rewrite Hws1, Hw, Hlen1, Hic1, Hi1, Ht1, Hra1.
    repeat split; try done.
    change (readyStateOf w s1 = Some OPEN). by rewrite Hothers.
  - right. unfold current_readyState. simpl. rewrite Hws1, Hw.
    change (readyStateOf w s1 = Some OPEN). by rewrite Hothers.
Qed.

(** ** One heartbeat interval *)

Lemma no_interval_one s :
  no_interval (timers s) → one_interval s.
Proof. intros Hno t tm Htm Hp Hcb. by destruct (Hno t tm Htm Hp). Qed.

Lemma no_interval_cancel t l : no_interval l → no_interval (alter cancelled t l).
Proof.
  intros Hno t' tm Htm Hp. destruct (decide (t = t')) as [->|Hne].
  - rewrite list_lookup_alter_eq in Htm.
    destruct (l !! t'); simpl in Htm; [|done]. by injection Htm as <-.
  - rewrite list_lookup_alter_ne in Htm by done. by apply (Hno t' tm).
Qed.

Lemma no_interval_snoc l tm :
  callback tm ≠ cb_heartbeat_interval →
  no_interval l → no_interval (l ++ [tm]).
Proof.
  intros Hcb Hno t tm' Htm Hp. rewrite lookup_app in Htm.
  destruct (l !! t) eqn:Hl.
  - injection Htm as <-. by apply (Hno t t0).
  - destruct (t - length l); simpl in Htm; [|done]. by injection Htm as <-.
Qed.

Lemma one_interval_cancel_ref t s :
  heartbeatIntervalRef s = Some t → one_interval s →
  no_interval (alter cancelled t (timers s)).
Proof.
  intros Href Hone t' tm Htm Hp Hcb.
  destruct (decide (t = t')) as [->|Hne].
  - rewrite list_lookup_alter_eq in Htm.
    destruct (timers s !! t'); simpl in Htm; [|done]. by injection Htm as <-.
  - rewrite list_lookup_alter_ne in Htm by done.
    pose proof (Hone t' tm Htm Hp Hcb). congruence.
Qed.

Lemma one_interval_none s :
  heartbeatIntervalRef s = None → one_interval s → no_interval (timers s).
Proof.
  intros Href Hone t tm Htm Hp Hcb.
  pose proof (Hone t tm Htm Hp Hcb). congruence.
Qed.

Lemma one_interval_cancel t s :
  one_interval s → one_interval (clearTimer t s).
Proof.
  intros Hone t' tm Htm Hp Hcb. simpl in *.
  destruct (decide (t = t')) as [->|Hne].
  - rewrite list_lookup_alter_eq in Htm.
    destruct (timers s !! t'); simpl in Htm; [|done]. by injection Htm as <-.
  - rewrite list_lookup_alter_ne in Htm by done. by apply (Hone t' tm).
Qed.

Lemma one_interval_snoc tm s :
  callback tm ≠ cb_heartbeat_interval →
  one_interval s → one_interval (set_timers (timers s ++ [tm]) s).
Proof.
  intros Hcb Hone t tm' Htm Hp Hcb'. simpl in *.
  rewrite lookup_app in Htm. destruct (timers s !! t) eqn:Hl.
  - injection Htm as <-. by apply (Hone t t0).
  - destruct (t - length (timers s)); simpl in Htm; [|done].
    injection Htm as <-. done.
Qed.

Lemma one_interval_same s s' :
  heartbeatIntervalRef s' = heartbeatIntervalRef s →
  timers s' = timers s → one_interval s → one_interval s'.
Proof. unfold one_interval. by intros -> ->. Qed.

Lemma stopHeartbeat_no_interval s :
  one_interval s → no_interval (timers (stopHeartbeat s)).
Proof.
  intros Hone. unfold stopHeartbeat.
  destruct (heartbeatIntervalRef s) as [ti|] eqn:Hi;
    destruct (heartbeatTimeoutRef s) as [tt|] eqn:Ht; simpl; rewrite ?Ht;
    simpl.
  - by apply no_interval_cancel, one_interval_cancel_ref.
  - by apply one_interval_cancel_ref.
  - by apply no_interval_cancel, one_interval_none.
  - by apply one_interval_none.
Qed.

Lemma one_interval_stopHeartbeat s :
  one_interval s → one_interval (stopHeartbeat s).
Proof. intros Hone. by apply no_interval_one, stopHeartbeat_no_interval. Qed.

Lemma one_interval_startHeartbeat s :
  one_interval s → one_interval (startHeartbeat s).
Proof.
  intros Hno%stopHeartbeat_no_interval.
  destruct (startHeartbeat_fields s) as (_ & Hi & _ & Htm).
  intros t tm Hlk Hp Hcb. rewrite Hi. rewrite Htm in Hlk.
  rewrite lookup_app in Hlk.
  destruct (timers (stopHeartbeat s) !! t) eqn:Hl.
  - injection Hlk as <-. by destruct (Hno t t0).
  - apply lookup_ge_None in Hl.
    destruct (t - length (timers (stopHeartbeat s))) eqn:Hd; simpl in Hlk;
      [|done].
    f_equal. rewrite <- (length_timers_stopHeartbeat s). lia.
Qed.

Lemma one_interval_onclose s : one_interval s → one_interval (onclose s).
Proof.
  intros Hone. unfold onclose. destruct (negb (isMountedRef s)); [done|].
  simpl.
  assert (Hno : no_interval (timers (stopHeartbeat (set_isConnected false s))))
    by by apply stopHeartbeat_no_interval.
  set (s2 := stopHeartbeat (set_isConnected false s)) in *. clearbody s2.
  case_bool_decide; [by apply no_interval_one|].
  apply no_interval_one. simpl. by apply no_interval_snoc.
Qed.

Lemma one_interval_disconnect s : one_interval s → one_interval (disconnect s).
Proof.
  intros Hno%stopHeartbeat_no_interval. unfold disconnect.
  set (s1 := stopHeartbeat s) in *. clearbody s1.
  apply no_interval_one.
  destruct (reconnectTimeoutRef s1) as [t|]; simpl;
    repeat case_match; simpl; auto using no_interval_cancel.
Qed.

Lemma one_interval_connect s : one_interval s → one_interval (connect s).
Proof. unfold connect, new_WebSocket. simpl. by repeat case_match. Qed.

Lemma one_interval_onopen s : one_interval s → one_interval (onopen s).
Proof.
  intros Hone. destruct (isMountedRef s) eqn:Hm.
  - rewrite (onopen_mounted s Hm).
    eapply one_interval_same; [| |apply one_interval_startHeartbeat];
      [reflexivity|reflexivity|].
    eapply one_interval_same; [| |exact Hone]; reflexivity.
  - unfold onopen. by rewrite Hm.
Qed.

Lemma one_interval_step e s s' :
  one_interval s → handle_event e s = Some s' → one_interval s'.
Proof.
  intros Hone Hstep.
  destruct e as [w|w frame|w failed|t now|m| | |]; simpl in Hstep.
  - case_bool_decide; [|done]. injection Hstep as <-.
    apply one_interval_onopen.
    eapply one_interval_same; [| |exact Hone]; reflexivity.
  - case_bool_decide; [|done]. injection Hstep as <-.
    unfold onmessage. repeat case_match; try done.
    by apply (one_interval_cancel _ s).
  - apply handle_close_inv in Hstep as [_ ->]. apply one_interval_onclose.
    unfold after_close, onerror. by repeat case_match.
  - apply handle_timer_inv in Hstep as (tm & Htm & Hp & ->).
    assert (Hone1 : one_interval (expire t tm s)).
    { unfold expire. destruct (repeating tm); [done|].
      by apply one_interval_cancel. }
    destruct (callback tm); simpl.
    + by apply one_interval_connect.
    + unfold heartbeat_interval.
      destruct (wsRef (expire t tm s)) as [w|]; [|done].
      case_bool_decide; [|done]. unfold setTimer.
      by apply (one_interval_snoc _ (ws_send w (ping now) (expire t tm s))).
    + unfold heartbeat_timeout. by case_match.
  - injection Hstep as <-. unfold send. by repeat case_match.
  - injection Hstep as <-. by apply one_interval_disconnect.
  - injection Hstep as <-. unfold resetConnection.
    destruct (negb _); [done|].
    by apply one_interval_connect, one_interval_disconnect.
  - injection Hstep as <-. unfold unmount.
    by apply (one_interval_disconnect (set_isMountedRef false s)).
Qed.

(** X19. In every state the hook can reach, at most one heartbeat
    interval is pending, and it is the one [heartbeatIntervalRef] names:
    restarting the heartbeat never leaves an earlier interval running. *)
Theorem one_heartbeat_interval s :
  reachable s →
  one_interval s ∧
  (∀ t t' tm tm',
     timers s !! t = Some tm → timers s !! t' = Some tm' →
     pending tm = true → pending tm' = true →
     callback tm = cb_heartbeat_interval →
     callback tm' = cb_heartbeat_interval →
     t = t').
Proof.
  intros [evs Hrun].
  assert (Hone : one_interval s).
  { assert (H0 : one_interval (mount (initialHook (number:=number) true)))
      by (intros [|t] tm Htm; done).
    revert Hrun H0. generalize (mount (initialHook (number:=number) true)).
    induction evs as [|e evs IH]; intros s0 Hrun H0.
    - by injection Hrun as <-.
    - simpl in Hrun. destruct (handle_event e s0) as [s1|] eqn:He; [|done].
      apply (IH s1 Hrun). by apply (one_interval_step e s0). }
  split; [done|]. intros t t' tm tm' Ht Ht' Hp Hp' Hc Hc'.
  pose proof (Hone t tm Ht Hp Hc). pose proof (Hone t' tm' Ht' Hp' Hc').
  congruence.
Qed.

End FurtherHookProperties.

(** * Instances of the further properties *)

Lemma devices_stay_witness :
  is_Some (timeseriesData
             (handleAll in_order_run (with_series "B" [reading 0])) !! "B").
Proof.
  apply (proj2 (devices_stay in_order_run (with_series "B" [reading 0]) "B")).
  simpl. rewrite lookup_singleton_eq. by eexists.
Defined.

(** Points that arrive out of order still leave bounded series. *)
Lemma append_only_bounded_witness :
  tables_bounded (handleAll out_of_order initialDashboard).
Proof.
  apply (append_only_bounded out_of_order initialDashboard).
  - repeat constructor.
  - apply tables_bounded_initial.
Defined.

Lemma append_step_witness :
  series_of (handleWebSocketMessage (point_update "A" (reading 1))
               (with_series "A" [reading 0])) "A"
  = [reading 0; reading 1].
Proof.
  refine (eq_trans
    (proj1 (proj2 (proj1 (append_step (point_update "A" (reading 1))
                            (with_series "A" [reading 0]) "A" (reading 1)
                            (carries_point_update _ _))
                         (accepts_point_update _ "A" _ eq_refl))) _ _) _).
  - vm_compute. reflexivity.
  - vm_compute. lia.
  - vm_compute. reflexivity.
Defined.

Lemma default_meter_chosen_once_witness :
  select_over [[]; [meter_row "A"; meter_row "B"]; [meter_row "B"]] None
  = Some "A"%string.
Proof.
  refine (proj1 (proj1 (proj2
    (default_meter_chosen_once
       [[]; [meter_row "A"; meter_row "B"]; [meter_row "B"]] None))
    [[]] (meter_row "A") [meter_row "B"] [[meter_row "B"]]
    eq_refl eq_refl _ eq_refl)).
  repeat constructor.
Defined.

Lemma reset_while_open_reachable : reachable reset_while_open.
Proof.
  exists [ev_open 0; ev_resetConnection; ev_open 1]. vm_compute. reflexivity.
Qed.

Lemma teardown_silence_witness :
  silent (unmount connected) after_teardown ∧ detached after_teardown.
Proof.
  apply (teardown_silence [ev_close 0 false; ev_resetConnection] connected).
  vm_compute. reflexivity.
Defined.

Lemma one_connection_witness :
  at_most_one_live reset_while_open ∧
  connect reset_while_open = reset_while_open.
Proof.
  destruct (one_connection reset_while_open reset_while_open_reachable)
    as (Hone & _ & Hconnect).
  split; [exact Hone|]. apply Hconnect. right. vm_compute. reflexivity.
Defined.

Lemma attempts_within_budget_witness :
  reconnectAttemptsRef (state_after failing_run) ≤ MAX_RECONNECT_ATTEMPTS ∧
  reconnectAttempts (state_after failing_run)
  = reconnectAttemptsRef (state_after failing_run).
Proof.
  apply (attempts_within_budget (state_after failing_run)).
  exists failing_run. vm_compute. reflexivity.
Defined.

Lemma open_resets_witness :
  reconnectAttemptsRef reconnecting = 1 ∧
  ∃ s', handle_event (ev_open 1) reconnecting = Some s' ∧
        reconnectAttemptsRef s' = 0 ∧
        isConnected s' = true.
Proof.
  split; [reflexivity|].
  destruct (open_resets reconnecting 1 eq_refl eq_refl)
    as (s' & Hstep & _ & Hconnected & Hcounter & _).
  exists s'. split; [exact Hstep|]. split; [exact Hcounter|exact Hconnected].
Defined.

Lemma close_schedules_reconnect_witness :
  ∃ s', handle_event (ev_close 0 false) connected = Some s' ∧
        reconnectAttemptsRef s' = 1 ∧
        isConnected s' = false.
Proof.
  assert (Hopen : OPEN ≠ CLOSED) by discriminate.
  assert (Hlt : reconnectAttemptsRef connected < MAX_RECONNECT_ATTEMPTS)
    by (vm_compute; lia).
  destruct (close_schedules_reconnect connected 0 false OPEN eq_refl eq_refl
              Hopen Hlt)
    as (s' & Hstep & _ & Hconnected & Hcounter & _).
  exists s'. split; [exact Hstep|]. split; [exact Hcounter|exact Hconnected].
Defined.

Lemma heartbeat_round_witness :
  heartbeatTimeoutRef (heartbeat_interval 0%Z connected) = Some 1.
Proof.
  pose proof (proj2 (heartbeat_round connected 0%Z) 0 eq_refl eq_refl eq_refl)
    as (_ & _ & Href & _).
  exact Href.
Defined.

Lemma frames_leave_connection_witness :
  deliver [None; None] connected = connected.
Proof.
  apply (proj2 (frames_leave_connection [None; None] connected)).
  repeat constructor.
Defined.

Lemma disconnect_then_reconnects_witness :
  ∃ s3,
    run [ev_disconnect; ev_close 0 false; ev_timer 1 0%Z] connected = Some s3 ∧
    wsRef s3 = Some 1 ∧
    readyStateOf 1 s3 = Some CONNECTING ∧
    reconnectAttemptsRef s3 = 1.
Proof.
  assert (Hlt : reconnectAttemptsRef connected < MAX_RECONNECT_ATTEMPTS)
    by (vm_compute; lia).
  exact (disconnect_then_reconnects connected 0 false 0%Z eq_refl eq_refl
           eq_refl (or_intror eq_refl) Hlt).
Defined.

Lemma send_in_order_witness :
  sent_frames (send_all [request_update; request_timeseries "A"] connected)
  = [[request_update; request_timeseries "A"]].
Proof.
  rewrite (proj1 (send_in_order [request_update; request_timeseries "A"]
                    connected 0 eq_refl eq_refl)).
  reflexivity.
Defined.

Lemma late_close_on_open_connection_witness :
  ∃ s2,
    run [ev_close 0 false; ev_timer 2 0%Z] reset_while_open = Some s2 ∧
    wsRef s2 = Some 1 ∧
    readyStateOf 1 s2 = Some OPEN ∧
    isConnected s2 = false ∧
    heartbeatIntervalRef s2 = None.
Proof.
  assert (Hne : 0 ≠ 1) by discriminate.
  assert (Hopen : CLOSING ≠ CLOSED) by discriminate.
  assert (Hlt : reconnectAttemptsRef reset_while_open < MAX_RECONNECT_ATTEMPTS)
    by (vm_compute; lia).
  destruct (late_close_on_open_connection reset_while_open 1 0 false 0%Z
              CLOSING eq_refl eq_refl eq_refl Hne eq_refl Hopen Hlt)
    as (s2 & Hrun & Hws & Hstate & _ & Hconnected & Hinterval & _).
  exists s2. split; [exact Hrun|]. split; [exact Hws|].
  split; [exact Hstate|]. split; [exact Hconnected|exact Hinterval].
Defined.

Lemma one_heartbeat_interval_witness :
  one_interval reset_while_open.
Proof.
  exact (proj1 (one_heartbeat_interval reset_while_open
                  reset_while_open_reachable)).
Defined.
